(** * openapi-typescript, [src/v3.ts]: the OpenAPI 3 type generator

    A shallow embedding of [generateTypesV3] and of the closures it
    declares ([transform], [createKeys], [transformParameters],
    [transformOperation], [transformPaths], [transformRefType],
    [createExternalFileMapping]), followed by the properties of the
    generator that the specification states.

    JavaScript strings are [string], objects used as records are Rocq
    records with optional members, objects used as maps are association
    lists in [Object.entries] order, the two accumulators of one call
    ([operations], [externalFileKeys]) live in an explicit state that is
    threaded through the closures, and a thrown exception is the [Throw]
    result of a small state-and-error monad. *)

From Stdlib Require Import String Ascii List Bool Arith NArith ZArith Lia.
From Stdlib Require Import DecimalString Permutation.
Import ListNotations.
Local Open Scope list_scope.
Local Open Scope string_scope.

Set Implicit Arguments.
Set Warnings "-register-all".

(** ** JavaScript strings *)

Module Js.

(** [s.startsWith(p)] *)
Fixpoint startsWith (p s : string) : bool :=
  match p, s with
  | EmptyString, _ => true
  | String a p', String b s' => Ascii.eqb a b && startsWith p' s'
  | String _ _, EmptyString => false
  end.

(** [s.substr(n)] for a non-negative [n]. *)
Fixpoint substr (n : nat) (s : string) : string :=
  match n, s with
  | O, _ => s
  | S k, String _ s' => substr k s'
  | S _, EmptyString => EmptyString
  end.

(** The worker of [split]: [skip] characters of a separator that was just
    recognised are still to be dropped, [cur] is the piece being read. *)
Fixpoint splitGo (sep : string) (skip : nat) (cur s : string) : list string :=
  match s with
  | EmptyString => [cur]
  | String c s' =>
      match skip with
      | S k => splitGo sep k cur s'
      | O =>
          if startsWith sep s
          then cur :: splitGo sep (String.length sep - 1) EmptyString s'
          else splitGo sep 0 (cur ++ String c EmptyString) s'
      end
  end.

(** [s.split(sep)] for a non-empty separator. *)
Definition split (sep s : string) : list string := splitGo sep 0 EmptyString s.

(** [parts.join(sep)] *)
Fixpoint join (sep : string) (parts : list string) : string :=
  match parts with
  | [] => EmptyString
  | [p] => p
  | p :: rest => p ++ sep ++ join sep rest
  end.

(** [s.replace(/\.json$/, "")]: the suffix is removed when the string ends
    with it. *)
Fixpoint stripJson (s : string) : string :=
  match s with
  | EmptyString => EmptyString
  | String c s' => if String.eqb s ".json" then EmptyString else String c (stripJson s')
  end.

(** The character ['] and the backslash. *)
Definition quote : ascii := "'"%char.
Definition backslash : ascii := "\"%char.

(** [s.replace(/'/g, "\\'")]: every quote gets a backslash in front. *)
Fixpoint escapeQuotes (s : string) : string :=
  match s with
  | EmptyString => EmptyString
  | String c s' =>
      if Ascii.eqb c quote
      then String backslash (String quote (escapeQuotes s'))
      else String c (escapeQuotes s')
  end.

(** [String(n)] for a non-negative integer below 10^21. *)
Definition ofN (n : N) : string := NilZero.string_of_uint (N.to_uint n).
Definition ofNat (n : nat) : string := NilZero.string_of_uint (Nat.to_uint n).

(** The double quote and the line feed, as one-character strings. *)
Definition dq : string := String (ascii_of_nat 34) EmptyString.
Definition nl : string := String (ascii_of_nat 10) EmptyString.

(** [`"${s}"`] *)
Definition quoted (s : string) : string := dq ++ s ++ dq.

(** An optional string member under [if (...)]: [undefined] and the empty
    string are falsy, any other string is truthy and is what the branch
    reads. *)
Definition truthy (o : option string) : option string :=
  match o with
  | Some s => if String.eqb s EmptyString then None else Some s
  | None => None
  end.

(** Decimal digits and the number a string of them denotes. *)
Definition isDigit (c : ascii) : bool :=
  let n := nat_of_ascii c in (48 <=? n)%nat && (n <=? 57)%nat.

Fixpoint allDigits (s : string) : bool :=
  match s with
  | EmptyString => true
  | String c s' => isDigit c && allDigits s'
  end.

Fixpoint digitsValue (acc : N) (s : string) : N :=
  match s with
  | EmptyString => acc
  | String c s' => digitsValue (10 * acc + N.of_nat (nat_of_ascii c - 48)) s'
  end.

(** A number: [NaN], an infinity, or the rational [num / den] that a
    finite double is (the two zeros are one number here: the generator
    never tells them apart). *)
Inductive number :=
| NaN
| Infinity (negative : bool)
| Finite (num : Z) (den : positive).

Definition ofInteger (n : N) : number := Finite (Z.of_N n) 1.

(** A number under [||] or [if]: [NaN] and zero are falsy. *)
Definition truthyNumber (x : number) : bool :=
  match x with
  | NaN => false
  | Infinity _ => true
  | Finite num _ => negb (num =? 0)%Z
  end.

(** [x === n] for an integer [n]. *)
Definition isInteger (n : Z) (x : number) : bool :=
  match x with
  | Finite num den => (num =? n * Z.pos den)%Z
  | _ => false
  end.

(** [Math.floor(x / 100) === 3]: [x] is from 300 up to, and not, 400.
    (The quotient is rounded to a double before its floor is taken, and
    that does not move it across 3 or 4: a double below 300, or 400, is
    at least 2^-44 below, so its hundredth is more than 2^-51 below 3,
    or 4, and at most the double next below.) *)
Definition hundredsAreThree (x : number) : bool :=
  match x with
  | Finite num den => (300 * Z.pos den <=? num)%Z && (num <? 400 * Z.pos den)%Z
  | _ => false
  end.

(** A string of at most fifteen decimal digits, the empty string among
    them: [Number] of it is the integer it denotes, which is below 2^53
    and so a double. *)
Definition plainNumeral (s : string) : bool :=
  allDigits s && (String.length s <=? 15)%nat.

(** The characters of the strings that [Number] reads as a number:
    digits, signs, the point, the exponent and radix letters, the
    hexadecimal digits, the letters of [Infinity], white space, and the
    bytes above 127, of which the white space outside ASCII is made. *)
Definition numeralCharacter (c : ascii) : bool :=
  let n := nat_of_ascii c in
  isDigit c
  || existsb (Ascii.eqb c) (list_ascii_of_string "+-.eExXoObBaAcCdDfFInity")
  || ((9 <=? n)%nat && (n <=? 13)%nat)
  || (n =? 32)%nat
  || (128 <=? n)%nat.

Fixpoint numeralCharacters (s : string) : bool :=
  match s with
  | EmptyString => true
  | String c s' => numeralCharacter c && numeralCharacters s'
  end.

(** [Number(s)]. It is computed for the plain numerals, and is [NaN] for
    a string with a character that no numeric string has; for any other
    string (a sign, a fraction, an exponent, a radix prefix, white space,
    [Infinity], more than fifteen digits, or a string of such characters
    that is no number at all) it is what [engine], the conversion of the
    JavaScript engine, answers. *)
Definition Number (engine : string -> number) (s : string) : number :=
  if plainNumeral s then ofInteger (digitsValue 0 s)
  else if numeralCharacters s then engine s
  else NaN.

(** [String(x)], as a template literal makes it. It is computed for the
    positive integers below 2^53, which are written in decimal digits;
    for any other number it is what [engine] answers. *)
Definition numberText (engine : number -> string) (x : number) : string :=
  match x with
  | Finite num den =>
      if ((num mod Z.pos den =? 0) && (0 <? num) && (num / Z.pos den <? 2 ^ 53))%Z
      then ofN (Z.to_N (num / Z.pos den))
      else engine x
  | _ => engine x
  end.

(** The names of the members of [Object.prototype], which every object
    made by a literal or by [JSON.parse] inherits. *)
Definition inheritedNames : list string :=
  ["constructor"; "__defineGetter__"; "__defineSetter__"; "hasOwnProperty";
   "__lookupGetter__"; "__lookupSetter__"; "isPrototypeOf"; "propertyIsEnumerable";
   "toString"; "valueOf"; "__proto__"; "toLocaleString"].

Definition isInherited (k : string) : bool := existsb (String.eqb k) inheritedNames.

(** Concatenation of a list of pieces, [output += piece] for each. *)
Definition concat (l : list string) : string := fold_right String.append EmptyString l.

End Js.

(** ** A [Set] of strings

    [new Set()] keeps its members in insertion order; [add] of a member
    that is already there changes nothing. *)

Module StrSet.

Definition t := list string.
Definition empty : t := [].
Definition has (k : string) (s : t) : bool := existsb (String.eqb k) s.
Definition add (k : string) (s : t) : t := if has k s then s else (s ++ [k])%list.

End StrSet.

(** ** The input document ([./types])

    Every member that the generator reads is a field; a member that may
    be absent is an [option]. *)

(** A member of an [enum] array. *)
Inductive EnumItem :=
| ENum (n : Z)
| EBool (b : bool)
| EStr (s : string).

(** [items]: one schema, or an array of schemas. *)
Inductive Items (A : Type) :=
| SingleItem (a : A)
| TupleItems (l : list A).

(** A truthy [additionalProperties]: [true], or a schema. *)
Inductive Additional (A : Type) :=
| AnyAdditional
| AdditionalSchema (a : A).

Arguments AnyAdditional {A}.

(** [OpenAPI3SchemaObject], with the member [schema] that [createKeys]
    looks for on the values it is given. *)
Inductive SchemaObject := mkSchema {
  ref : option string;
  type_ : option string;
  enum : option (list EnumItem);
  oneOf : option (list SchemaObject);
  anyOf : option (list SchemaObject);
  allOf : option (list SchemaObject);
  properties : option (list (string * SchemaObject));
  required : option (list string);
  additionalProperties : option (Additional SchemaObject);
  items : option (Items SchemaObject);
  description : option string;
  nullable : option bool;
  schema : option SchemaObject
}.

Definition OpenAPI3Schemas := list (string * SchemaObject).

(** The object with no member at all. *)
Definition emptyNode : SchemaObject :=
  mkSchema None None None None None None None None None None None None None.

(** Modelled from the spec: the [in] of a parameter, whose type in
    ./types is not part of the sources at hand; "[in]
    (query/path/header/cookie)". *)
Inductive ParameterLocation :=
| InQuery
| InHeader
| InPath
| InCookie.

Record OpenAPI3Parameter := {
  name : string;
  in_ : ParameterLocation;
  p_required : option bool;
  p_description : option string;
  p_schema : SchemaObject
}.

(** [Parameter]: a reference object or an [OpenAPI3Parameter]. *)
Inductive ParameterObject :=
| RefParameter (ref : string)
| InlineParameter (p : OpenAPI3Parameter).

Record MediaType := { m_schema : SchemaObject }.

Record ResponseObject := {
  r_description : option string;
  r_content : option (list (string * MediaType))
}.

Record RequestBody := { rb_content : option (list (string * MediaType)) }.

(** [responses] binds a status key to a response; a binding to [null] is
    [None]. *)
Record OpenAPI3Operation := {
  operationId : option string;
  op_description : option string;
  op_parameters : option (list ParameterObject);
  requestBody : option RequestBody;
  responses : list (string * option ResponseObject)
}.

(** A path item. [pi_parameters] is its member [parameters], the shared
    parameter list; [pi_fields] are its other members in [Object.entries]
    order, each seen as an operation (the generator looks only at those
    named by an HTTP method, and [parameters] is not such a name, so the
    loop over the entries does nothing for it wherever it stands). *)
Record PathItem := {
  pi_fields : list (string * OpenAPI3Operation);
  pi_parameters : option (list ParameterObject)
}.

Definition OpenAPI3Paths := list (string * PathItem).

Record Components := {
  schemas : OpenAPI3Schemas;
  c_parameters : option (list (string * ParameterObject));
  c_responses : option (list (string * ResponseObject))
}.

Record OpenAPI3 := {
  paths : option OpenAPI3Paths;
  components : option Components
}.

(** The argument [input: OpenAPI3 | OpenAPI3Schemas] is one object that
    the generator reads through both types: as a document
    ([input as OpenAPI3]) and as a map of schemas ([{ schemas: input }]). *)
Record Input := {
  asDocument : OpenAPI3;
  asSchemas : OpenAPI3Schemas
}.

(** [SwaggerToTSOptions], over the type of the caller's mapper. *)
Record SwaggerToTSOptions (Mapper : Type) := {
  rawSchema : option bool;
  opt_propertyMapper : option Mapper
}.

(** What [nodeType] answers. *)
Inductive NodeType :=
| TRef | TString | TNumber | TBoolean | TEnum | TOneOf | TAnyOf | TObject | TArray.

(** A member of the array handed to [tsUnionOf]: the enum case passes
    numbers and booleans through as they are. *)
Inductive TsItem :=
| ItemNum (n : Z)
| ItemBool (b : bool)
| ItemStr (s : string).

(** ** Objects built by the generator

    [obj[k] = v] on an object that starts as [{}] and is used as a map: a
    key that is there keeps its place and gets the new value, a new key
    goes to the end. The key [__proto__] is the one accessor that such an
    object inherits: an assignment to it sets the prototype of the object
    (or does nothing, for a value that is no object) and adds no key.
    [Object.entries] lists the own keys, array-index keys first, in
    ascending order, then the other keys as they were inserted; the
    prototype does not show in it. *)

Module Obj.

Section Obj.
Variable V : Type.

Definition t := list (string * V).

(** The value of the own key [k]. *)
Fixpoint get (k : string) (o : t) : option V :=
  match o with
  | [] => None
  | (k', v) :: rest => if String.eqb k k' then Some v else get k rest
  end.

(** The write of an own key. *)
Fixpoint put (k : string) (v : V) (o : t) : t :=
  match o with
  | [] => [(k, v)]
  | (k', v') :: rest =>
      if String.eqb k k' then (k', v) :: rest else (k', v') :: put k v rest
  end.

(** [o[k] = v] *)
Definition set (k : string) (v : V) (o : t) : t :=
  if String.eqb k "__proto__" then o else put k v o.

(** An array index: a canonical decimal numeral below 2^32 - 1. *)
Definition arrayIndex (k : string) : option N :=
  match k with
  | EmptyString => None
  | String c rest =>
      if Js.allDigits k
         && (negb (Ascii.eqb c "0"%char) || String.eqb rest EmptyString)
         && (String.length k <=? 10)%nat
      then let n := Js.digitsValue 0 k in
           if (n <? 4294967295)%N then Some n else None
      else None
  end.

Fixpoint insertIndexed (n : N) (e : string * V) (l : list (N * (string * V)))
  : list (N * (string * V)) :=
  match l with
  | [] => [(n, e)]
  | (m, e') :: rest =>
      if (n <=? m)%N then (n, e) :: l else (m, e') :: insertIndexed n e rest
  end.

Fixpoint indexed (o : t) : list (N * (string * V)) :=
  match o with
  | [] => []
  | (k, v) :: rest =>
      match arrayIndex k with
      | Some n => insertIndexed n (k, v) (indexed rest)
      | None => indexed rest
      end
  end.

Fixpoint named (o : t) : t :=
  match o with
  | [] => []
  | (k, v) :: rest =>
      match arrayIndex k with
      | Some _ => named rest
      | None => (k, v) :: named rest
      end
  end.

(** [Object.entries(o)] *)
Definition entries (o : t) : t := (map snd (indexed o) ++ named o)%list.

End Obj.

End Obj.

(** ** State and exceptions *)

(** The one error the generator throws itself, and the [TypeError] of the
    runtime (a member read on [undefined]). *)
Inductive JsError :=
| InvalidDocumentShape
| TypeError.

Inductive Res (A : Type) :=
| Ok (a : A)
| Throw (e : JsError).

Arguments Throw {A} e.

(** The objects alive during one call: the caller's [input], and the two
    accumulators the call creates. *)
Record State := {
  st_input : Input;
  operations : Obj.t OpenAPI3Operation;
  externalFileKeys : StrSet.t
}.

Definition M (A : Type) : Type := State -> Res A * State.

Definition ret {A} (a : A) : M A := fun st => (Ok a, st).

Definition throw {A} (e : JsError) : M A := fun st => (Throw e, st).

Definition bind {A B} (c : M A) (k : A -> M B) : M B :=
  fun st =>
    match c st with
    | (Ok a, st') => k a st'
    | (Throw e, st') => (Throw e, st')
    end.

Notation "x <- c ;; k" := (bind c (fun x => k))
  (at level 61, c at next level, right associativity).

(** [externalFileKeys.add(k)] *)
Definition addExternalFileKey (k : string) : M unit :=
  fun st => (Ok tt, {| st_input := st_input st;
                       operations := operations st;
                       externalFileKeys := StrSet.add k (externalFileKeys st) |}).

(** [operations[id] = op] *)
Definition setOperation (id : string) (op : OpenAPI3Operation) : M unit :=
  fun st => (Ok tt, {| st_input := st_input st;
                       operations := Obj.set id op (operations st);
                       externalFileKeys := externalFileKeys st |}).

(** Reading the closure variable [input]. *)
Definition getInput : M Input := fun st => (Ok (st_input st), st).

(** [xs.map(f)] for an [f] that has effects: left to right. *)
Fixpoint mapM {A B} (f : A -> M B) (l : list A) : M (list B) :=
  match l with
  | [] => ret []
  | x :: rest => y <- f x ;; ys <- mapM f rest ;; ret (y :: ys)
  end.

(** [xs.forEach(x => { output += f(x) })]: the texts, concatenated. *)
Definition concatM {A} (f : A -> M string) (l : list A) : M string :=
  parts <- mapM f l ;; ret (Js.concat parts).

(** ** The helpers of [./utils] and [./property-mapper]

    The generator is stated over these helpers (they are the variables of
    the section below). The definitions here are instances to run the
    generator on documents. *)

Module Utils.

(** Modelled from the spec: [comment] of ./utils, which is not part of the
    sources at hand; "a leading doc comment". *)
Definition comment (text : string) : string := "/** " ++ text ++ " */" ++ Js.nl.

Definition present {A} (o : option A) : bool :=
  match o with
  | Some _ => true
  | None => false
  end.

Definition typeIs (node : SchemaObject) (names : list string) : bool :=
  match type_ node with
  | Some t => existsb (String.eqb t) names
  | None => false
  end.

(** Modelled from the spec: [nodeType] of ./utils; the tag of a node is
    derived from the members that are present, by the precedence
    "enum > oneOf > anyOf > allOf/properties/additionalProperties > array >
    ref > primitive-by-declared-type", and an unrecognised node has none. *)
Definition nodeType (node : SchemaObject) : option NodeType :=
  if present (enum node) then Some TEnum
  else if present (oneOf node) then Some TOneOf
  else if present (anyOf node) then Some TAnyOf
  else if present (allOf node) || present (properties node)
          || present (additionalProperties node) || typeIs node ["object"]
  then Some TObject
  else if present (items node) || typeIs node ["array"] then Some TArray
  else if present (ref node) then Some TRef
  else if typeIs node ["string"] then Some TString
  else if typeIs node ["boolean"] then Some TBoolean
  else if typeIs node ["integer"; "number"] then Some TNumber
  else None.

(** [`name["a"]["b"]`]: successive indexed lookups under [name]. *)
Definition lookups (name : string) (segments : list string) : string :=
  match segments with
  | [] => name
  | _ :: _ =>
      name ++ "[" ++ Js.dq ++ Js.join (Js.dq ++ "][" ++ Js.dq) segments ++ Js.dq ++ "]"
  end.

(** Modelled from the spec: [transformRef] of ./utils, the resolver of an
    internal reference; "split on /, drop the document-relative anchor, and
    address each subsequent path segment as a successive indexed lookup
    under the given root prefix". *)
Definition transformRef (ref root : string) : string :=
  match Js.split "/" (root ++ Js.substr 2 ref) with
  | [] => EmptyString
  | first :: segments => lookups first segments
  end.

(** Modelled from the spec: the type builders of ./utils; "a homogeneous
    sequence type", "a fixed-length positional (tuple) type", "intersection",
    "all fields optional", "a union of literal values". *)
Definition tsArrayOf (t : string) : string := "(" ++ t ++ ")[]".
Definition tsTupleOf (ts : list string) : string := "[" ++ Js.join ", " ts ++ "]".
Definition tsIntersectionOf (ts : list string) : string :=
  "(" ++ Js.join ") & (" ts ++ ")".
Definition tsPartial (t : string) : string := "Partial<" ++ t ++ ">".

Definition itemText (item : TsItem) : string :=
  match item with
  | ItemNum n => NilZero.string_of_int (Z.to_int n)
  | ItemBool true => "true"
  | ItemBool false => "false"
  | ItemStr s => s
  end.

Definition tsUnionOf (items : list TsItem) : string :=
  "(" ++ Js.join ") | (" (map itemText items) ++ ")".

(** The names between double quotes in a path expression. *)
Fixpoint oddPieces (pieces : list string) : list string :=
  match pieces with
  | _ :: name :: rest => name :: oddPieces rest
  | _ => []
  end.

(** Modelled from the spec: [unrefComponent] of ./utils, "the Reference
    Resolver's component lookup": the component parameter that a path
    expression [components["parameters"]["<name>"]] addresses. *)
Definition unrefComponent (comps : Components) (text : string) : option ParameterObject :=
  match oddPieces (Js.split Js.dq text) with
  | [kind; name] =>
      if String.eqb kind "parameters"
      then match c_parameters comps with
           | Some ps => Obj.get name ps
           | None => None
           end
      else None
  | _ => None
  end.

(** Modelled from the spec: [propertyMapper] of ./property-mapper, "a
    function from raw schema-map to possibly-renamed schema-map"; "absence
    of a mapper means identity". *)
Definition Mapper : Type := OpenAPI3Schemas -> OpenAPI3Schemas.

Definition propertyMapper (o : OpenAPI3Schemas) (mapper : option Mapper)
  : OpenAPI3Schemas :=
  match mapper with
  | Some f => f o
  | None => o
  end.

(** Instances of the three lookups of the engine. The sample documents
    do not reach them: their status keys are plain numerals or have a
    letter that no number has, and their references are of the form
    [#/components/parameters/<key>] with a key that no object inherits. *)
Definition engineNumber (s : string) : Js.number := Js.NaN.
Definition engineString (x : Js.number) : string := "NaN".
Definition memberAt (input : Input) (path : list string)
  : option (option ParameterLocation * option string) := None.

End Utils.

(** ** Sample documents *)

Module Examples.

Definition stringNode : SchemaObject :=
  mkSchema None (Some "string") None None None None None None None None None None None.

Definition numberNode : SchemaObject :=
  mkSchema None (Some "integer") None None None None None None None None None None None.

(** [{ type: "array", items: [{ type: "string" }, { type: "integer" }] }] *)
Definition tupleNode : SchemaObject :=
  mkSchema None (Some "array") None None None None None None None
           (Some (TupleItems [stringNode; numberNode])) None None None.

(** [{ enum: ["\\'"] }]: one member, a backslash followed by a quote. *)
Definition backslashQuoteEnum : SchemaObject :=
  mkSchema None None (Some [EStr "\'"]) None None None None None None None None None None.

(** [{ type: "object", properties: { id: { type: "integer" },
    name: { type: "string" } }, required: ["id"] }] *)
Definition petNode : SchemaObject :=
  mkSchema None (Some "object") None None None None
           (Some [("id", numberNode); ("name", stringNode)]) (Some ["id"])
           None None None None None.

(** [{ components: { schemas: { Pet: ... } } }] *)
Definition petDocument : Input :=
  {| asDocument :=
       {| paths := None;
          components := Some {| schemas := [("Pet", petNode)];
                                c_parameters := None;
                                c_responses := None |} |};
     asSchemas := [] |}.

Definition operationNamed (id text : string) : OpenAPI3Operation :=
  {| operationId := Some id;
     op_description := Some text;
     op_parameters := None;
     requestBody := None;
     responses := [] |}.

Definition firstListPets : OpenAPI3Operation := operationNamed "listPets" "first".
Definition secondListPets : OpenAPI3Operation := operationNamed "listPets" "second".

(** Two paths whose [get] operations share the identifier [listPets]. *)
Definition petPaths : OpenAPI3Paths :=
  [("/pets", {| pi_fields := [("get", firstListPets)]; pi_parameters := None |});
   ("/animals", {| pi_fields := [("get", secondListPets)]; pi_parameters := None |})].

Definition petsDocument : Input :=
  {| asDocument := {| paths := Some petPaths; components := None |};
     asSchemas := [] |}.

(** A document with no member. *)
Definition emptyDocument : Input :=
  {| asDocument := {| paths := None; components := None |}; asSchemas := [] |}.

(** A raw map of schemas, [{ Pet: { type: "string" } }]. *)
Definition rawPet : Input :=
  {| asDocument := {| paths := None; components := None |};
     asSchemas := [("Pet", stringNode)] |}.

Definition rawOptions : option (SwaggerToTSOptions Utils.Mapper) :=
  Some {| rawSchema := Some true; opt_propertyMapper := None |}.

Definition noComponents : Components :=
  {| schemas := []; c_parameters := None; c_responses := None |}.

Definition queryId (s : SchemaObject) : OpenAPI3Parameter :=
  {| name := "id"; in_ := InQuery; p_required := None; p_description := None;
     p_schema := s |}.

Definition noContent : ResponseObject :=
  {| r_description := None; r_content := None |}.

End Examples.

(** ** The generator *)

Section Generator.

(** The helpers imported from [./utils] and [./property-mapper]. *)
Variable comment : string -> string.
Variable nodeType : SchemaObject -> option NodeType.
Variable transformRef : string -> string -> string.
Variable tsArrayOf : string -> string.
Variable tsIntersectionOf : list string -> string.
Variable tsPartial : string -> string.
Variable tsUnionOf : list TsItem -> string.
Variable tsTupleOf : list string -> string.
Variable unrefComponent : Components -> string -> option ParameterObject.
Variable Mapper : Type.
Variable propertyMapper : OpenAPI3Schemas -> option Mapper -> OpenAPI3Schemas.

(** The conversions of the JavaScript engine between strings and numbers,
    for the strings and numbers on which [Js.Number] and [Js.numberText]
    are not computed. *)
Variable engineNumber : string -> Js.number.
Variable engineString : Js.number -> string.

(** The property lookup of the engine along a path of member names, from
    the document as it is in memory, for the paths that leave the typed
    view of the document (see [referencedValue]): the members [in] and
    [name] of what the walk arrives at, read as an [OpenAPI3Parameter],
    or [None] when reading them throws. *)
Variable memberAt : Input -> list string -> option (option ParameterLocation * option string).

(** [if (d) output += comment(d)] *)
Definition commentOf (d : option string) : string :=
  match Js.truthy d with
  | Some text => comment text
  | None => EmptyString
  end.

(** *** [transformRefType] *)

(** The document key of an external reference: the part before ["#/"],
    without a final [.json]. *)
Definition fileKeyOf (ref : string) : string :=
  Js.stripJson (nth 0 (Js.split "#/" ref) EmptyString).

(** The path expression of an external reference. *)
Definition externalPath (ref : string) : string :=
  let fileKey := fileKeyOf ref in
  match nth_error (Js.split "#/" ref) 1 with
  | Some internalPath =>
      if negb (String.eqb internalPath EmptyString)
      then "external[" ++ Js.quoted fileKey ++ "]["
           ++ Js.quoted (Js.join (Js.dq ++ "][" ++ Js.dq) (Js.split "/" internalPath))
           ++ "]"
      else "external[" ++ Js.quoted fileKey ++ "]"
  | None => "external[" ++ Js.quoted fileKey ++ "]"
  end.

Definition isExternalRef (ref : string) : bool := negb (Js.startsWith "#" ref).

Definition transformRefType (ref root : string) : M string :=
  if isExternalRef ref
  then _ <- addExternalFileKey (fileKeyOf ref) ;; ret (externalPath ref)
  else ret (transformRef ref root).

(** *** [transform] and [createKeys] *)

(** One member of an [enum], as the enum case maps it. *)
Definition enumMember (item : EnumItem) : TsItem :=
  match item with
  | ENum n => ItemNum n
  | EBool b => ItemBool b
  | EStr s => ItemStr ("'" ++ Js.escapeQuotes s ++ "'")
  end.

(** [!required || !required.includes(key) ? "?" : ""] *)
Definition optionalMark (required : option (list string)) (key : string) : string :=
  match required with
  | Some names => if existsb (String.eqb key) names then EmptyString else "?"
  | None => "?"
  end.

Definition isNullable (value : SchemaObject) : bool :=
  match nullable value with
  | Some true => true
  | _ => false
  end.

(** The text [createKeys] adds for one entry, around the type [t] of its
    value. *)
Definition keyText (mark : string) (key : string) (value : SchemaObject) (t : string)
  : string :=
  commentOf (description value)
  ++ Js.quoted key ++ mark ++ ": "
  ++ (if isNullable value then "(" else EmptyString)
  ++ t
  ++ (if isNullable value then ") | null" else EmptyString)
  ++ ";" ++ Js.nl.

(** [value.schema ? value.schema : value] *)
Definition valueSchema (value : SchemaObject) : SchemaObject :=
  match schema value with
  | Some s => s
  | None => value
  end.

(** [createKeys], over the [transform] it calls. *)
Definition createKeysF (self : SchemaObject -> M string)
  (obj : list (string * SchemaObject)) (required : option (list string)) : M string :=
  concatM (fun entry : string * SchemaObject =>
             let (key, value) := entry in
             t <- self (match schema value with Some s => s | None => value end) ;;
             ret (keyText (optionalMark required key) key value t))
          obj.

Definition genericMap : string := "{ [key: string]: any }".

(** The name of a primitive node type. *)
Definition primitiveName (t : NodeType) : string :=
  match t with
  | TString => "string"
  | TNumber => "number"
  | TBoolean => "boolean"
  | _ => "any"
  end.

Definition isEmptyObject (node : SchemaObject) : bool :=
  match properties node with
  | Some (_ :: _) => false
  | _ => match allOf node, additionalProperties node with
         | None, None => true
         | _, _ => false
         end
  end.

(** The body of [transform], over the function it calls on sub-nodes. *)
Definition transformF (rawSchema : bool) (self : SchemaObject -> M string)
  (node : SchemaObject) : M string :=
  match nodeType node with
  | Some TRef =>
      match ref node with
      | Some r => transformRefType r (if rawSchema then "schemas/" else EmptyString)
      | None => throw TypeError
      end
  | Some TString => ret (primitiveName TString)
  | Some TNumber => ret (primitiveName TNumber)
  | Some TBoolean => ret (primitiveName TBoolean)
  | Some TEnum =>
      match enum node with
      | Some members => ret (tsUnionOf (map enumMember members))
      | None => throw TypeError
      end
  | Some TOneOf =>
      match oneOf node with
      | Some nodes => ts <- mapM self nodes ;; ret (tsUnionOf (map ItemStr ts))
      | None => throw TypeError
      end
  | Some TAnyOf =>
      match anyOf node with
      | Some nodes =>
          ts <- mapM (fun n => t <- self n ;; ret (tsPartial t)) nodes ;;
          ret (tsIntersectionOf ts)
      | None => throw TypeError
      end
  | Some TObject =>
      if isEmptyObject node then ret genericMap
      else
        props <- match properties node with
                 | Some o => createKeysF self o (required node)
                 | None => createKeysF self [] (required node)
                 end ;;
        additional <-
          match additionalProperties node with
          | None => ret []
          | Some AnyAdditional => ret ["{ [key: string]: any;}" ++ Js.nl]
          | Some (AdditionalSchema a) =>
              t <- self a ;;
              ret ["{ [key: string]: "
                   ++ (if String.eqb t EmptyString then "any" else t)
                   ++ ";}" ++ Js.nl]
          end ;;
        all <- match allOf node with
               | Some nodes => mapM self nodes
               | None => ret []
               end ;;
        ret (tsIntersectionOf
               (all
                ++ (if String.eqb props EmptyString then []
                    else [("{ " ++ props ++ " }")%string])
                ++ additional)%list)
  | Some TArray =>
      match items node with
      | Some (TupleItems nodes) => ts <- mapM self nodes ;; ret (tsTupleOf ts)
      | Some (SingleItem item) => t <- self item ;; ret (tsArrayOf t)
      | None => ret (tsArrayOf "any")
      end
  | None => ret EmptyString
  end.

Fixpoint transform (rawSchema : bool) (node : SchemaObject) {struct node} : M string :=
  transformF rawSchema (transform rawSchema) node.

Definition createKeys (rawSchema : bool)
  (obj : list (string * SchemaObject)) (required : option (list string)) : M string :=
  createKeysF (transform rawSchema) obj required.

(** *** [transformParameters] *)

(** What [allParameters] holds for a name: the text of a reference, or the
    parameter itself. *)
Inductive ParamProps :=
| RefText (text : string)
| Props (p : OpenAPI3Parameter).

Definition AllParameters := Obj.t (Obj.t ParamProps).

(** The members [in] and [name] of what the walk
    [p.$ref.substr(2).split("/").reduce((value, property) => value[property], input)]
    arrives at, each [None] when it is [undefined]. Reading them throws a
    [TypeError] when the walk arrives at [undefined]; a walk that has to
    go on from [undefined] throws it before.

    The walk is computed through the typed document for the path
    [components/parameters/<key>]. With an own key of that map it arrives
    at a component parameter: an inline parameter has both members, a
    component that is itself a reference object has neither. A document
    without [components], or without [components.parameters], stops the
    walk on [undefined]. A key that the map does not have reads as
    [undefined], unless it names a member that the map inherits. For such
    a name, and for a path of any other form, the walk leaves the typed
    view of the document (it goes through members that the types do not
    list, through arrays and strings, or through inherited members), and
    the result is what [memberAt] answers. *)
Definition referencedValue (input : Input) (ref : string)
  : Res (option ParameterLocation * option string) :=
  let path := Js.split "/" (Js.substr 2 ref) in
  let elsewhere := match memberAt input path with
                   | Some found => Ok found
                   | None => Throw TypeError
                   end in
  match path with
  | [a; b; n] =>
      if String.eqb a "components" && String.eqb b "parameters"
      then match components (asDocument input) with
           | Some c =>
               match c_parameters c with
               | Some ps =>
                   match Obj.get n ps with
                   | Some (InlineParameter p) => Ok (Some (in_ p), Some (name p))
                   | Some (RefParameter _) => Ok (None, None)
                   | None => if Js.isInherited n then elsewhere else Throw TypeError
                   end
               | None => Throw TypeError
               end
           | None => Throw TypeError
           end
      else elsewhere
  | _ => elsewhere
  end.

(** A location as a property key; [undefined] is the key ["undefined"]. *)
Definition locationName (loc : ParameterLocation) : string :=
  match loc with
  | InQuery => "query"
  | InHeader => "header"
  | InPath => "path"
  | InCookie => "cookie"
  end.

Definition locationKey (loc : option ParameterLocation) : string :=
  match loc with
  | Some l => locationName l
  | None => "undefined"
  end.

Definition nameKey (name : option string) : string :=
  match name with
  | Some n => n
  | None => "undefined"
  end.

(** [if (!all[loc]) all[loc] = {}; all[loc][name] = v]. None of the keys
    that a location gives is a member that [all] inherits, so [all[loc]]
    is the record filed under [loc], or [undefined]. *)
Definition setParameter (loc : option ParameterLocation) (name : string) (v : ParamProps)
  (all : AllParameters) : AllParameters :=
  let group := match Obj.get (locationKey loc) all with
               | Some g => g
               | None => []
               end in
  Obj.set (locationKey loc) (Obj.set name v group) all.

(** The body of [parameters.forEach] for one parameter. *)
Definition addParameter (all : AllParameters) (p : ParameterObject) : M AllParameters :=
  match p with
  | RefParameter r =>
      input <- getInput ;;
      match referencedValue input r with
      | Ok (loc, name) =>
          ret (setParameter loc (nameKey name) (RefText (transformRef r EmptyString)) all)
      | Throw e => throw e
      end
  | InlineParameter q => ret (setParameter (Some (in_ q)) (name q) (Props q) all)
  end.

(** [parameters.forEach(...)], from the empty [allParameters]. *)
Fixpoint groupParameters (all : AllParameters) (parameters : list ParameterObject)
  : M AllParameters :=
  match parameters with
  | [] => ret all
  | p :: rest => all' <- addParameter all p ;; groupParameters all' rest
  end.

(** [const { required } = unrefComponent(components, text)], as a truth
    value. *)
Definition unrefRequired (comps : Components) (text : string) : M bool :=
  match unrefComponent comps text with
  | Some (InlineParameter q) =>
      ret (match p_required q with Some true => true | _ => false end)
  | Some (RefParameter _) => ret false
  | None => throw TypeError
  end.

(** The field emitted for one name of a location. *)
Definition parameterField (rawSchema : bool) (comps : Components)
  (entry : string * ParamProps) : M string :=
  let (paramName, paramProps) := entry in
  match paramProps with
  | RefText text =>
      req <- unrefRequired comps text ;;
      ret ((if req then Js.quoted paramName else Js.quoted paramName ++ "?")
           ++ ": " ++ text ++ Js.nl)
  | Props q =>
      t <- transform rawSchema (p_schema q) ;;
      ret (commentOf (p_description q)
           ++ Js.quoted paramName
           ++ (match p_required q with Some true => EmptyString | _ => "?" end)
           ++ ": " ++ t ++ ";" ++ Js.nl)
  end.

(** The record emitted for one location. *)
Definition locationRecord (rawSchema : bool) (comps : Components)
  (entry : string * Obj.t ParamProps) : M string :=
  let (loc, locParams) := entry in
  fields <- concatM (parameterField rawSchema comps) (Obj.entries locParams) ;;
  ret (Js.quoted loc ++ ": {" ++ Js.nl ++ fields ++ "}" ++ Js.nl).

Definition renderParameters (rawSchema : bool) (comps : Components)
  (all : AllParameters) : M string :=
  records <- concatM (locationRecord rawSchema comps) (Obj.entries all) ;;
  ret ("parameters: {" ++ Js.nl ++ records ++ "}" ++ Js.nl).

Definition transformParameters (rawSchema : bool) (comps : Components)
  (parameters : list ParameterObject) : M string :=
  all <- groupParameters [] parameters ;;
  renderParameters rawSchema comps all.

(** *** [transformOperation] *)

(** [Number(statusCodeString) || statusCodeString] *)
Inductive StatusCode :=
| CodeNum (x : Js.number)
| CodeStr (s : string).

Definition statusCodeOf (statusCodeString : string) : StatusCode :=
  let x := Js.Number engineNumber statusCodeString in
  if Js.truthyNumber x then CodeNum x else CodeStr statusCodeString.

(** [`${statusCode}`] *)
Definition statusText (c : StatusCode) : string :=
  match c with
  | CodeNum x => Js.numberText engineString x
  | CodeStr s => s
  end.

(** [statusCode === 204 || Math.floor(+statusCode / 100) === 3]; a string
    is never [=== 204], and [+] of a string is [Number] of it. *)
Definition neverHasBody (c : StatusCode) : bool :=
  match c with
  | CodeNum x => Js.isInteger 204 x || Js.hundredsAreThree x
  | CodeStr s => Js.hundredsAreThree (Js.Number engineNumber s)
  end.

Definition emptyBodyType (c : StatusCode) : string :=
  if neverHasBody c then "never" else "unknown".

(** [`"${contentType}": ${transform(schema)};\n`] for each content type. *)
Definition contentFields (rawSchema : bool) (content : list (string * MediaType))
  : M string :=
  concatM (fun entry : string * MediaType =>
             let (contentType, media) := entry in
             t <- transform rawSchema (m_schema media) ;;
             ret (Js.quoted contentType ++ ": " ++ t ++ ";" ++ Js.nl))
          content.

(** The body of [Object.entries(operation.responses).forEach]. *)
Definition responseEntry (rawSchema : bool) (entry : string * option ResponseObject)
  : M string :=
  let (statusCodeString, response) := entry in
  let statusCode := statusCodeOf statusCodeString in
  match response with
  | None => ret EmptyString
  | Some r =>
      match r_content r with
      | Some (c :: cs) =>
          fields <- contentFields rawSchema (c :: cs) ;;
          ret (commentOf (r_description r)
               ++ statusText statusCode ++ ": {" ++ Js.nl ++ fields ++ "}" ++ Js.nl)
      | _ =>
          ret (commentOf (r_description r)
               ++ statusText statusCode ++ ": " ++ emptyBodyType statusCode
               ++ ";" ++ Js.nl)
      end
  end.

Definition responsesBlock (rawSchema : bool)
  (resps : list (string * option ResponseObject)) : M string :=
  entries <- concatM (responseEntry rawSchema) resps ;;
  ret ("responses: {" ++ Js.nl ++ entries ++ "}" ++ Js.nl).

Definition transformOperation (rawSchema : bool) (comps : Components)
  (operation : OpenAPI3Operation) : M string :=
  params <- match op_parameters operation with
            | Some ps => transformParameters rawSchema comps ps
            | None => ret EmptyString
            end ;;
  body <- match requestBody operation with
          | Some rb =>
              fields <- contentFields rawSchema
                          (match rb_content rb with Some c => c | None => [] end) ;;
              ret ("requestBody: {" ++ Js.nl ++ fields ++ "}" ++ Js.nl)
          | None => ret EmptyString
          end ;;
  resps <- responsesBlock rawSchema (responses operation) ;;
  ret ("{" ++ Js.nl ++ params ++ body ++ resps ++ "}" ++ Js.nl).

(** *** [transformPaths] *)

Definition methods : list string :=
  ["get"; "put"; "post"; "delete"; "options"; "head"; "patch"; "trace"].

Definition isMethod (field : string) : bool := existsb (String.eqb field) methods.

(** [`"${field}": operations["${id}"];\n`] *)
Definition operationReference (field id : string) : string :=
  Js.quoted field ++ ": operations[" ++ Js.quoted id ++ "];" ++ Js.nl.

(** The body of [Object.entries(pathItem).forEach]. *)
Definition pathField (rawSchema : bool) (comps : Components)
  (entry : string * OpenAPI3Operation) : M string :=
  let (field, operation) := entry in
  if isMethod field then
    match Js.truthy (operationId operation) with
    | Some id => _ <- setOperation id operation ;; ret (operationReference field id)
    | None =>
        t <- transformOperation rawSchema comps operation ;;
        ret (commentOf (op_description operation) ++ Js.quoted field ++ ": " ++ t)
    end
  else ret EmptyString.

(** The body of [Object.entries(paths).forEach]. *)
Definition pathEntry (rawSchema : bool) (comps : Components)
  (entry : string * PathItem) : M string :=
  let (path, pathItem) := entry in
  fields <- concatM (pathField rawSchema comps) (pi_fields pathItem) ;;
  shared <- match pi_parameters pathItem with
            | Some ps => transformParameters rawSchema comps ps
            | None => ret EmptyString
            end ;;
  ret (Js.quoted path ++ ": {" ++ Js.nl ++ fields ++ shared ++ "}" ++ Js.nl).

Definition transformPaths (rawSchema : bool) (comps : Components)
  (paths : OpenAPI3Paths) : M string :=
  concatM (pathEntry rawSchema comps) paths.

(** *** [createExternalFileMapping] *)

(** [xs.map((x, index) => f(x, index))] *)
Fixpoint mapi {A B} (f : A -> nat -> B) (index : nat) (l : list A) : list B :=
  match l with
  | [] => []
  | x :: rest => f x index :: mapi f (S index) rest
  end.

Definition importLine (fileKey : string) (index : nat) : string :=
  "import { schemas as external$" ++ Js.ofNat index ++ " } from " ++ Js.dq ++ "./"
  ++ fileKey ++ Js.dq.

Definition mappingLine (fileKey : string) (index : nat) : string :=
  Js.dq ++ fileKey ++ Js.dq ++ ": external$" ++ Js.ofNat index.

Definition externalFileMapping (keys : StrSet.t) : string :=
  match keys with
  | [] => EmptyString
  | _ :: _ =>
      Js.join Js.nl (mapi importLine 0 keys) ++ Js.nl ++ Js.nl
      ++ Js.join Js.nl
           (["export type external = {"] ++ mapi mappingLine 0 keys ++ ["}"])%list
      ++ Js.nl ++ Js.nl
  end.

Definition createExternalFileMapping : M string :=
  fun st => (Ok (externalFileMapping (externalFileKeys st)), st).

(** *** [generateTypesV3] *)

(** A component parameter and a component response as [createKeys] reads
    them: their [description], [nullable] and [schema] members, and the
    object itself when it has no [schema]. *)
Definition parameterAsNode (p : ParameterObject) : SchemaObject :=
  match p with
  | RefParameter r =>
      mkSchema (Some r) None None None None None None None None None None None None
  | InlineParameter q =>
      mkSchema None None None None None None None None None None
               (p_description q) None (Some (p_schema q))
  end.

Definition responseAsNode (r : ResponseObject) : SchemaObject :=
  mkSchema None None None None None None None None None None
           (r_description r) None None.

Definition asNodes {A} (f : A -> SchemaObject) (o : list (string * A))
  : list (string * SchemaObject) :=
  map (fun entry => (fst entry, f (snd entry))) o.

(** [Object.keys(o)] *)
Definition keys {A} (o : list (string * A)) : list string := map fst o.

(** [const { rawSchema = false } = options || {}] *)
Definition rawSchemaOf (options : option (SwaggerToTSOptions Mapper)) : bool :=
  match options with
  | Some o => match rawSchema o with Some b => b | None => false end
  | None => false
  end.

(** [components], after the default and the raw-schema rebinding. *)
Definition componentsOf (raw : bool) (input : Input) : Components :=
  if raw
  then {| schemas := asSchemas input; c_parameters := None; c_responses := None |}
  else match components (asDocument input) with
       | Some c => c
       | None => {| schemas := []; c_parameters := None; c_responses := None |}
       end.

Definition pathsOf (input : Input) : OpenAPI3Paths :=
  match paths (asDocument input) with
  | Some p => p
  | None => []
  end.

Definition propertyMappedOf (options : option (SwaggerToTSOptions Mapper))
  (comps : Components) : OpenAPI3Schemas :=
  match options with
  | Some o => propertyMapper (schemas comps) (opt_propertyMapper o)
  | None => schemas comps
  end.

(** The [schemas] declaration of raw-schema mode, around the fields. *)
Definition schemasInterface (fields : string) : string :=
  "export interface schemas {" ++ Js.nl ++ "  " ++ fields ++ Js.nl ++ "}".

(** One entry of the operations block. *)
Definition operationEntry (raw : bool) (comps : Components)
  (entry : string * OpenAPI3Operation) : M string :=
  let (id, operation) := entry in
  t <- transformOperation raw comps operation ;;
  ret (commentOf (op_description operation) ++ Js.quoted id ++ ": " ++ t).

(** A block of [components] that is emitted when its map is there and not
    empty. *)
Definition componentBlock (raw : bool) (opening closing : string)
  (o : list (string * SchemaObject)) : M string :=
  match o with
  | [] => ret EmptyString
  | _ :: _ =>
      fields <- createKeys raw o (Some (keys o)) ;;
      ret (opening ++ fields ++ closing)
  end.

(** The part of [generateTypesV3] after the check of the document. *)
Definition assemble (raw : bool) (options : option (SwaggerToTSOptions Mapper))
  (input : Input) : M string :=
  let comps := componentsOf raw input in
  let propertyMapped := propertyMappedOf options comps in
  if raw then
    fields <- createKeys raw propertyMapped (Some (keys propertyMapped)) ;;
    ret (schemasInterface fields)
  else
    pathsBlock <-
      match pathsOf input with
      | [] => ret EmptyString
      | _ :: _ =>
          t <- transformPaths raw comps (pathsOf input) ;;
          ret ("export interface paths {" ++ Js.nl ++ "  " ++ t ++ Js.nl ++ "}"
               ++ Js.nl ++ Js.nl)
      end ;;
    table <- (fun st => (Ok (Obj.entries (operations st)), st)) ;;
    ops <- concatM (operationEntry raw comps) table ;;
    params <- componentBlock raw
                (Js.nl ++ "parameters: {" ++ Js.nl ++ "  ") (Js.nl ++ "}" ++ Js.nl)
                (match c_parameters comps with
                 | Some o => asNodes parameterAsNode o
                 | None => []
                 end) ;;
    schemasBlock <- componentBlock raw
                      ("schemas: {" ++ Js.nl ++ "  ") (Js.nl ++ "}") propertyMapped ;;
    resps <- componentBlock raw
               (Js.nl ++ "responses: {" ++ Js.nl ++ "  ") (Js.nl ++ "}")
               (match c_responses comps with
                | Some o => asNodes responseAsNode o
                | None => []
                end) ;;
    imports <- createExternalFileMapping ;;
    ret (imports
         ++ pathsBlock
         ++ "export interface operations {" ++ Js.nl ++ ops ++ Js.nl ++ "}"
         ++ Js.nl ++ Js.nl
         ++ "export interface components {" ++ Js.nl
         ++ params ++ schemasBlock ++ resps
         ++ Js.nl ++ "}").

(** [!input.components && !input.paths] *)
Definition lacksBoth (input : Input) : bool :=
  match components (asDocument input), paths (asDocument input) with
  | None, None => true
  | _, _ => false
  end.

(** The whole body, run on the state of a call. *)
Definition generate (input : Input) (options : option (SwaggerToTSOptions Mapper))
  : M string :=
  let raw := rawSchemaOf options in
  if negb raw && lacksBoth input
  then throw InvalidDocumentShape
  else assemble raw options input.

(** The state at the start of a call: the caller's document, an empty
    [operations] object and an empty [externalFileKeys] set. *)
Definition initialState (input : Input) : State :=
  {| st_input := input; operations := []; externalFileKeys := StrSet.empty |}.

(** [generateTypesV3(input, options)]: what is returned or thrown. *)
Definition generateTypesV3 (input : Input) (options : option (SwaggerToTSOptions Mapper))
  : Res string :=
  fst (generate input options (initialState input)).

(** The state when the call ends. *)
Definition finalState (input : Input) (options : option (SwaggerToTSOptions Mapper))
  : State :=
  snd (generate input options (initialState input)).

(** ** Definitions used to state the properties *)

(** *** Reference resolution *)

(** The path expression of a reference, as a function of the reference
    and the root prefix. *)
Definition refPath (ref root : string) : string :=
  if isExternalRef ref then externalPath ref else transformRef ref root.

(** The keys left by resolving a reference. *)
Definition keysAfter (ref : string) (keys : StrSet.t) : StrSet.t :=
  if isExternalRef ref then StrSet.add (fileKeyOf ref) keys else keys.

(** Resolving the references of a list, one after the other. *)
Fixpoint resolveAll (refs : list string) (root : string) (st : State) : State :=
  match refs with
  | [] => st
  | r :: rest => resolveAll rest root (snd (transformRefType r root st))
  end.

(** *** Induction on schema nodes

    A node holds its sub-nodes inside options, lists and pairs; the
    principle gives the property for every sub-node that [transform]
    visits. *)

Section SchemaInduction.

Variable P : SchemaObject -> Prop.

Definition optAll {A} (Q : A -> Prop) (o : option A) : Prop :=
  match o with
  | Some a => Q a
  | None => True
  end.

Definition itemsAll (i : Items SchemaObject) : Prop :=
  match i with
  | SingleItem a => P a
  | TupleItems l => Forall P l
  end.

Definition additionalAll (a : Additional SchemaObject) : Prop :=
  match a with
  | AnyAdditional => True
  | AdditionalSchema s => P s
  end.

Definition entryAll (entry : string * SchemaObject) : Prop := P (snd entry).

Hypothesis step : forall node,
  optAll (Forall P) (oneOf node) ->
  optAll (Forall P) (anyOf node) ->
  optAll (Forall P) (allOf node) ->
  optAll (Forall entryAll) (properties node) ->
  optAll additionalAll (additionalProperties node) ->
  optAll itemsAll (items node) ->
  optAll P (schema node) ->
  P node.

Fixpoint SchemaObject_nested_ind (node : SchemaObject) : P node :=
  let all :=
    fix all (l : list SchemaObject) : Forall P l :=
      match l with
      | [] => Forall_nil P
      | x :: rest => Forall_cons x (SchemaObject_nested_ind x) (all rest)
      end in
  let entries :=
    fix entries (l : list (string * SchemaObject)) : Forall entryAll l :=
      match l with
      | [] => Forall_nil entryAll
      | (k, v) :: rest =>
          Forall_cons (P := entryAll) (k, v) (SchemaObject_nested_ind v) (entries rest)
      end in
  match node with
  | mkSchema r t e one any al props req addl its d n sc =>
      step (mkSchema r t e one any al props req addl its d n sc)
        (match one as o return optAll (Forall P) o with
         | Some l => all l
         | None => I
         end)
        (match any as o return optAll (Forall P) o with
         | Some l => all l
         | None => I
         end)
        (match al as o return optAll (Forall P) o with
         | Some l => all l
         | None => I
         end)
        (match props as o return optAll (Forall entryAll) o with
         | Some l => entries l
         | None => I
         end)
        (match addl as o return optAll additionalAll o with
         | Some AnyAdditional => I
         | Some (AdditionalSchema s) => SchemaObject_nested_ind s
         | None => I
         end)
        (match its as o return optAll itemsAll o with
         | Some (SingleItem a) => SchemaObject_nested_ind a
         | Some (TupleItems l) => all l
         | None => I
         end)
        (match sc as o return optAll P o with
         | Some s => SchemaObject_nested_ind s
         | None => I
         end)
  end.

End SchemaInduction.

(** *** String literals of the generated language

    A single-quoted string literal: an opening quote, then characters up
    to the first quote that no backslash escapes, which has to be the last
    character; a backslash takes the character after it along, and a line
    terminator outside an escape ends the line before the literal is
    closed. *)

Definition isLineTerminator (c : ascii) : bool :=
  (nat_of_ascii c =? 10)%nat || (nat_of_ascii c =? 13)%nat.

Fixpoint closesAtEnd (s : string) : bool :=
  match s with
  | EmptyString => false
  | String c rest =>
      if Ascii.eqb c Js.quote then String.eqb rest EmptyString
      else if Ascii.eqb c Js.backslash
           then match rest with
                | EmptyString => false
                | String _ rest' => closesAtEnd rest'
                end
           else if isLineTerminator c then false
                else closesAtEnd rest
  end.

Definition isStringLiteral (s : string) : bool :=
  match s with
  | EmptyString => false
  | String c rest => Ascii.eqb c Js.quote && closesAtEnd rest
  end.

(** A string with no backslash and no line terminator in it. *)
Fixpoint plainText (s : string) : bool :=
  match s with
  | EmptyString => true
  | String c rest =>
      negb (Ascii.eqb c Js.backslash) && negb (isLineTerminator c) && plainText rest
  end.

(** [c] occurs in [s]. *)
Fixpoint occurs (c : ascii) (s : string) : bool :=
  match s with
  | EmptyString => false
  | String c' rest => Ascii.eqb c c' || occurs c rest
  end.

(** *** What a computation leaves of the state

    [respects R c]: from every state, [c] ends in a state related to it by
    [R], and what it throws, if anything, is not the error of the document
    check. *)

Definition respects {A} (R : State -> State -> Prop) (c : M A) : Prop :=
  forall st, R st (snd (c st)) /\ fst (c st) <> Throw InvalidDocumentShape.

(** The caller's document and the operations table are as they were. *)
Definition sameDocumentAndTable (st st' : State) : Prop :=
  st_input st' = st_input st /\ operations st' = operations st.

(** The caller's document is as it was. *)
Definition sameDocument (st st' : State) : Prop :=
  st_input st' = st_input st.

(** [c] returns [a], in every state. *)
Definition yields {A} (c : M A) (a : A) : Prop :=
  forall st, fst (c st) = Ok a.

(** A run of [f] on [x], from some state, returned [y]. *)
Definition ranTo {A B} (f : A -> M B) (x : A) (y : B) : Prop :=
  exists st st', f x st = (Ok y, st').

(** *** Texts of the declarations *)

(** The comment of a description that is there and is not empty. *)
Definition described (d : option string) : string :=
  match d with
  | Some text => if String.eqb text EmptyString then EmptyString else comment text
  | None => EmptyString
  end.

(** The field of a declaration block for the key and the value of
    [entry]: the comment of the value, the quoted key and the mark, then
    the type [t], between parentheses and with [| null] for a nullable
    value. *)
Definition fieldText (mark : string) (entry : string * SchemaObject) (t : string)
  : string :=
  described (description (snd entry))
  ++ Js.quoted (fst entry) ++ mark ++ ": "
  ++ match nullable (snd entry) with
     | Some true => "(" ++ t ++ ") | null"
     | _ => t
     end
  ++ ";" ++ Js.nl.

(** The fields of the entries of [obj], each around its type from [ts],
    with the mark that [mark] gives for its key. *)
Definition fieldsWith (mark : string -> string) (obj : list (string * SchemaObject))
  (ts : list string) : list string :=
  map (fun et : (string * SchemaObject) * string =>
         fieldText (mark (fst (fst et))) (fst et) (snd et))
      (combine obj ts).

(** The fields of [obj] with no optionality mark. *)
Definition requiredFields (obj : list (string * SchemaObject)) (ts : list string)
  : list string :=
  fieldsWith (fun _ => EmptyString) obj ts.

(** [ts] holds, in order, the type [transform] gives for the value of each
    entry of [obj]. *)
Definition typesOf (raw : bool) (obj : list (string * SchemaObject)) (ts : list string)
  : Prop :=
  Forall2 (fun (entry : string * SchemaObject) t =>
             yields (transform raw (valueSchema (snd entry))) t)
          obj ts.

(** *** Responses *)



(** A status key written as a decimal numeral: digits only, at least one
    and at most fifteen of them. *)
Definition numericKey (key : string) : bool :=
  Js.allDigits key
  && negb (String.eqb key EmptyString)
  && (String.length key <=? 15)%nat.



(** The number that a status key is, [Number(key)]. *)
Definition statusNumber (key : string) : Js.number := Js.Number engineNumber key.

(** A number that is a status without a body: 204, or from 300 up to,
    and not, 400. *)
Definition isStatus204or3xx (x : Js.number) : bool :=
  match x with
  | Js.Finite num den =>
      (num =? 204 * Z.pos den)%Z
      || ((300 * Z.pos den <=? num)%Z && (num <? 400 * Z.pos den)%Z)
  | _ => false
  end.

(** A status key as it is emitted: the number that the key is, as
    [String] writes it, when there is such a number and it is not zero;
    the key itself otherwise. *)
Definition emittedStatus (key : string) : string :=
  match statusNumber key with
  | Js.NaN => key
  | Js.Infinity negative => engineString (Js.Infinity negative)
  | Js.Finite num den =>
      if (num =? 0)%Z then key else Js.numberText engineString (Js.Finite num den)
  end.

(** The type of a response with no content under a status key. *)
Definition emptyBody (key : string) : string :=
  if isStatus204or3xx (statusNumber key) then "never" else "unknown".

(** The fields of a content map, each around its type from [ts]. *)
Definition contentTexts (content : list (string * MediaType)) (ts : list string)
  : list string :=
  map (fun et : (string * MediaType) * string =>
         Js.quoted (fst (fst et)) ++ ": " ++ snd et ++ ";" ++ Js.nl)
      (combine content ts).

(** [ts] holds, in order, the type [transform] gives for the schema of
    each entry of a content map. *)
Definition contentTypes (raw : bool) (content : list (string * MediaType))
  (ts : list string) : Prop :=
  Forall2 (fun (entry : string * MediaType) t =>
             yields (transform raw (m_schema (snd entry))) t)
          content ts.

(** The list of an optional array member. *)
Definition orEmpty {A} (o : option (list A)) : list A :=
  match o with
  | Some l => l
  | None => []
  end.

(** [text] is the entry of the responses block for a key and a response:
    the comment of the response and the status, then the type of an empty
    body, or the record of the content types. *)
Definition responseText (raw : bool) (key : string) (r : ResponseObject) (text : string)
  : Prop :=
  exists rest,
    text = described (r_description r) ++ emittedStatus key ++ ": " ++ rest
    /\ match r_content r with
       | Some (c :: cs) =>
           exists ts, contentTypes raw (c :: cs) ts
                      /\ rest = "{" ++ Js.nl ++ Js.concat (contentTexts (c :: cs) ts)
                                ++ "}" ++ Js.nl
       | _ => rest = emptyBody key ++ ";" ++ Js.nl
       end.




(** *** Parameters *)

(** The location and name under which [transformParameters] files a
    parameter: its own, or those of what it refers to; [None] when
    reading them throws. *)
Definition locationAndName (input : Input) (p : ParameterObject)
  : option (option ParameterLocation * string) :=
  match p with
  | InlineParameter q => Some (Some (in_ q), name q)
  | RefParameter r =>
      match referencedValue input r with
      | Ok (loc, n) => Some (loc, nameKey n)
      | Throw _ => None
      end
  end.

(** What is filed for a parameter. *)
Definition contentOf (p : ParameterObject) : ParamProps :=
  match p with
  | InlineParameter q => Props q
  | RefParameter r => RefText (transformRef r EmptyString)
  end.

Definition sameLocation (a b : option ParameterLocation) : bool :=
  match a, b with
  | None, None => true
  | Some InQuery, Some InQuery => true
  | Some InHeader, Some InHeader => true
  | Some InPath, Some InPath => true
  | Some InCookie, Some InCookie => true
  | _, _ => false
  end.

Definition samePair (a b : option ParameterLocation * string) : bool :=
  sameLocation (fst a) (fst b) && String.eqb (snd a) (snd b).

(** The content of the last parameter of the list with the location and
    name [key], or [found] when there is none. *)
Fixpoint lastContent (input : Input) (key : option ParameterLocation * string)
  (parameters : list ParameterObject) (found : option ParamProps) : option ParamProps :=
  match parameters with
  | [] => found
  | p :: rest =>
      match locationAndName input p with
      | Some key' =>
          lastContent input key rest
            (if samePair key key' then Some (contentOf p) else found)
      | None => lastContent input key rest found
      end
  end.

(** The table after the parameters of a list that all resolve. *)
Fixpoint grouped (input : Input) (all : AllParameters)
  (parameters : list ParameterObject) : AllParameters :=
  match parameters with
  | [] => all
  | p :: rest =>
      match locationAndName input p with
      | Some (loc, name) => grouped input (setParameter loc name (contentOf p) all) rest
      | None => all
      end
  end.

(** [all[loc][name]] *)
Definition lookupParameter (key : option ParameterLocation * string) (all : AllParameters)
  : option ParamProps :=
  match Obj.get (locationKey (fst key)) all with
  | Some group => Obj.get (snd key) group
  | None => None
  end.

(** No location is listed twice, and no name twice under a location. *)
Definition wellGrouped (all : AllParameters) : Prop :=
  NoDup (keys all) /\ Forall (fun entry => NoDup (keys (snd entry))) all.

(** The keys of the locations of a list of parameters, each once, in the
    order in which they are first met. *)
Definition locationsInOrder (input : Input) (parameters : list ParameterObject)
  : list string :=
  fold_left (fun seen p =>
               match locationAndName input p with
               | Some (loc, _) => StrSet.add (locationKey loc) seen
               | None => seen
               end)
            parameters [].

(** [text] is the field of a parameters record for a name and what is
    filed under it: for a parameter, its comment, the quoted name, [?]
    unless it is required, and a type that [transform] gives for its
    schema; for a reference, the quoted name, with or without [?], and
    the text of the reference, with no semicolon. *)
Definition parameterText (raw : bool) (entry : string * ParamProps) (text : string)
  : Prop :=
  match snd entry with
  | Props q =>
      exists t st,
        fst (transform raw (p_schema q) st) = Ok t
        /\ text = described (p_description q)
                  ++ Js.quoted (fst entry)
                  ++ match p_required q with Some true => EmptyString | _ => "?" end
                  ++ ": " ++ t ++ ";" ++ Js.nl
  | RefText r =>
      text = Js.quoted (fst entry) ++ ": " ++ r ++ Js.nl
      \/ text = Js.quoted (fst entry) ++ "?: " ++ r ++ Js.nl
  end.

(** [text] is the record of a location: its quoted key, and between
    braces the fields of [entries], in order. *)
Definition recordText (raw : bool) (loc : string) (entries : list (string * ParamProps))
  (text : string) : Prop :=
  exists fields,
    Forall2 (parameterText raw) entries fields
    /\ text = Js.quoted loc ++ ": {" ++ Js.nl ++ Js.concat fields ++ "}" ++ Js.nl.

(** *** Operations *)

(** The members of the path items that [transformPaths] treats as
    operations, in the order of the traversal. *)
Definition sites (ps : OpenAPI3Paths) : list (string * OpenAPI3Operation) :=
  flat_map (fun entry : string * PathItem =>
              filter (fun site : string * OpenAPI3Operation => isMethod (fst site))
                     (pi_fields (snd entry)))
           ps.

(** What a site does to the operations table. *)
Definition register (site : string * OpenAPI3Operation)
  (table : Obj.t OpenAPI3Operation) : Obj.t OpenAPI3Operation :=
  if isMethod (fst site)
  then match Js.truthy (operationId (snd site)) with
       | Some id => Obj.set id (snd site) table
       | None => table
       end
  else table.

Definition registerAll (l : list (string * OpenAPI3Operation))
  (table : Obj.t OpenAPI3Operation) : Obj.t OpenAPI3Operation :=
  fold_left (fun t site => register site t) l table.

(** The operation of the last site of the list with the identifier [id],
    or [found] when there is none; and the one of the first. *)
Fixpoint lastOperation (id : string) (l : list (string * OpenAPI3Operation))
  (found : option OpenAPI3Operation) : option OpenAPI3Operation :=
  match l with
  | [] => found
  | site :: rest =>
      lastOperation id rest
        (match Js.truthy (operationId (snd site)) with
         | Some id' => if String.eqb id id' then Some (snd site) else found
         | None => found
         end)
  end.

Fixpoint firstOperation (id : string) (l : list (string * OpenAPI3Operation))
  : option OpenAPI3Operation :=
  match l with
  | [] => None
  | site :: rest =>
      match Js.truthy (operationId (snd site)) with
      | Some id' => if String.eqb id id' then Some (snd site) else firstOperation id rest
      | None => firstOperation id rest
      end
  end.

(** [text] is what the paths block shows for a member of a path item:
    nothing when no HTTP method names it, a reference by name into the
    operations block when the operation has an identifier, and otherwise
    the comment of the operation, the quoted method and a text that
    [transformOperation] gives for it. *)
Definition siteText (raw : bool) (comps : Components) (site : string * OpenAPI3Operation)
  (text : string) : Prop :=
  if isMethod (fst site)
  then match Js.truthy (operationId (snd site)) with
       | Some id =>
           text = Js.quoted (fst site) ++ ": operations[" ++ Js.quoted id ++ "];" ++ Js.nl
       | None =>
           exists t st,
             fst (transformOperation raw comps (snd site) st) = Ok t
             /\ text = described (op_description (snd site))
                       ++ Js.quoted (fst site) ++ ": " ++ t
       end
  else text = EmptyString.

(** [text] is the entry of the paths block for a path: the quoted path,
    and between braces what its members show, in order, then the shared
    parameters, when there are any. *)
Definition pathText (raw : bool) (comps : Components) (entry : string * PathItem)
  (text : string) : Prop :=
  exists fields shared,
    Forall2 (siteText raw comps) (pi_fields (snd entry)) fields
    /\ match pi_parameters (snd entry) with
       | Some ps => exists st, fst (transformParameters raw comps ps st) = Ok shared
       | None => shared = EmptyString
       end
    /\ text = Js.quoted (fst entry) ++ ": {" ++ Js.nl ++ Js.concat fields ++ shared
              ++ "}" ++ Js.nl.

(** [text] is the entry of the operations block for an identifier and an
    operation: the comment of the operation, the quoted identifier and a
    text that [transformOperation] gives for the operation. *)
Definition operationText (raw : bool) (comps : Components)
  (entry : string * OpenAPI3Operation) (text : string) : Prop :=
  exists t st,
    fst (transformOperation raw comps (snd entry) st) = Ok t
    /\ text = described (op_description (snd entry)) ++ Js.quoted (fst entry) ++ ": " ++ t.

(** The import text for a list of document keys: nothing for no key;
    otherwise one import line for each key, an empty line, the type
    [external] with one line for each key, and an empty line; the key at
    position [i] is bound to the alias [external$i] in both. *)
Definition importText (fileKeys : list string) : string :=
  match fileKeys with
  | [] => EmptyString
  | _ :: _ =>
      Js.join Js.nl
        (mapi (fun k i => "import { schemas as external$" ++ Js.ofNat i
                          ++ " } from " ++ Js.dq ++ "./" ++ k ++ Js.dq)
              0 fileKeys)
      ++ Js.nl ++ Js.nl
      ++ Js.join Js.nl
           ("export type external = {"
            :: mapi (fun k i =>
                       (Js.dq ++ k ++ Js.dq ++ ": external$" ++ Js.ofNat i)%string)
                    0 fileKeys
            ++ ["}"])%list
      ++ Js.nl ++ Js.nl
  end.

(** [text] is made of the declarations of non-raw mode: the imports, the
    paths block over [pathTexts] when the document has a path, the
    operations block over [operationTexts], and the components block. *)
Definition declarations (input : Input) (imports : string)
  (pathTexts operationTexts : list string) (text : string) : Prop :=
  exists componentsText,
    text = imports
           ++ match pathsOf input with
              | [] => EmptyString
              | _ :: _ =>
                  "export interface paths {" ++ Js.nl ++ "  " ++ Js.concat pathTexts
                  ++ Js.nl ++ "}" ++ Js.nl ++ Js.nl
              end
           ++ "export interface operations {" ++ Js.nl ++ Js.concat operationTexts
           ++ Js.nl ++ "}" ++ Js.nl ++ Js.nl
           ++ "export interface components {" ++ Js.nl ++ componentsText ++ Js.nl ++ "}".
(** ** Definitions used to state further properties *)

(** *** Strings without a separator *)

(** No [/] in the string. *)
Definition slashFree (s : string) : bool := negb (occurs "/"%char s).

(** No occurrence of [#/] in the string. *)
Fixpoint sepFree (s : string) : bool :=
  match s with
  | EmptyString => true
  | String _ rest => negb (Js.startsWith "#/" s) && sepFree rest
  end.

(** The state with one more external document key. *)
Definition withFileKey (k : string) (st : State) : State :=
  {| st_input := st_input st;
     operations := operations st;
     externalFileKeys := StrSet.add k (externalFileKeys st) |}.

(** *** Object nodes *)

(** [texts] is what the object case of [transform] makes of
    [additionalProperties]: nothing when the member is falsy, the open map
    of [any] when it is [true], and the open map of the type of its schema
    otherwise, with [any] in the place of an empty type. *)
Definition additionalTexts (raw : bool) (ap : option (Additional SchemaObject))
  (texts : list string) : Prop :=
  match ap with
  | None => texts = []
  | Some AnyAdditional => texts = ["{ [key: string]: any;}" ++ Js.nl]
  | Some (AdditionalSchema a) =>
      exists t, yields (transform raw a) t
                /\ texts = ["{ [key: string]: "
                            ++ (if String.eqb t EmptyString then "any" else t)
                            ++ ";}" ++ Js.nl]
  end.

(** The record of the declared properties, when there is any field. *)
Definition fieldsRecord (fields : string) : list string :=
  if String.eqb fields EmptyString then [] else ["{ " ++ fields ++ " }"].

(** *** Path items and operations *)

(** The path item with other members. *)
Definition withFields (item : PathItem) (fields : list (string * OpenAPI3Operation))
  : PathItem :=
  {| pi_fields := fields; pi_parameters := pi_parameters item |}.

(** The path item without the members, other than [parameters], that no
    HTTP method names. *)
Definition methodsOnly (entry : string * PathItem) : string * PathItem :=
  (fst entry,
   withFields (snd entry)
     (filter (fun site : string * OpenAPI3Operation => isMethod (fst site))
             (pi_fields (snd entry)))).

(** The operation with another [operationId]. *)
Definition withOperationId (operation : OpenAPI3Operation) (id : option string)
  : OpenAPI3Operation :=
  {| operationId := id;
     op_description := op_description operation;
     op_parameters := op_parameters operation;
     requestBody := requestBody operation;
     responses := responses operation |}.

(** The identifiers of a list of sites other than [__proto__], each
    once, in the order in which they are first met. *)
Definition identifiersInOrder (l : list (string * OpenAPI3Operation)) : list string :=
  fold_left (fun seen site =>
               match Js.truthy (operationId (snd site)) with
               | Some id => if String.eqb id "__proto__" then seen else StrSet.add id seen
               | None => seen
               end)
            l [].

(** *** Parameters of the components *)

(** [input.components.parameters[n]], when all three are there. *)
Definition componentParameter (input : Input) (n : string) : option ParameterObject :=
  match components (asDocument input) with
  | Some c =>
      match c_parameters c with
      | Some ps => Obj.get n ps
      | None => None
      end
  | None => None
  end.

(** An optional map with no entry. *)
Definition noEntries {A} (o : option (list (string * A))) : Prop :=
  o = None \/ o = Some [].

(** *** Further sample documents *)

(** [{ oneOf: [{ type: "string" }, { type: "integer" }] }] *)
Definition stringOrNumber : SchemaObject :=
  mkSchema None None None (Some [Examples.stringNode; Examples.numberNode])
           None None None None None None None None None.

(** The [Pet] object with [additionalProperties: {}]. *)
Definition openPet : SchemaObject :=
  mkSchema None (Some "object") None None None None
           (Some [("id", Examples.numberNode); ("name", Examples.stringNode)])
           (Some ["id"]) (Some (AdditionalSchema emptyNode)) None None None None.

(** [{ type: "object", nullable: true, description: "anything" }] *)
Definition bareObject : SchemaObject :=
  mkSchema None (Some "object") None None None None None None None None
           (Some "anything") (Some true) None.

(** [{ $ref: "#/components/schemas/Pet" }] *)
Definition petReference : SchemaObject :=
  mkSchema (Some "#/components/schemas/Pet") None None None None None None None
           None None None None None.

(** An operation with [operationId: ""]. *)
Definition unnamedOperation : OpenAPI3Operation :=
  {| operationId := Some EmptyString;
     op_description := None;
     op_parameters := None;
     requestBody := None;
     responses := [] |}.

Definition addPet : OpenAPI3Operation := Examples.operationNamed "addPet" "add".

(** [listPets] on two paths, [addPet] between them, and a [summary]
    member. *)
Definition zooPaths : OpenAPI3Paths :=
  [("/pets", {| pi_fields := [("get", Examples.firstListPets);
                              ("summary", unnamedOperation);
                              ("post", addPet)];
                pi_parameters := None |});
   ("/animals", {| pi_fields := [("get", Examples.secondListPets)];
                   pi_parameters := None |})].

Definition zooDocument : Input :=
  {| asDocument := {| paths := Some zooPaths; components := None |};
     asSchemas := [] |}.

(** The text of the declarations of [zooDocument]. *)
Definition zooText : string :=
  "export interface paths {" ++ Js.nl ++ "  "
  ++ Js.quoted "/pets" ++ ": {" ++ Js.nl
  ++ Js.quoted "get" ++ ": operations[" ++ Js.quoted "listPets" ++ "];" ++ Js.nl
  ++ Js.quoted "post" ++ ": operations[" ++ Js.quoted "addPet" ++ "];" ++ Js.nl
  ++ "}" ++ Js.nl
  ++ Js.quoted "/animals" ++ ": {" ++ Js.nl
  ++ Js.quoted "get" ++ ": operations[" ++ Js.quoted "listPets" ++ "];" ++ Js.nl
  ++ "}" ++ Js.nl
  ++ Js.nl ++ "}" ++ Js.nl ++ Js.nl
  ++ "export interface operations {" ++ Js.nl
  ++ Utils.comment "second"
  ++ Js.quoted "listPets" ++ ": {" ++ Js.nl
  ++ "responses: {" ++ Js.nl ++ "}" ++ Js.nl ++ "}" ++ Js.nl
  ++ Utils.comment "add"
  ++ Js.quoted "addPet" ++ ": {" ++ Js.nl
  ++ "responses: {" ++ Js.nl ++ "}" ++ Js.nl ++ "}" ++ Js.nl
  ++ Js.nl ++ "}" ++ Js.nl ++ Js.nl
  ++ "export interface components {" ++ Js.nl ++ Js.nl ++ "}".

(** The text of the declarations of [Examples.petsDocument]. *)
Definition petsText : string :=
  "export interface paths {" ++ Js.nl ++ "  "
  ++ Js.quoted "/pets" ++ ": {" ++ Js.nl
  ++ Js.quoted "get" ++ ": operations[" ++ Js.quoted "listPets" ++ "];" ++ Js.nl
  ++ "}" ++ Js.nl
  ++ Js.quoted "/animals" ++ ": {" ++ Js.nl
  ++ Js.quoted "get" ++ ": operations[" ++ Js.quoted "listPets" ++ "];" ++ Js.nl
  ++ "}" ++ Js.nl
  ++ Js.nl ++ "}" ++ Js.nl ++ Js.nl
  ++ "export interface operations {" ++ Js.nl
  ++ Utils.comment "second"
  ++ Js.quoted "listPets" ++ ": {" ++ Js.nl
  ++ "responses: {" ++ Js.nl ++ "}" ++ Js.nl ++ "}" ++ Js.nl
  ++ Js.nl ++ "}" ++ Js.nl ++ Js.nl
  ++ "export interface components {" ++ Js.nl ++ Js.nl ++ "}".

(** A document with an empty [paths] and nothing else. *)
Definition emptyPaths : Input :=
  {| asDocument := {| paths := Some []; components := None |}; asSchemas := [] |}.

Definition headerTrace : OpenAPI3Parameter :=
  {| name := "trace"; in_ := InHeader; p_required := Some true;
     p_description := None; p_schema := Examples.stringNode |}.

(** Parameters in the query, in a header and in the query again. *)
Definition mixedParameters : list ParameterObject :=
  [InlineParameter (Examples.queryId Examples.stringNode);
   InlineParameter headerTrace;
   InlineParameter (Examples.queryId Examples.numberNode)].

(** A list with a reference to a component parameter [limit]. *)
Definition withLimit : list ParameterObject :=
  [InlineParameter (Examples.queryId Examples.stringNode);
   RefParameter "#/components/parameters/limit"].

(** A 204 response that declares a JSON body. *)
Definition jsonContent : list (string * MediaType) :=
  [("application/json", {| m_schema := Examples.stringNode |})].

Definition noContentWithBody : ResponseObject :=
  {| r_description := None; r_content := Some jsonContent |}.

(** Two parameters named [__proto__] in the query. *)
Definition protoParameter (s : SchemaObject) : OpenAPI3Parameter :=
  {| name := "__proto__"; in_ := InQuery; p_required := None; p_description := None;
     p_schema := s |}.

Definition twoProtos : list ParameterObject :=
  [InlineParameter (protoParameter Examples.stringNode);
   InlineParameter (protoParameter Examples.numberNode)].


(** The text of the parameters of [mixedParameters]. *)
Definition mixedText : string :=
  "parameters: {" ++ Js.nl
  ++ Js.quoted "query" ++ ": {" ++ Js.nl
  ++ Js.quoted "id" ++ "?: number;" ++ Js.nl
  ++ "}" ++ Js.nl
  ++ Js.quoted "header" ++ ": {" ++ Js.nl
  ++ Js.quoted "trace" ++ ": string;" ++ Js.nl
  ++ "}" ++ Js.nl
  ++ "}" ++ Js.nl.

(** [{ $ref: "other.json#/Widget" }] and [{ $ref: "more#/Gadget" }] *)
Definition widgetReference : SchemaObject :=
  mkSchema (Some "other.json#/Widget") None None None None None None None
           None None None None None.

Definition gadgetReference : SchemaObject :=
  mkSchema (Some "more#/Gadget") None None None None None None None
           None None None None None.

(** A document whose schemas refer to two other documents, the first of
    them twice. *)
Definition widgetDocument : Input :=
  {| asDocument :=
       {| paths := None;
          components := Some {| schemas := [("Widget", widgetReference);
                                            ("Gadget", gadgetReference);
                                            ("Again", widgetReference)];
                                c_parameters := None;
                                c_responses := None |} |};
     asSchemas := [] |}.

Definition widgetText : string :=
  "import { schemas as external$0 } from " ++ Js.quoted "./other" ++ Js.nl
  ++ "import { schemas as external$1 } from " ++ Js.quoted "./more" ++ Js.nl
  ++ Js.nl
  ++ "export type external = {" ++ Js.nl
  ++ Js.quoted "other" ++ ": external$0" ++ Js.nl
  ++ Js.quoted "more" ++ ": external$1" ++ Js.nl
  ++ "}" ++ Js.nl ++ Js.nl
  ++ "export interface operations {" ++ Js.nl ++ Js.nl ++ "}" ++ Js.nl ++ Js.nl
  ++ "export interface components {" ++ Js.nl
  ++ "schemas: {" ++ Js.nl ++ "  "
  ++ Js.quoted "Widget" ++ ": external[" ++ Js.quoted "other" ++ "]["
  ++ Js.quoted "Widget" ++ "];" ++ Js.nl
  ++ Js.quoted "Gadget" ++ ": external[" ++ Js.quoted "more" ++ "]["
  ++ Js.quoted "Gadget" ++ "];" ++ Js.nl
  ++ Js.quoted "Again" ++ ": external[" ++ Js.quoted "other" ++ "]["
  ++ Js.quoted "Widget" ++ "];" ++ Js.nl
  ++ Js.nl ++ "}" ++ Js.nl ++ "}".
(** ** Properties *)

(** *** The set of external document keys *)

Lemma append_assoc (a b c : string) : (a ++ b) ++ c = a ++ (b ++ c).
Proof. induction a as [| x a IH]; simpl; [reflexivity | now rewrite IH]. Qed.

Lemma append_nil_r (a : string) : a ++ EmptyString = a.
Proof. induction a as [| x a IH]; simpl; [reflexivity | now rewrite IH]. Qed.

Lemma StrSet_has_In (k : string) (s : StrSet.t) :
  StrSet.has k s = true <-> In k s.
Proof.
  unfold StrSet.has. rewrite existsb_exists. split.
  - intros [x [Hin Heq]]. apply String.eqb_eq in Heq. now subst.
  - intros Hin. exists k. split; [assumption | apply String.eqb_refl].
Qed.

Lemma StrSet_add_In (k : string) (s : StrSet.t) : In k (StrSet.add k s).
Proof.
  unfold StrSet.add. destruct (StrSet.has k s) eqn:Hhas.
  - now apply StrSet_has_In.
  - apply in_or_app. right. now left.
Qed.

Lemma StrSet_add_keeps (k x : string) (s : StrSet.t) :
  In x s -> In x (StrSet.add k s).
Proof.
  unfold StrSet.add. destruct (StrSet.has k s); [trivial | ].
  intros Hin. apply in_or_app. now left.
Qed.

Lemma StrSet_add_NoDup (k : string) (s : StrSet.t) :
  NoDup s -> NoDup (StrSet.add k s).
Proof.
  intros Hnd. unfold StrSet.add. destruct (StrSet.has k s) eqn:Hhas; [assumption | ].
  apply NoDup_app; [assumption | repeat constructor; intros [] | ].
  intros x Hin [Hx | []]. subst x.
  apply StrSet_has_In in Hin. congruence.
Qed.

(** *** Reference resolution *)

Lemma transformRefType_run (ref root : string) (st : State) :
  transformRefType ref root st
  = (Ok (refPath ref root),
     {| st_input := st_input st;
        operations := operations st;
        externalFileKeys := keysAfter ref (externalFileKeys st) |}).
Proof.
  unfold transformRefType, refPath, keysAfter.
  destruct (isExternalRef ref); [reflexivity | ].
  unfold ret. now destruct st.
Qed.

Lemma resolveAll_keeps (refs : list string) (root x : string) :
  forall st, In x (externalFileKeys st) ->
             In x (externalFileKeys (resolveAll refs root st)).
Proof.
  induction refs as [| r rest IH]; intros st Hin; simpl; [assumption | ].
  apply IH. rewrite transformRefType_run. simpl. unfold keysAfter.
  destruct (isExternalRef r); [now apply StrSet_add_keeps | assumption].
Qed.

Lemma resolveAll_NoDup (refs : list string) (root : string) :
  forall st, NoDup (externalFileKeys st) ->
             NoDup (externalFileKeys (resolveAll refs root st)).
Proof.
  induction refs as [| r rest IH]; intros st Hnd; simpl; [assumption | ].
  apply IH. rewrite transformRefType_run. simpl. unfold keysAfter.
  destruct (isExternalRef r); [now apply StrSet_add_NoDup | assumption].
Qed.

Lemma resolveAll_registers (refs : list string) (root r : string) :
  forall st, In r refs -> isExternalRef r = true ->
             In (fileKeyOf r) (externalFileKeys (resolveAll refs root st)).
Proof.
  induction refs as [| r' rest IH]; intros st Hin Hext; simpl; [destruct Hin | ].
  destruct Hin as [-> | Hin]; [ | now apply IH].
  apply resolveAll_keeps. rewrite transformRefType_run. simpl.
  unfold keysAfter. rewrite Hext. apply StrSet_add_In.
Qed.

(** C4: the path expression that [transformRefType] returns is a function
    of the reference string and the root prefix alone: it is [refPath ref
    root] in every state, so resolving a reference a second time returns
    the same expression. After the references of any list have been
    resolved, starting from a set without repetition, the document key of
    each external reference of the list is in the set of external document
    keys exactly once, however many references of the list name that
    document. *)
Theorem transformRefType_pure_and_registers_once
  (ref root : string) (refs : list string) (st st' : State)
  (Hset : NoDup (externalFileKeys st)) :
  fst (transformRefType ref root st) = Ok (refPath ref root)
  /\ fst (transformRefType ref root (snd (transformRefType ref root st)))
     = fst (transformRefType ref root st)
  /\ fst (transformRefType ref root st') = fst (transformRefType ref root st)
  /\ (In ref refs -> isExternalRef ref = true ->
      count_occ string_dec (externalFileKeys (resolveAll refs root st)) (fileKeyOf ref)
      = 1).
Proof.
  repeat split.
  - now rewrite transformRefType_run.
  - now rewrite !transformRefType_run.
  - now rewrite !transformRefType_run.
  - intros Hin Hext.
    apply NoDup_count_occ'.
    + now apply resolveAll_NoDup.
    + now apply resolveAll_registers.
Qed.

(** *** Enum members *)

Lemma closesAtEnd_escapeQuotes (s : string) :
  plainText s = true ->
  closesAtEnd (Js.escapeQuotes s ++ "'") = true.
Proof.
  induction s as [| c rest IH]; intros Hplain; [reflexivity | ].
  simpl in Hplain. apply andb_true_iff in Hplain as [Hc Hrest].
  apply andb_true_iff in Hc as [Hback Hline].
  apply negb_true_iff in Hback, Hline.
  simpl. destruct (Ascii.eqb c Js.quote) eqn:Hq.
  - simpl. now apply IH.
  - simpl. rewrite Hq, Hback, Hline. now apply IH.
Qed.

(** A string member without backslash and line terminator is emitted as
    one single-quoted literal. *)
Lemma enumMember_plain_string (s : string) :
  plainText s = true ->
  exists text, enumMember (EStr s) = ItemStr text /\ isStringLiteral text = true.
Proof.
  intros Hplain. eexists. split; [reflexivity | ].
  simpl. now apply closesAtEnd_escapeQuotes.
Qed.

(** Numbers and booleans go to [tsUnionOf] as they are. *)
Lemma enumMember_unquoted (item : EnumItem) :
  match item with
  | ENum n => enumMember item = ItemNum n
  | EBool b => enumMember item = ItemBool b
  | EStr _ => True
  end.
Proof. now destruct item. Qed.

(** The enum case of [transform]. *)
Lemma transform_enum (raw : bool) (node : SchemaObject) (members : list EnumItem)
  (st : State) :
  nodeType node = Some TEnum ->
  enum node = Some members ->
  transform raw node st = (Ok (tsUnionOf (map enumMember members)), st).
Proof.
  intros Htag Henum. destruct node. simpl in *.
  unfold transformF. simpl. rewrite Htag. simpl in Henum. now rewrite Henum.
Qed.
(** *** Computations *)

Lemma yields_bind {A B} (c : M A) (k : A -> M B) (a : A) (b : B) :
  yields c a -> yields (k a) b -> yields (bind c k) b.
Proof.
  intros Hc Hk st. unfold bind. specialize (Hc st).
  destruct (c st) as [r st']. simpl in Hc. subst r. apply Hk.
Qed.

Lemma yields_ret {A} (a : A) : yields (ret a) a.
Proof. now intros st. Qed.

Lemma yields_mapM {A B} (f : A -> M B) (l : list A) (ys : list B) :
  Forall2 (fun x y => yields (f x) y) l ys -> yields (mapM f l) ys.
Proof.
  induction 1 as [| x y l ys Hxy _ IH]; simpl.
  - apply yields_ret.
  - apply yields_bind with (a := y); [assumption | ].
    apply yields_bind with (a := ys); [assumption | apply yields_ret].
Qed.

Lemma yields_concatM {A} (f : A -> M string) (l : list A) (ys : list string) :
  Forall2 (fun x y => yields (f x) y) l ys -> yields (concatM f l) (Js.concat ys).
Proof.
  intros H. unfold concatM.
  apply yields_bind with (a := ys); [now apply yields_mapM | apply yields_ret].
Qed.

Lemma transform_eq (raw : bool) (node : SchemaObject) :
  transform raw node = transformF raw (transform raw) node.
Proof. now destruct node. Qed.

(** *** Array nodes *)

(** C6: for an array node whose [items] is a list of N schemas,
    [transform] returns the tuple type [tsTupleOf] of the N texts that
    [transform] gives for the items, one per item and in the order of the
    items; for an array node whose [items] is one schema it returns the
    sequence type [tsArrayOf] of the text of that schema; and without
    [items] it returns [tsArrayOf "any"]. *)
Theorem transform_array (raw : bool) (node : SchemaObject)
  (Htag : nodeType node = Some TArray) :
  match items node with
  | Some (TupleItems nodes) =>
      forall ts : list string,
        Forall2 (fun item t => yields (transform raw item) t) nodes ts ->
        yields (transform raw node) (tsTupleOf ts) /\ List.length ts = List.length nodes
  | Some (SingleItem item) =>
      forall t : string,
        yields (transform raw item) t ->
        yields (transform raw node) (tsArrayOf t)
  | None => yields (transform raw node) (tsArrayOf "any")
  end.
Proof.
  rewrite (transform_eq raw node). unfold transformF. rewrite Htag.
  destruct (items node) as [[item | nodes] | ].
  - intros t Ht. apply yields_bind with (a := t); [assumption | apply yields_ret].
  - intros ts Hts. split.
    + apply yields_bind with (a := ts); [now apply yields_mapM | apply yields_ret].
    + symmetry. eapply Forall2_length. eassumption.
  - apply yields_ret.
Qed.

(** *** What the closures leave of the state *)

Section Respects.

Variable R : State -> State -> Prop.
Hypothesis R_refl : forall st, R st st.
Hypothesis R_trans : forall a b c, R a b -> R b c -> R a c.

Lemma respects_ret {A} (a : A) : respects R (ret a).
Proof. intros st. split; [apply R_refl | discriminate]. Qed.

Lemma respects_TypeError {A} : respects R (throw (A := A) TypeError).
Proof. intros st. split; [apply R_refl | discriminate]. Qed.

Lemma respects_bind {A B} (c : M A) (k : A -> M B) :
  respects R c -> (forall a, respects R (k a)) -> respects R (bind c k).
Proof.
  intros Hc Hk st. unfold bind. destruct (Hc st) as [HR Herr].
  destruct (c st) as [[a | e] st']; simpl in *.
  - destruct (Hk a st') as [HR' Herr']. split; [ | assumption].
    eapply R_trans; eassumption.
  - split; [assumption | ]. intros Heq. apply Herr. now inversion Heq.
Qed.

Lemma respects_mapM {A B} (f : A -> M B) (l : list A) :
  Forall (fun x => respects R (f x)) l -> respects R (mapM f l).
Proof.
  induction 1 as [| x l Hx _ IH]; simpl.
  - apply respects_ret.
  - apply respects_bind; [assumption | ]. intros y.
    apply respects_bind; [assumption | ]. intros ys. apply respects_ret.
Qed.

Lemma respects_concatM {A} (f : A -> M string) (l : list A) :
  Forall (fun x => respects R (f x)) l -> respects R (concatM f l).
Proof.
  intros H. unfold concatM. apply respects_bind; [now apply respects_mapM | ].
  intros parts. apply respects_ret.
Qed.

Lemma respects_concatM_all {A} (f : A -> M string) (l : list A) :
  (forall x, respects R (f x)) -> respects R (concatM f l).
Proof.
  intros H. apply respects_concatM. apply Forall_forall. intros x _. apply H.
Qed.

End Respects.

Lemma respects_weaken {A} (R R' : State -> State -> Prop) (c : M A) :
  (forall st st', R st st' -> R' st st') -> respects R c -> respects R' c.
Proof.
  intros Hsub Hc st. destruct (Hc st) as [HR Herr]. split; [now apply Hsub | assumption].
Qed.

Lemma sameDocumentAndTable_refl (st : State) : sameDocumentAndTable st st.
Proof. now split. Qed.

Lemma sameDocumentAndTable_trans (a b c : State) :
  sameDocumentAndTable a b -> sameDocumentAndTable b c -> sameDocumentAndTable a c.
Proof. intros [H1 H2] [H3 H4]. split; congruence. Qed.

Lemma sameDocument_refl (st : State) : sameDocument st st.
Proof. reflexivity. Qed.

Lemma sameDocument_trans (a b c : State) :
  sameDocument a b -> sameDocument b c -> sameDocument a c.
Proof. unfold sameDocument. congruence. Qed.

Lemma sameDocumentAndTable_sameDocument (st st' : State) :
  sameDocumentAndTable st st' -> sameDocument st st'.
Proof. now intros [H _]. Qed.

Lemma respects_addExternalFileKey (k : string) :
  respects sameDocumentAndTable (addExternalFileKey k).
Proof. intros st. split; [now split | discriminate]. Qed.

Lemma respects_transformRefType (ref root : string) :
  respects sameDocumentAndTable (transformRefType ref root).
Proof.
  intros st. rewrite transformRefType_run. split; [now split | discriminate].
Qed.

Section RespectsClosures.

Variable R : State -> State -> Prop.
Hypothesis R_refl : forall st, R st st.
Hypothesis R_trans : forall a b c, R a b -> R b c -> R a c.

Lemma respects_createKeysF (self : SchemaObject -> M string)
  (obj : list (string * SchemaObject)) (required : option (list string)) :
  Forall (fun entry => respects R (self (valueSchema (snd entry)))) obj ->
  respects R (createKeysF self obj required).
Proof.
  intros Hall. unfold createKeysF. apply respects_concatM; [assumption .. | ].
  eapply Forall_impl; [ | exact Hall].
  intros [key value] Hself. simpl in Hself.
  apply respects_bind; [assumption .. | ].
  intros t. now apply respects_ret.
Qed.

End RespectsClosures.

(** The lemmas above, for the closures that touch neither the document
    nor the operations table. *)

Lemma inner_ret {A} (a : A) : respects sameDocumentAndTable (ret a).
Proof. apply respects_ret. apply sameDocumentAndTable_refl. Qed.

Lemma inner_TypeError {A} : respects sameDocumentAndTable (throw (A := A) TypeError).
Proof. apply respects_TypeError. apply sameDocumentAndTable_refl. Qed.

Lemma inner_bind {A B} (c : M A) (k : A -> M B) :
  respects sameDocumentAndTable c ->
  (forall a, respects sameDocumentAndTable (k a)) ->
  respects sameDocumentAndTable (bind c k).
Proof. apply respects_bind. apply sameDocumentAndTable_trans. Qed.

Lemma inner_mapM {A B} (f : A -> M B) (l : list A) :
  Forall (fun x => respects sameDocumentAndTable (f x)) l ->
  respects sameDocumentAndTable (mapM f l).
Proof.
  apply respects_mapM;
    [apply sameDocumentAndTable_refl | apply sameDocumentAndTable_trans].
Qed.

Lemma inner_concatM {A} (f : A -> M string) (l : list A) :
  (forall x, respects sameDocumentAndTable (f x)) ->
  respects sameDocumentAndTable (concatM f l).
Proof.
  apply respects_concatM_all;
    [apply sameDocumentAndTable_refl | apply sameDocumentAndTable_trans].
Qed.

Lemma inner_createKeysF (self : SchemaObject -> M string)
  (obj : list (string * SchemaObject)) (required : option (list string)) :
  Forall (fun entry => respects sameDocumentAndTable (self (valueSchema (snd entry)))) obj ->
  respects sameDocumentAndTable (createKeysF self obj required).
Proof.
  apply respects_createKeysF;
    [apply sameDocumentAndTable_refl | apply sameDocumentAndTable_trans].
Qed.

(** One step of a proof that a closure respects the state. *)
Ltac inner_step :=
  first
    [ apply inner_ret
    | apply inner_TypeError
    | apply respects_transformRefType
    | apply inner_bind; [ | intro ]
    | assumption ].

(** [transform] leaves the document and the operations table as they
    were and throws nothing but a [TypeError]; so it does on the [schema]
    member of a value, which is what [createKeys] hands it. *)
Lemma transform_respects (raw : bool) (node : SchemaObject) :
  respects sameDocumentAndTable (transform raw node)
  /\ respects sameDocumentAndTable (transform raw (valueSchema node)).
Proof.
  induction node as [node Hone Hany Hall Hprops Hadd Hitems Hschema]
    using SchemaObject_nested_ind.
  assert (Hnode : respects sameDocumentAndTable (transform raw node)).
  { rewrite transform_eq. unfold transformF.
    destruct (nodeType node) as [[] | ]; try inner_step.
    - (* ref *)
      destruct (ref node); inner_step.
    - (* enum *)
      destruct (enum node); inner_step.
    - (* oneOf *)
      destruct (oneOf node) as [nodes | ]; repeat inner_step.
      apply inner_mapM. simpl in Hone.
      eapply Forall_impl; [ | exact Hone]. now intros n [Hn _].
    - (* anyOf *)
      destruct (anyOf node) as [nodes | ]; repeat inner_step.
      apply inner_mapM. simpl in Hany.
      eapply Forall_impl; [ | exact Hany]. intros n [Hn _]. repeat inner_step.
    - (* object *)
      destruct (isEmptyObject node); repeat inner_step.
      + destruct (properties node) as [o | ]; apply inner_createKeysF.
        * simpl in Hprops. eapply Forall_impl; [ | exact Hprops].
          now intros entry [_ Hv].
        * constructor.
      + destruct (additionalProperties node) as [[ | extra] | ]; repeat inner_step.
        simpl in Hadd. now destruct Hadd.
      + destruct (allOf node) as [nodes | ]; repeat inner_step.
        apply inner_mapM. simpl in Hall.
        eapply Forall_impl; [ | exact Hall]. now intros n [Hn _].
    - (* array *)
      destruct (items node) as [[item | nodes] | ]; repeat inner_step.
      + simpl in Hitems. now destruct Hitems.
      + apply inner_mapM. simpl in Hitems.
        eapply Forall_impl; [ | exact Hitems]. now intros n [Hn _]. }
  split; [assumption | ].
  unfold valueSchema. destruct (schema node) as [s | ]; [ | assumption].
  simpl in Hschema. now destruct Hschema.
Qed.

Lemma createKeys_respects (raw : bool) (obj : list (string * SchemaObject))
  (required : option (list string)) :
  respects sameDocumentAndTable (createKeys raw obj required).
Proof.
  apply inner_createKeysF. apply Forall_forall. intros entry _.
  apply transform_respects.
Qed.

Lemma referencedValue_error (input : Input) (ref : string) :
  referencedValue input ref <> Throw InvalidDocumentShape.
Proof.
  unfold referencedValue.
  destruct (memberAt input (Js.split "/" (Js.substr 2 ref))) as [found | ];
    destruct (Js.split "/" (Js.substr 2 ref)) as [| a [| b [| n [| ? ?]]]];
    try discriminate;
    (destruct (String.eqb a "components" && String.eqb b "parameters"); [ | discriminate];
     destruct (components (asDocument input)) as [c | ]; [ | discriminate];
     destruct (c_parameters c) as [ps | ]; [ | discriminate];
     destruct (Obj.get n ps) as [[r | p] | ]; try discriminate;
     destruct (Js.isInherited n); discriminate).
Qed.

Lemma referencedValue_TypeError (input : Input) (ref : string) (e : JsError) :
  referencedValue input ref = Throw e -> e = TypeError.
Proof.
  unfold referencedValue.
  destruct (memberAt input (Js.split "/" (Js.substr 2 ref))) as [found | ];
    destruct (Js.split "/" (Js.substr 2 ref)) as [| a [| b [| n [| ? ?]]]];
    try discriminate; try (now intros [= <-]);
    (destruct (String.eqb a "components" && String.eqb b "parameters");
     [ | try discriminate; now intros [= <-]];
     destruct (components (asDocument input)) as [c | ]; [ | now intros [= <-]];
     destruct (c_parameters c) as [ps | ]; [ | now intros [= <-]];
     destruct (Obj.get n ps) as [[r | p] | ]; try discriminate;
     destruct (Js.isInherited n); try discriminate; now intros [= <-]).
Qed.

Lemma addParameter_respects (all : AllParameters) (p : ParameterObject) :
  respects sameDocumentAndTable (addParameter all p).
Proof.
  destruct p as [r | q]; simpl; [ | apply inner_ret].
  intros st. unfold bind, getInput. simpl.
  pose proof (referencedValue_error (st_input st) r) as Herr.
  destruct (referencedValue (st_input st) r) as [[loc name] | e]; simpl.
  - split; [apply sameDocumentAndTable_refl | discriminate].
  - split; [apply sameDocumentAndTable_refl | congruence].
Qed.

Lemma groupParameters_respects (parameters : list ParameterObject) :
  forall all, respects sameDocumentAndTable (groupParameters all parameters).
Proof.
  induction parameters as [| p rest IH]; intros all; simpl.
  - apply inner_ret.
  - apply inner_bind; [apply addParameter_respects | intros all'; apply IH].
Qed.

Lemma unrefRequired_respects (comps : Components) (text : string) :
  respects sameDocumentAndTable (unrefRequired comps text).
Proof.
  unfold unrefRequired. destruct (unrefComponent comps text) as [[r | q] | ]; inner_step.
Qed.

Lemma parameterField_respects (raw : bool) (comps : Components)
  (entry : string * ParamProps) :
  respects sameDocumentAndTable (parameterField raw comps entry).
Proof.
  destruct entry as [paramName [text | q]]; simpl.
  - apply inner_bind; [apply unrefRequired_respects | intro; apply inner_ret].
  - apply inner_bind; [apply transform_respects | intro; apply inner_ret].
Qed.

Lemma renderParameters_respects (raw : bool) (comps : Components) (all : AllParameters) :
  respects sameDocumentAndTable (renderParameters raw comps all).
Proof.
  unfold renderParameters. apply inner_bind; [ | intro; apply inner_ret].
  apply inner_concatM. intros [loc locParams]. simpl.
  apply inner_bind; [ | intro; apply inner_ret].
  apply inner_concatM. apply parameterField_respects.
Qed.

Lemma transformParameters_respects (raw : bool) (comps : Components)
  (parameters : list ParameterObject) :
  respects sameDocumentAndTable (transformParameters raw comps parameters).
Proof.
  unfold transformParameters.
  apply inner_bind; [apply groupParameters_respects | ].
  intros all. apply renderParameters_respects.
Qed.

Lemma contentFields_respects (raw : bool) (content : list (string * MediaType)) :
  respects sameDocumentAndTable (contentFields raw content).
Proof.
  unfold contentFields. apply inner_concatM. intros [contentType media].
  apply inner_bind; [apply transform_respects | intro; apply inner_ret].
Qed.

Lemma responseEntry_respects (raw : bool) (entry : string * option ResponseObject) :
  respects sameDocumentAndTable (responseEntry raw entry).
Proof.
  destruct entry as [statusCodeString [r | ]]; simpl; [ | apply inner_ret].
  destruct (r_content r) as [[| c cs] | ]; try apply inner_ret.
  apply inner_bind; [apply contentFields_respects | intro; apply inner_ret].
Qed.

Lemma transformOperation_respects (raw : bool) (comps : Components)
  (operation : OpenAPI3Operation) :
  respects sameDocumentAndTable (transformOperation raw comps operation).
Proof.
  unfold transformOperation. apply inner_bind.
  { destruct (op_parameters operation);
      [apply transformParameters_respects | apply inner_ret]. }
  intros params. apply inner_bind.
  { destruct (requestBody operation) as [rb | ]; [ | apply inner_ret].
    apply inner_bind; [apply contentFields_respects | intro; apply inner_ret]. }
  intros body. apply inner_bind; [ | intro; apply inner_ret].
  unfold responsesBlock. apply inner_bind; [ | intro; apply inner_ret].
  apply inner_concatM. apply responseEntry_respects.
Qed.

(** The closures that write the operations table leave the document. *)

Lemma outer_of_inner {A} (c : M A) :
  respects sameDocumentAndTable c -> respects sameDocument c.
Proof. apply respects_weaken. apply sameDocumentAndTable_sameDocument. Qed.

Lemma outer_ret {A} (a : A) : respects sameDocument (ret a).
Proof. apply outer_of_inner, inner_ret. Qed.

Lemma outer_bind {A B} (c : M A) (k : A -> M B) :
  respects sameDocument c ->
  (forall a, respects sameDocument (k a)) ->
  respects sameDocument (bind c k).
Proof. apply respects_bind. apply sameDocument_trans. Qed.

Lemma outer_concatM {A} (f : A -> M string) (l : list A) :
  (forall x, respects sameDocument (f x)) ->
  respects sameDocument (concatM f l).
Proof.
  apply respects_concatM_all; [apply sameDocument_refl | apply sameDocument_trans].
Qed.

Lemma setOperation_respects (id : string) (op : OpenAPI3Operation) :
  respects sameDocument (setOperation id op).
Proof. intros st. split; [reflexivity | discriminate]. Qed.

Lemma pathField_respects (raw : bool) (comps : Components)
  (entry : string * OpenAPI3Operation) :
  respects sameDocument (pathField raw comps entry).
Proof.
  destruct entry as [field operation]. simpl.
  destruct (isMethod field); [ | apply outer_ret].
  destruct (Js.truthy (operationId operation)) as [id | ].
  - apply outer_bind; [apply setOperation_respects | intro; apply outer_ret].
  - apply outer_bind; [ | intro; apply outer_ret].
    apply outer_of_inner, transformOperation_respects.
Qed.

Lemma transformPaths_respects (raw : bool) (comps : Components) (ps : OpenAPI3Paths) :
  respects sameDocument (transformPaths raw comps ps).
Proof.
  unfold transformPaths. apply outer_concatM. intros [path pathItem]. simpl.
  apply outer_bind; [apply outer_concatM, pathField_respects | ].
  intros fields. apply outer_bind; [ | intro; apply outer_ret].
  destruct (pi_parameters pathItem); [ | apply outer_ret].
  apply outer_of_inner, transformParameters_respects.
Qed.

Lemma componentBlock_respects (raw : bool) (opening closing : string)
  (o : list (string * SchemaObject)) :
  respects sameDocument (componentBlock raw opening closing o).
Proof.
  destruct o as [| e rest]; simpl; [apply outer_ret | ].
  apply outer_bind; [ | intro; apply outer_ret].
  apply outer_of_inner, createKeys_respects.
Qed.

Lemma assemble_respects (raw : bool) (options : option (SwaggerToTSOptions Mapper))
  (input : Input) :
  respects sameDocument (assemble raw options input).
Proof.
  unfold assemble. destruct raw.
  - apply outer_bind; [ | intro; apply outer_ret].
    apply outer_of_inner, createKeys_respects.
  - apply outer_bind.
    { destruct (pathsOf input) as [| e rest]; [apply outer_ret | ].
      apply outer_bind; [apply transformPaths_respects | intro; apply outer_ret]. }
    intros pathsBlock. apply outer_bind.
    { intros st. split; [reflexivity | discriminate]. }
    intros table. apply outer_bind.
    { apply outer_concatM. intros [id operation]. simpl.
      apply outer_bind; [ | intro; apply outer_ret].
      apply outer_of_inner, transformOperation_respects. }
    intros ops. apply outer_bind; [apply componentBlock_respects | ].
    intros params. apply outer_bind; [apply componentBlock_respects | ].
    intros schemasBlock. apply outer_bind; [apply componentBlock_respects | ].
    intros resps. apply outer_bind; [ | intro; apply outer_ret].
    intros st. split; [reflexivity | discriminate].
Qed.

(** *** The document check *)

Lemma generate_lacking (input : Input) (options : option (SwaggerToTSOptions Mapper))
  (st : State) :
  rawSchemaOf options = false ->
  lacksBoth input = true ->
  generate input options st = (Throw InvalidDocumentShape, st).
Proof. intros Hraw Hlack. unfold generate. now rewrite Hraw, Hlack. Qed.

Lemma generate_checked (input : Input) (options : option (SwaggerToTSOptions Mapper)) :
  negb (rawSchemaOf options) && lacksBoth input = false ->
  generate input options = assemble (rawSchemaOf options) options input.
Proof. intros Hcheck. unfold generate. now rewrite Hcheck. Qed.

(** C2: in non-raw mode, a document with neither [paths] nor [components]
    makes [generateTypesV3] throw [InvalidDocumentShape], with no text
    returned and nothing of the state touched; a document with at least
    one of the two does not make it throw that error. *)
Theorem InvalidDocumentShape_iff_neither_member
  (input : Input) (options : option (SwaggerToTSOptions Mapper))
  (Hraw : rawSchemaOf options = false) :
  (paths (asDocument input) = None /\ components (asDocument input) = None ->
   generateTypesV3 input options = Throw InvalidDocumentShape
   /\ finalState input options = initialState input)
  /\ (paths (asDocument input) <> None \/ components (asDocument input) <> None ->
      generateTypesV3 input options <> Throw InvalidDocumentShape).
Proof.
  split.
  - intros [Hpaths Hcomps].
    assert (Hlack : lacksBoth input = true).
    { unfold lacksBoth. now rewrite Hpaths, Hcomps. }
    unfold generateTypesV3, finalState.
    now rewrite (generate_lacking input options (initialState input) Hraw Hlack).
  - intros Hsome.
    assert (Hlack : lacksBoth input = false).
    { unfold lacksBoth.
      destruct (components (asDocument input)), (paths (asDocument input));
        try reflexivity.
      destruct Hsome as [H | H]; now elim H. }
    unfold generateTypesV3. rewrite generate_checked.
    + apply assemble_respects.
    + rewrite Hlack. apply andb_false_r.
Qed.

(** *** Raw-schema mode *)

Lemma optionalMark_listed (names : list string) (key : string) :
  In key names -> optionalMark (Some names) key = EmptyString.
Proof.
  intros Hin. unfold optionalMark.
  assert (Hex : existsb (String.eqb key) names = true).
  { apply existsb_exists. exists key. split; [assumption | apply String.eqb_refl]. }
  now rewrite Hex.
Qed.

Lemma commentOf_described (d : option string) : commentOf d = described d.
Proof.
  destruct d as [text | ]; [ | reflexivity].
  unfold commentOf, described, Js.truthy.
  now destruct (String.eqb text EmptyString).
Qed.

Lemma keyText_fieldText (mark key : string) (value : SchemaObject) (t : string) :
  keyText mark key value t = fieldText mark (key, value) t.
Proof.
  unfold keyText, fieldText, isNullable. rewrite commentOf_described.
  cbn [fst snd].
  destruct (nullable value) as [[ | ] | ]; rewrite ?append_assoc; reflexivity.
Qed.

Lemma createKeys_yields (raw : bool) (required : option (list string))
  (obj : list (string * SchemaObject)) (ts : list string) :
  typesOf raw obj ts ->
  yields (createKeys raw obj required)
         (Js.concat (fieldsWith (optionalMark required) obj ts)).
Proof.
  intros Hts. unfold createKeys, createKeysF, fieldsWith.
  apply yields_concatM.
  induction Hts as [| [key value] t obj ts Ht _ IH]; simpl; constructor.
  - apply yields_bind with (a := t); [exact Ht | ].
    rewrite keyText_fieldText. apply yields_ret.
  - exact IH.
Qed.

Lemma fieldsWith_ext (mark mark' : string -> string)
  (obj : list (string * SchemaObject)) (ts : list string) :
  (forall key, In key (keys obj) -> mark key = mark' key) ->
  fieldsWith mark obj ts = fieldsWith mark' obj ts.
Proof.
  revert ts. induction obj as [| [key value] rest IH]; intros ts Hext; [reflexivity | ].
  destruct ts as [| t ts]; [reflexivity | ].
  unfold fieldsWith. simpl. f_equal.
  - rewrite Hext; [reflexivity | now left].
  - apply IH. intros k Hk. apply Hext. now right.
Qed.

Lemma createKeys_all_required (raw : bool) (obj : list (string * SchemaObject))
  (ts : list string) :
  typesOf raw obj ts ->
  yields (createKeys raw obj (Some (keys obj))) (Js.concat (requiredFields obj ts)).
Proof.
  intros Hts. unfold requiredFields.
  rewrite <- (fieldsWith_ext (optionalMark (Some (keys obj))) (fun _ => EmptyString)).
  - now apply createKeys_yields.
  - intros key Hin. now apply optionalMark_listed.
Qed.

(** C8: in raw-schema mode the text returned is the line
    [export interface schemas {], then, after two spaces, one field for
    each entry of the property-mapped input map, in order (the comment of
    the value, the quoted key with no optionality mark, a colon and the
    type, each field ended by a semicolon and a line feed), then a line
    feed and the closing brace. There is nothing before or after it, and
    the operations table is still empty when the call ends. *)
Theorem raw_schema_output
  (input : Input) (options : option (SwaggerToTSOptions Mapper)) (ts : list string)
  (Hraw : rawSchemaOf options = true)
  (Hts : typesOf true (propertyMappedOf options (componentsOf true input)) ts) :
  generateTypesV3 input options
  = Ok ("export interface schemas {" ++ Js.nl ++ "  "
        ++ Js.concat
             (map (fun et : (string * SchemaObject) * string =>
                     described (description (snd (fst et)))
                     ++ Js.quoted (fst (fst et)) ++ ": "
                     ++ match nullable (snd (fst et)) with
                        | Some true => "(" ++ snd et ++ ") | null"
                        | _ => snd et
                        end
                     ++ ";" ++ Js.nl)
                  (combine (propertyMappedOf options (componentsOf true input)) ts))
        ++ Js.nl ++ "}")
  /\ List.length ts = List.length (keys (propertyMappedOf options (componentsOf true input)))
  /\ operations (finalState input options) = [].
Proof.
  split; [ | split].
  - unfold generateTypesV3, generate. rewrite Hraw. cbn [negb andb]. unfold assemble.
    exact (yields_bind (fun fields => ret (schemasInterface fields))
             (createKeys_all_required Hts) (yields_ret _) (initialState input)).
  - unfold keys. rewrite length_map. symmetry. exact (Forall2_length Hts).
  - unfold finalState, generate. rewrite Hraw. cbn [negb andb]. unfold assemble.
    pose proof (createKeys_respects true
                  (propertyMappedOf options (componentsOf true input))
                  (Some (keys (propertyMappedOf options (componentsOf true input))))
                  (initialState input))
      as [[_ Htable] _].
    unfold bind.
    destruct (createKeys true _ _ (initialState input)) as [[fields | e] st'];
      simpl in *; exact Htable.
Qed.

(** *** Responses *)

Lemma concatM_cons {A} (f : A -> M string) (x : A) (l : list A) (st : State) :
  concatM f (x :: l) st
  = match f x st with
    | (Ok y, st1) =>
        match concatM f l st1 with
        | (Ok s, st2) => (Ok (y ++ s), st2)
        | (Throw e, st2) => (Throw e, st2)
        end
    | (Throw e, st1) => (Throw e, st1)
    end.
Proof.
  unfold concatM, bind. simpl. unfold bind.
  destruct (f x st) as [[y | e] st1]; [ | reflexivity].
  destruct (mapM f l st1) as [[ys | e] st2]; reflexivity.
Qed.

Lemma concatM_nil {A} (f : A -> M string) (st : State) :
  concatM f [] st = (Ok EmptyString, st).
Proof. reflexivity. Qed.



Lemma contentFields_yields (raw : bool) (content : list (string * MediaType))
  (ts : list string) :
  contentTypes raw content ts ->
  yields (contentFields raw content) (Js.concat (contentTexts content ts)).
Proof.
  intros Hts. unfold contentFields, contentTexts. apply yields_concatM.
  induction Hts as [| [contentType media] t content ts Ht _ IH]; simpl; constructor.
  - apply yields_bind with (a := t); [exact Ht | apply yields_ret].
  - exact IH.
Qed.

(** **** Status keys *)

Lemma falsy_is_no_status (x : Js.number) :
  Js.truthyNumber x = false ->
  isStatus204or3xx x = false /\ Js.hundredsAreThree x = false.
Proof.
  destruct x as [ | negative | num den]; simpl; try discriminate; [now split | ].
  intros Hzero. apply negb_false_iff, Z.eqb_eq in Hzero. subst num.
  split; [apply orb_false_iff; split | ].
  - apply Z.eqb_neq. lia.
  - apply andb_false_iff. left. apply Z.leb_gt. lia.
  - apply andb_false_iff. left. apply Z.leb_gt. lia.
Qed.

Lemma statusText_emitted (key : string) :
  statusText (statusCodeOf key) = emittedStatus key.
Proof.
  unfold statusCodeOf, emittedStatus, statusNumber.
  destruct (Js.Number engineNumber key) as [ | negative | num den]; simpl;
    try reflexivity.
  now destruct (num =? 0)%Z.
Qed.

Lemma neverHasBody_status (key : string) :
  neverHasBody (statusCodeOf key) = isStatus204or3xx (statusNumber key).
Proof.
  unfold statusCodeOf, statusNumber.
  destruct (Js.truthyNumber (Js.Number engineNumber key)) eqn:Htruthy; simpl.
  - now destruct (Js.Number engineNumber key).
  - destruct (falsy_is_no_status _ Htruthy) as [Hstatus Hhundreds].
    now rewrite Hstatus, Hhundreds.
Qed.

Lemma emptyBodyType_emitted (key : string) :
  emptyBodyType (statusCodeOf key) = emptyBody key.
Proof. unfold emptyBodyType, emptyBody. now rewrite neverHasBody_status. Qed.

Lemma digitsValue_bound (s : string) :
  Js.allDigits s = true ->
  forall acc, (Js.digitsValue acc s < (acc + 1) * 10 ^ N.of_nat (String.length s))%N.
Proof.
  induction s as [| c s IH]; intros Hdigits acc.
  - simpl. lia.
  - cbn [Js.allDigits] in Hdigits. apply andb_true_iff in Hdigits as [Hc Hs].
    unfold Js.isDigit in Hc. apply andb_true_iff in Hc as [_ Hc].
    apply Nat.leb_le in Hc.
    cbn [Js.digitsValue String.length].
    specialize (IH Hs (10 * acc + N.of_nat (nat_of_ascii c - 48)))%N.
    rewrite Nat2N.inj_succ, N.pow_succ_r'.
    assert (Hdigit : (N.of_nat (nat_of_ascii c - 48) <= 9)%N) by lia.
    revert IH Hdigit.
    generalize (N.of_nat (nat_of_ascii c - 48)) (10 ^ N.of_nat (String.length s))%N
               (Js.digitsValue (10 * acc + N.of_nat (nat_of_ascii c - 48)) s).
    intros d p v IH Hdigit. nia.
Qed.



Lemma statusNumber_numeric (key : string) :
  numericKey key = true ->
  statusNumber key = Js.ofInteger (Js.digitsValue 0 key)
  /\ (Js.digitsValue 0 key < 10 ^ 15)%N.
Proof.
  unfold numericKey. intros Hkey.
  apply andb_true_iff in Hkey as [Hkey Hlength].
  apply andb_true_iff in Hkey as [Hdigits _].
  split.
  - unfold statusNumber, Js.Number, Js.plainNumeral. now rewrite Hdigits, Hlength.
  - pose proof (digitsValue_bound key Hdigits 0) as Hbound.
    apply Nat.leb_le in Hlength.
    assert (Hpow : (10 ^ N.of_nat (String.length key) <= 10 ^ 15)%N)
      by (apply N.pow_le_mono_r; lia).
    lia.
Qed.





Lemma responseText_yields (raw : bool) (key : string) (r : ResponseObject)
  (text : string) :
  responseText raw key r text -> yields (responseEntry raw (key, Some r)) text.
Proof.
  intros (rest & -> & Hrest). unfold responseEntry.
  rewrite statusText_emitted, emptyBodyType_emitted, commentOf_described.
  destruct (r_content r) as [[| c cs] | ]; try (subst rest; now intros st).
  destruct Hrest as (ts & Hts & ->).
  apply yields_bind with (a := Js.concat (contentTexts (c :: cs) ts));
    [now apply contentFields_yields | now intros st].
Qed.



(** *** Objects used as maps *)

Section ObjLemmas.

Variable V : Type.

Lemma Obj_get_put_same (k : string) (v : V) (o : Obj.t V) :
  Obj.get k (Obj.put k v o) = Some v.
Proof.
  induction o as [| [k' v'] rest IH]; simpl.
  - now rewrite String.eqb_refl.
  - destruct (String.eqb k k') eqn:Heq; simpl; rewrite Heq; [reflexivity | exact IH].
Qed.

Lemma Obj_get_put_other (k k' : string) (v : V) (o : Obj.t V) :
  k' <> k -> Obj.get k' (Obj.put k v o) = Obj.get k' o.
Proof.
  intros Hne. induction o as [| [k0 v0] rest IH]; simpl.
  - apply String.eqb_neq in Hne. now rewrite Hne.
  - destruct (String.eqb k k0) eqn:Heq; simpl.
    + apply String.eqb_eq in Heq. subst k0.
      apply String.eqb_neq in Hne. now rewrite Hne.
    + now rewrite IH.
Qed.

Lemma Obj_put_keys (k k' : string) (v : V) (o : Obj.t V) :
  In k' (keys (Obj.put k v o)) <-> k' = k \/ In k' (keys o).
Proof.
  induction o as [| [k0 v0] rest IH]; simpl.
  - split; intros [H | []]; left; symmetry; exact H.
  - destruct (String.eqb k k0) eqn:Heq; simpl.
    + apply String.eqb_eq in Heq. subst k0. split.
      * intros H. right. exact H.
      * intros [H | H]; [left; symmetry; exact H | exact H].
    + rewrite IH. split.
      * intros [H | [H | H]]; [right; left | left | right; right]; exact H.
      * intros [H | [H | H]]; [right; left | left | right; right]; exact H.
Qed.

Lemma Obj_put_NoDup (k : string) (v : V) (o : Obj.t V) :
  NoDup (keys o) -> NoDup (keys (Obj.put k v o)).
Proof.
  induction o as [| [k0 v0] rest IH]; simpl; intros Hnd.
  - repeat constructor. intros [].
  - inversion Hnd as [| ? ? Hnotin Hrest]; subst.
    destruct (String.eqb k k0) eqn:Heq; simpl.
    + now constructor.
    + constructor; [ | now apply IH].
      intros Hin. apply Obj_put_keys in Hin as [-> | Hin]; [ | contradiction].
      now rewrite String.eqb_refl in Heq.
Qed.

Lemma Obj_put_Forall (P : V -> Prop) (k : string) (v : V) (o : Obj.t V) :
  P v -> Forall (fun entry => P (snd entry)) o ->
  Forall (fun entry => P (snd entry)) (Obj.put k v o).
Proof.
  intros Hv. induction 1 as [| [k0 v0] rest H0 Hrest IH]; simpl.
  - now repeat constructor.
  - destruct (String.eqb k k0); constructor; simpl; assumption.
Qed.

Lemma keys_put (k : string) (v : V) (o : Obj.t V) :
  keys (Obj.put k v o) = StrSet.add k (keys o).
Proof.
  induction o as [| [k' v'] rest IH]; [reflexivity | ].
  cbn [Obj.put]. unfold StrSet.add, StrSet.has. cbn [keys map fst existsb].
  destruct (String.eqb k k'); [reflexivity | ].
  cbn [orb keys map fst]. change (map fst (Obj.put k v rest)) with (keys (Obj.put k v rest)).
  rewrite IH. unfold StrSet.add, StrSet.has, keys.
  now destruct (existsb (String.eqb k) (map fst rest)).
Qed.

(** An assignment to [__proto__] adds no key; to any other key it is the
    write of an own key. *)
Lemma Obj_set_proto (v : V) (o : Obj.t V) : Obj.set "__proto__" v o = o.
Proof. reflexivity. Qed.

Lemma Obj_set_put (k : string) (v : V) (o : Obj.t V) :
  k <> "__proto__" -> Obj.set k v o = Obj.put k v o.
Proof. intros Hk. unfold Obj.set. apply String.eqb_neq in Hk. now rewrite Hk. Qed.

Lemma Obj_get_set_same (k : string) (v : V) (o : Obj.t V) :
  k <> "__proto__" -> Obj.get k (Obj.set k v o) = Some v.
Proof. intros Hk. rewrite Obj_set_put by assumption. apply Obj_get_put_same. Qed.

Lemma Obj_get_set_other (k k' : string) (v : V) (o : Obj.t V) :
  k' <> k -> Obj.get k' (Obj.set k v o) = Obj.get k' o.
Proof.
  intros Hne. unfold Obj.set.
  destruct (String.eqb k "__proto__"); [reflexivity | now apply Obj_get_put_other].
Qed.

Lemma Obj_set_NoDup (k : string) (v : V) (o : Obj.t V) :
  NoDup (keys o) -> NoDup (keys (Obj.set k v o)).
Proof.
  intros Hnd. unfold Obj.set.
  destruct (String.eqb k "__proto__"); [assumption | now apply Obj_put_NoDup].
Qed.

Lemma Obj_set_Forall (P : V -> Prop) (k : string) (v : V) (o : Obj.t V) :
  P v -> Forall (fun entry => P (snd entry)) o ->
  Forall (fun entry => P (snd entry)) (Obj.set k v o).
Proof.
  intros Hv Hall. unfold Obj.set.
  destruct (String.eqb k "__proto__"); [assumption | now apply Obj_put_Forall].
Qed.

Lemma keys_set (k : string) (v : V) (o : Obj.t V) :
  keys (Obj.set k v o)
  = if String.eqb k "__proto__" then keys o else StrSet.add k (keys o).
Proof.
  unfold Obj.set. destruct (String.eqb k "__proto__"); [reflexivity | apply keys_put].
Qed.

Lemma Obj_set_keys (k k' : string) (v : V) (o : Obj.t V) :
  In k' (keys (Obj.set k v o)) <-> (k' = k /\ k <> "__proto__") \/ In k' (keys o).
Proof.
  unfold Obj.set. destruct (String.eqb k "__proto__") eqn:Hproto.
  - apply String.eqb_eq in Hproto. split.
    + intros H. right. exact H.
    + intros [[_ H] | H]; [elim H; exact Hproto | exact H].
  - apply String.eqb_neq in Hproto. rewrite Obj_put_keys. split.
    + intros [H | H]; [left; split; [exact H | exact Hproto] | right; exact H].
    + intros [[H _] | H]; [left | right]; exact H.
Qed.

Lemma Obj_get_In (k : string) (v : V) (o : Obj.t V) :
  Obj.get k o = Some v -> In (k, v) o.
Proof.
  induction o as [| [k0 v0] rest IH]; simpl; [discriminate | ].
  destruct (String.eqb k k0) eqn:Heq.
  - apply String.eqb_eq in Heq. subst k0. intros [= ->]. now left.
  - intros H. right. now apply IH.
Qed.

Lemma Obj_get_Forall (P : V -> Prop) (k : string) (v : V) (o : Obj.t V) :
  Forall (fun entry => P (snd entry)) o -> Obj.get k o = Some v -> P v.
Proof.
  intros Hall Hget. apply Obj_get_In in Hget.
  rewrite Forall_forall in Hall. exact (Hall _ Hget).
Qed.

Lemma insertIndexed_perm (n : N) (e : string * V) (l : list (N * (string * V))) :
  Permutation (Obj.insertIndexed n e l) ((n, e) :: l).
Proof.
  induction l as [| [m e'] rest IH]; simpl; [apply Permutation_refl | ].
  destruct (n <=? m)%N; [apply Permutation_refl | ].
  eapply perm_trans; [apply perm_skip, IH | apply perm_swap].
Qed.

(** [Object.entries] lists every entry of the object, once. *)
Lemma Obj_entries_perm (o : Obj.t V) : Permutation (Obj.entries o) o.
Proof.
  unfold Obj.entries. induction o as [| [k v] rest IH]; simpl; [constructor | ].
  destruct (Obj.arrayIndex k) as [n | ].
  - eapply perm_trans.
    + apply Permutation_app_tail, Permutation_map, insertIndexed_perm.
    + simpl. now apply perm_skip.
  - eapply perm_trans; [apply Permutation_sym, Permutation_middle | ].
    now apply perm_skip.
Qed.

Lemma Obj_entries_keys_perm (o : Obj.t V) :
  Permutation (keys (Obj.entries o)) (keys o).
Proof. apply Permutation_map, Obj_entries_perm. Qed.

(** A key of an object with no key twice has one entry in
    [Object.entries], with the value the object holds for it. *)
Lemma Obj_entries_once (k : string) (v : V) (o : Obj.t V) :
  NoDup (keys o) -> Obj.get k o = Some v ->
  In (k, v) (Obj.entries o)
  /\ count_occ string_dec (keys (Obj.entries o)) k = 1.
Proof.
  intros Hnd Hget. apply Obj_get_In in Hget. split.
  - eapply Permutation_in; [apply Permutation_sym, Obj_entries_perm | assumption].
  - rewrite (proj1 (Permutation_count_occ string_dec _ _) (Obj_entries_keys_perm o)).
    apply NoDup_count_occ'; [assumption | ].
    unfold keys. change k with (fst (k, v)). now apply in_map.
Qed.

(** Without array-index keys, [Object.entries] is the order of
    insertion. *)
Lemma entries_of_named (o : Obj.t V) :
  Forall (fun k => Obj.arrayIndex k = None) (keys o) -> Obj.entries o = o.
Proof.
  intros Hnamed.
  assert (Hparts : Obj.indexed o = [] /\ Obj.named o = o).
  { induction o as [| [k v] rest IH]; [now split | ].
    inversion Hnamed as [| ? ? Hk Hrest]; subst. cbn [fst] in Hk.
    destruct (IH Hrest) as [Hindexed Hrest'].
    cbn [Obj.indexed Obj.named]. rewrite Hk. split; [assumption | now rewrite Hrest']. }
  unfold Obj.entries. destruct Hparts as [-> ->]. reflexivity.
Qed.

End ObjLemmas.

(** *** Computations that return *)

Lemma bind_Ok_inv {A B} (c : M A) (k : A -> M B) (st st' : State) (b : B) :
  bind c k st = (Ok b, st') ->
  exists a st1, c st = (Ok a, st1) /\ k a st1 = (Ok b, st').
Proof.
  unfold bind. destruct (c st) as [[a | e] st1]; [ | discriminate].
  intros H. now exists a, st1.
Qed.

Lemma ret_Ok_inv {A} (a b : A) (st st' : State) :
  ret a st = (Ok b, st') -> b = a /\ st' = st.
Proof. unfold ret. now intros [= -> ->]. Qed.

Lemma mapM_Ok_inv {A B} (f : A -> M B) (l : list A) :
  forall st ys st', mapM f l st = (Ok ys, st') -> Forall2 (ranTo f) l ys.
Proof.
  induction l as [| x rest IH]; intros st ys st' Hrun; simpl in Hrun.
  - apply ret_Ok_inv in Hrun as [-> _]. constructor.
  - apply bind_Ok_inv in Hrun as (y & st1 & Hx & Hrun).
    apply bind_Ok_inv in Hrun as (parts & st2 & Hrest & Hrun).
    apply ret_Ok_inv in Hrun as [-> _].
    constructor; [now exists st, st1 | exact (IH _ _ _ Hrest)].
Qed.

Lemma concatM_Ok_inv {A} (f : A -> M string) (l : list A) (st st' : State)
  (text : string) :
  concatM f l st = (Ok text, st') ->
  exists parts, text = Js.concat parts /\ Forall2 (ranTo f) l parts.
Proof.
  unfold concatM. intros Hrun.
  apply bind_Ok_inv in Hrun as (parts & st1 & Hparts & Hrun).
  apply ret_Ok_inv in Hrun as [-> _].
  exists parts. split; [reflexivity | exact (mapM_Ok_inv _ _ _ Hparts)].
Qed.

Lemma Forall2_ranTo {A B} (f : A -> M B) (P : A -> B -> Prop) (l : list A) (ys : list B) :
  (forall x y st st', f x st = (Ok y, st') -> P x y) ->
  Forall2 (ranTo f) l ys -> Forall2 P l ys.
Proof.
  intros Hf. induction 1 as [| x y l ys (st & st' & Hxy) _ IH]; constructor;
    [exact (Hf _ _ _ _ Hxy) | exact IH].
Qed.

(** *** Parameters *)

Lemma sameLocation_true (a b : option ParameterLocation) :
  sameLocation a b = true <-> a = b.
Proof.
  destruct a as [[ | | | ] | ], b as [[ | | | ] | ]; simpl;
    split; intros H; try reflexivity; discriminate.
Qed.

Lemma locationKey_injective (a b : option ParameterLocation) :
  locationKey a = locationKey b -> a = b.
Proof.
  destruct a as [[ | | | ] | ], b as [[ | | | ] | ]; simpl;
    intros H; try reflexivity; discriminate.
Qed.

Lemma locationKey_own (loc : option ParameterLocation) :
  locationKey loc <> "__proto__" /\ Obj.arrayIndex (locationKey loc) = None.
Proof. destruct loc as [[ | | | ] | ]; split; try reflexivity; discriminate. Qed.

Lemma samePair_true (a b : option ParameterLocation * string) :
  samePair a b = true <-> a = b.
Proof.
  destruct a as [a1 a2], b as [b1 b2]. unfold samePair. simpl.
  rewrite andb_true_iff, sameLocation_true, String.eqb_eq. split.
  - now intros [-> ->].
  - now intros [= -> ->].
Qed.

(** What a parameter does to the table: the field of its name, unless
    the name is [__proto__], under the record of its location. *)
Lemma lookupParameter_set (key : option ParameterLocation * string)
  (loc : option ParameterLocation) (name : string)
  (v : ParamProps) (all : AllParameters) :
  lookupParameter key (setParameter loc name v all)
  = if samePair key (loc, name) && negb (String.eqb name "__proto__")
    then Some v
    else lookupParameter key all.
Proof.
  destruct key as [l n]. unfold lookupParameter, setParameter, samePair.
  cbn [fst snd].
  destruct (locationKey_own loc) as [Hown _].
  destruct (sameLocation l loc) eqn:Hloc; cbn [andb].
  - apply sameLocation_true in Hloc. subst l. rewrite Obj_get_set_same by assumption.
    destruct (String.eqb n name) eqn:Hname; cbn [andb].
    + apply String.eqb_eq in Hname. subst n.
      destruct (String.eqb name "__proto__") eqn:Hproto; cbn [negb].
      * apply String.eqb_eq in Hproto. subst name. rewrite Obj_set_proto.
        now destruct (Obj.get (locationKey loc) all).
      * apply String.eqb_neq in Hproto. now apply Obj_get_set_same.
    + apply String.eqb_neq in Hname. rewrite Obj_get_set_other by assumption.
      now destruct (Obj.get (locationKey loc) all).
  - rewrite Obj_get_set_other; [reflexivity | ].
    intros Heq. apply locationKey_injective in Heq. subst l.
    assert (Hsame : sameLocation loc loc = true) by now apply sameLocation_true.
    congruence.
Qed.

Lemma wellGrouped_empty : wellGrouped [].
Proof. split; constructor. Qed.

Lemma wellGrouped_set (loc : option ParameterLocation) (name : string) (v : ParamProps)
  (all : AllParameters) :
  wellGrouped all -> wellGrouped (setParameter loc name v all).
Proof.
  intros [Hlocs Hnames]. unfold setParameter. split.
  - apply Obj_set_NoDup. exact Hlocs.
  - apply (@Obj_set_Forall _ (fun group => NoDup (keys group))); [ | exact Hnames].
    apply Obj_set_NoDup.
    destruct (Obj.get (locationKey loc) all) as [group | ] eqn:Hget; [ | constructor].
    exact (@Obj_get_Forall _ (fun group => NoDup (keys group)) _ group all
             Hnames Hget).
Qed.

Lemma grouped_wellGrouped (input : Input) (parameters : list ParameterObject) :
  forall all, wellGrouped all -> wellGrouped (grouped input all parameters).
Proof.
  induction parameters as [| p rest IH]; intros all Hwell; simpl; [exact Hwell | ].
  destruct (locationAndName input p) as [[loc name] | ]; [ | exact Hwell].
  apply IH. apply wellGrouped_set. exact Hwell.
Qed.

Lemma grouped_lookup (input : Input) (key : option ParameterLocation * string)
  (parameters : list ParameterObject) :
  snd key <> "__proto__" ->
  Forall (fun p => locationAndName input p <> None) parameters ->
  forall all,
    lookupParameter key (grouped input all parameters)
    = lastContent input key parameters (lookupParameter key all).
Proof.
  intros Hkey.
  induction 1 as [| p rest Hp _ IH]; intros all; simpl; [reflexivity | ].
  destruct (locationAndName input p) as [[loc name] | ]; [ | now elim Hp].
  rewrite IH, lookupParameter_set. f_equal.
  destruct (samePair key (loc, name)) eqn:Hsame; [ | reflexivity].
  apply samePair_true in Hsame. subst key. cbn [snd] in Hkey.
  apply String.eqb_neq in Hkey. now rewrite Hkey.
Qed.

Lemma grouped_keys (input : Input) (parameters : list ParameterObject) :
  Forall (fun p => locationAndName input p <> None) parameters ->
  forall all,
    keys (grouped input all parameters)
    = fold_left (fun seen p =>
                   match locationAndName input p with
                   | Some (loc, _) => StrSet.add (locationKey loc) seen
                   | None => seen
                   end)
                parameters (keys all).
Proof.
  induction 1 as [| p rest Hp _ IH]; intros all; [reflexivity | ].
  cbn [grouped fold_left].
  destruct (locationAndName input p) as [[loc name] | ]; [ | now elim Hp].
  rewrite IH. f_equal. unfold setParameter. rewrite keys_set.
  destruct (locationKey_own loc) as [Hown _].
  apply String.eqb_neq in Hown. now rewrite Hown.
Qed.

Lemma addParameter_run (all : AllParameters) (p : ParameterObject) (st : State)
  (loc : option ParameterLocation) (name : string) :
  locationAndName (st_input st) p = Some (loc, name) ->
  addParameter all p st = (Ok (setParameter loc name (contentOf p) all), st).
Proof.
  destruct p as [r | q]; simpl.
  - unfold bind, getInput. simpl.
    destruct (referencedValue (st_input st) r) as [[l n] | e]; [ | discriminate].
    now intros [= -> <-].
  - now intros [= <- <-].
Qed.

Lemma addParameter_throws (all : AllParameters) (p : ParameterObject) (st : State) :
  locationAndName (st_input st) p = None ->
  addParameter all p st = (Throw TypeError, st).
Proof.
  destruct p as [r | q]; simpl; [ | discriminate].
  unfold bind, getInput. simpl.
  pose proof (referencedValue_TypeError (st_input st) r) as Herror.
  destruct (referencedValue (st_input st) r) as [[l n] | e]; [discriminate | ].
  intros _. now rewrite (Herror e eq_refl).
Qed.

Lemma groupParameters_Ok (parameters : list ParameterObject) (st : State) :
  forall all all' st',
    groupParameters all parameters st = (Ok all', st') ->
    st' = st
    /\ Forall (fun p => locationAndName (st_input st) p <> None) parameters
    /\ all' = grouped (st_input st) all parameters.
Proof.
  induction parameters as [| p rest IH]; intros all all' st' Hrun; simpl in Hrun.
  - apply ret_Ok_inv in Hrun as [-> ->]. repeat split. constructor.
  - apply bind_Ok_inv in Hrun as (all1 & st1 & Hp & Hrest).
    destruct (locationAndName (st_input st) p) as [[loc name] | ] eqn:Hpair.
    + rewrite (addParameter_run all p st Hpair) in Hp. inversion Hp; subst.
      destruct (IH _ _ _ Hrest) as (-> & Hall & ->).
      repeat split.
      * constructor; [congruence | assumption].
      * simpl. now rewrite Hpair.
    + rewrite (addParameter_throws all p st Hpair) in Hp. discriminate.
Qed.

(** The text of the parameters, part by part. *)

Lemma parameterField_text (raw : bool) (comps : Components)
  (entry : string * ParamProps) (text : string) (st st' : State) :
  parameterField raw comps entry st = (Ok text, st') -> parameterText raw entry text.
Proof.
  destruct entry as [paramName [r | q]]; unfold parameterField, parameterText;
    cbn [fst snd]; intros Hrun.
  - apply bind_Ok_inv in Hrun as (req & st1 & _ & Hrun).
    apply ret_Ok_inv in Hrun as [-> _].
    destruct req; [now left | right]. now rewrite append_assoc.
  - apply bind_Ok_inv in Hrun as (t & st1 & Ht & Hrun).
    apply ret_Ok_inv in Hrun as [-> _].
    exists t, st. split; [now rewrite Ht | ]. now rewrite commentOf_described.
Qed.

Lemma locationRecord_text (raw : bool) (comps : Components)
  (entry : string * Obj.t ParamProps) (text : string) (st st' : State) :
  locationRecord raw comps entry st = (Ok text, st') ->
  recordText raw (fst entry) (Obj.entries (snd entry)) text.
Proof.
  destruct entry as [loc locParams]. unfold locationRecord. cbn [fst snd].
  intros Hrun.
  apply bind_Ok_inv in Hrun as (fields & st1 & Hfields & Hrun).
  apply ret_Ok_inv in Hrun as [-> _].
  apply concatM_Ok_inv in Hfields as (parts & -> & Hparts).
  exists parts. split; [ | reflexivity].
  revert Hparts. apply Forall2_ranTo. intros x y s s'. apply parameterField_text.
Qed.

Lemma renderParameters_text (raw : bool) (comps : Components) (all : AllParameters)
  (text : string) (st st' : State) :
  renderParameters raw comps all st = (Ok text, st') ->
  exists records,
    Forall2 (fun (entry : string * Obj.t ParamProps) record =>
               recordText raw (fst entry) (Obj.entries (snd entry)) record)
            (Obj.entries all) records
    /\ text = "parameters: {" ++ Js.nl ++ Js.concat records ++ "}" ++ Js.nl.
Proof.
  unfold renderParameters. intros Hrun.
  apply bind_Ok_inv in Hrun as (recordsText & st1 & Hrecords & Hrun).
  apply ret_Ok_inv in Hrun as [-> _].
  apply concatM_Ok_inv in Hrecords as (records & -> & Hparts).
  exists records. split; [ | reflexivity].
  revert Hparts. apply Forall2_ranTo. intros x y s s'. apply locationRecord_text.
Qed.

Lemma transformParameters_text (raw : bool) (comps : Components)
  (parameters : list ParameterObject) (text : string) (st st' : State) :
  transformParameters raw comps parameters st = (Ok text, st') ->
  Forall (fun p => locationAndName (st_input st) p <> None) parameters
  /\ exists records,
       Forall2 (fun (entry : string * Obj.t ParamProps) record =>
                  recordText raw (fst entry) (Obj.entries (snd entry)) record)
               (Obj.entries (grouped (st_input st) [] parameters)) records
       /\ text = "parameters: {" ++ Js.nl ++ Js.concat records ++ "}" ++ Js.nl.
Proof.
  unfold transformParameters. intros Hrun.
  apply bind_Ok_inv in Hrun as (all & st1 & Hgroup & Hrender).
  apply groupParameters_Ok in Hgroup as (-> & Hresolve & ->).
  split; [assumption | ]. exact (renderParameters_text _ _ _ _ Hrender).
Qed.

(** *** The operations table *)

Lemma concatM_table {A} (f : A -> M string)
  (g : A -> Obj.t OpenAPI3Operation -> Obj.t OpenAPI3Operation) (l : list A) :
  (forall x st r st1, f x st = (Ok r, st1) -> operations st1 = g x (operations st)) ->
  forall st r st',
    concatM f l st = (Ok r, st') ->
    operations st' = fold_left (fun t x => g x t) l (operations st).
Proof.
  intros Hf. induction l as [| x rest IH]; intros st r st' Hrun.
  - rewrite concatM_nil in Hrun. now inversion Hrun.
  - rewrite concatM_cons in Hrun.
    destruct (f x st) as [[y | e] st1] eqn:Hx; [ | discriminate].
    destruct (concatM f rest st1) as [[s | e] st2] eqn:Hrest; [ | discriminate].
    inversion Hrun; subst. simpl.
    rewrite (IH _ _ _ Hrest). now rewrite (Hf _ _ _ _ Hx).
Qed.

Lemma respects_table {A} (c : M A) (st : State) :
  respects sameDocumentAndTable c -> operations (snd (c st)) = operations st.
Proof. intros Hc. now destruct (Hc st) as [[_ Htable] _]. Qed.

Lemma pathField_table (raw : bool) (comps : Components)
  (site : string * OpenAPI3Operation) (st : State) (r : string) (st1 : State) :
  pathField raw comps site st = (Ok r, st1) ->
  operations st1 = register site (operations st).
Proof.
  destruct site as [field operation]. unfold pathField, register. simpl.
  destruct (isMethod field); [ | now intros [= _ <-]].
  destruct (Js.truthy (operationId operation)) as [id | ].
  - unfold bind, setOperation, ret. now intros [= _ <-].
  - intros Hrun.
    pose proof (respects_table st (transformOperation_respects raw comps operation))
      as Htable.
    unfold bind in Hrun.
    destruct (transformOperation raw comps operation st) as [[t | e] st2];
      [ | discriminate].
    unfold ret in Hrun. inversion Hrun; subst. exact Htable.
Qed.

Lemma fold_register_filter (l : list (string * OpenAPI3Operation)) :
  forall table,
    fold_left (fun t site => register site t) l table
    = registerAll (filter (fun site => isMethod (fst site)) l) table.
Proof.
  unfold registerAll.
  induction l as [| site rest IH]; intros table; simpl; [reflexivity | ].
  destruct (isMethod (fst site)) eqn:Hm; simpl; rewrite IH; [reflexivity | ].
  unfold register. now rewrite Hm.
Qed.

Lemma pathEntry_table (raw : bool) (comps : Components)
  (entry : string * PathItem) (st : State) (r : string) (st1 : State) :
  pathEntry raw comps entry st = (Ok r, st1) ->
  operations st1
  = registerAll (filter (fun site => isMethod (fst site)) (pi_fields (snd entry)))
      (operations st).
Proof.
  destruct entry as [path pathItem]. unfold pathEntry. cbn [snd]. intros Hrun.
  unfold bind in Hrun.
  destruct (concatM (pathField raw comps) (pi_fields pathItem) st)
    as [[fields | e] st2] eqn:Hfields; [ | discriminate].
  pose proof (concatM_table (pathField raw comps) register (pi_fields pathItem)
                (pathField_table raw comps) st Hfields) as Htable.
  rewrite fold_register_filter in Htable. rewrite <- Htable.
  destruct (pi_parameters pathItem) as [ps | ].
  - pose proof (respects_table st2 (transformParameters_respects raw comps ps)) as Hsame.
    destruct (transformParameters raw comps ps st2) as [[shared | e] st3];
      [ | discriminate].
    unfold ret in Hrun. inversion Hrun; subst. exact Hsame.
  - unfold ret in Hrun. now inversion Hrun.
Qed.

(** The table after [transformPaths] has returned. *)
Lemma transformPaths_table (raw : bool) (comps : Components) (ps : OpenAPI3Paths)
  (st st' : State) (text : string) :
  transformPaths raw comps ps st = (Ok text, st') ->
  operations st' = registerAll (sites ps) (operations st).
Proof.
  intros Hrun. unfold transformPaths in Hrun.
  pose proof (concatM_table (pathEntry raw comps)
                (fun entry =>
                   registerAll (filter (fun site => isMethod (fst site))
                                       (pi_fields (snd entry))))
                ps (pathEntry_table raw comps) st Hrun) as Htable.
  rewrite Htable. clear. generalize (operations st).
  unfold sites, registerAll.
  induction ps as [| entry rest IH]; intros table; simpl; [reflexivity | ].
  now rewrite fold_left_app, IH.
Qed.

Lemma register_NoDup (site : string * OpenAPI3Operation)
  (table : Obj.t OpenAPI3Operation) :
  NoDup (keys table) -> NoDup (keys (register site table)).
Proof.
  intros Hnd. unfold register. destruct (isMethod (fst site)); [ | assumption].
  destruct (Js.truthy (operationId (snd site))); [ | assumption].
  now apply Obj_set_NoDup.
Qed.

Lemma registerAll_NoDup (l : list (string * OpenAPI3Operation)) :
  forall table, NoDup (keys table) -> NoDup (keys (registerAll l table)).
Proof.
  unfold registerAll.
  induction l as [| site rest IH]; intros table Hnd; simpl; [assumption | ].
  now apply IH, register_NoDup.
Qed.

Lemma sites_are_methods (ps : OpenAPI3Paths) :
  Forall (fun site => isMethod (fst site) = true) (sites ps).
Proof.
  apply Forall_forall. intros site Hin. unfold sites in Hin.
  apply in_flat_map in Hin as [entry [_ Hin]].
  now apply filter_In in Hin.
Qed.

(** The entry of an identifier other than [__proto__] holds the
    operation of the last site that carries it. *)
Lemma registerAll_get (id : string) (l : list (string * OpenAPI3Operation)) :
  id <> "__proto__" ->
  Forall (fun site => isMethod (fst site) = true) l ->
  forall table,
    Obj.get id (registerAll l table) = lastOperation id l (Obj.get id table).
Proof.
  intros Hid. unfold registerAll.
  induction 1 as [| site rest Hm _ IH]; intros table; simpl; [reflexivity | ].
  rewrite IH. f_equal. unfold register. rewrite Hm.
  destruct (Js.truthy (operationId (snd site))) as [id' | ]; [ | reflexivity].
  destruct (String.eqb id id') eqn:Heq.
  - apply String.eqb_eq in Heq. subst id'. now apply Obj_get_set_same.
  - apply String.eqb_neq in Heq. now apply Obj_get_set_other.
Qed.

Lemma componentBlock_inner (raw : bool) (opening closing : string)
  (o : list (string * SchemaObject)) :
  respects sameDocumentAndTable (componentBlock raw opening closing o).
Proof.
  destruct o as [| e rest]; simpl; [apply inner_ret | ].
  apply inner_bind; [apply createKeys_respects | intro; apply inner_ret].
Qed.

(** The text of the paths and of the operations, part by part. *)

Lemma pathField_text (raw : bool) (comps : Components)
  (site : string * OpenAPI3Operation) (text : string) (st st' : State) :
  pathField raw comps site st = (Ok text, st') -> siteText raw comps site text.
Proof.
  destruct site as [field operation]. unfold pathField, siteText. cbn [fst snd].
  destruct (isMethod field); [ | now intros [= <- _]].
  destruct (Js.truthy (operationId operation)) as [id | ]; intros Hrun.
  - apply bind_Ok_inv in Hrun as (u & st1 & _ & Hrun).
    now apply ret_Ok_inv in Hrun as [-> _].
  - apply bind_Ok_inv in Hrun as (t & st1 & Ht & Hrun).
    apply ret_Ok_inv in Hrun as [-> _].
    exists t, st. split; [now rewrite Ht | ]. now rewrite commentOf_described.
Qed.

Lemma pathEntry_text (raw : bool) (comps : Components)
  (entry : string * PathItem) (text : string) (st st' : State) :
  pathEntry raw comps entry st = (Ok text, st') -> pathText raw comps entry text.
Proof.
  destruct entry as [path pathItem]. unfold pathEntry, pathText. cbn [fst snd].
  intros Hrun.
  apply bind_Ok_inv in Hrun as (fields & st1 & Hfields & Hrun).
  apply bind_Ok_inv in Hrun as (shared & st2 & Hshared & Hrun).
  apply ret_Ok_inv in Hrun as [-> _].
  apply concatM_Ok_inv in Hfields as (parts & -> & Hparts).
  exists parts, shared. split; [ | split; [ | reflexivity]].
  - revert Hparts. apply Forall2_ranTo. intros x y s s'. apply pathField_text.
  - destruct (pi_parameters pathItem) as [ps | ].
    + exists st1. now rewrite Hshared.
    + now apply ret_Ok_inv in Hshared as [-> _].
Qed.

Lemma transformPaths_text (raw : bool) (comps : Components) (ps : OpenAPI3Paths)
  (text : string) (st st' : State) :
  transformPaths raw comps ps st = (Ok text, st') ->
  exists pathTexts,
    Forall2 (pathText raw comps) ps pathTexts /\ text = Js.concat pathTexts.
Proof.
  unfold transformPaths. intros Hrun.
  apply concatM_Ok_inv in Hrun as (parts & -> & Hparts).
  exists parts. split; [ | reflexivity].
  revert Hparts. apply Forall2_ranTo. intros x y s s'. apply pathEntry_text.
Qed.

Lemma operationEntry_text (raw : bool) (comps : Components)
  (entry : string * OpenAPI3Operation) (text : string) (st st' : State) :
  operationEntry raw comps entry st = (Ok text, st') ->
  operationText raw comps entry text.
Proof.
  destruct entry as [id operation]. unfold operationEntry, operationText.
  cbn [fst snd]. intros Hrun.
  apply bind_Ok_inv in Hrun as (t & st1 & Ht & Hrun).
  apply ret_Ok_inv in Hrun as [-> _].
  exists t, st. split; [now rewrite Ht | ]. now rewrite commentOf_described.
Qed.

Lemma componentBlock_table (raw : bool) (opening closing : string)
  (o : list (string * SchemaObject)) (st st' : State) (text : string) :
  componentBlock raw opening closing o st = (Ok text, st') ->
  operations st' = operations st.
Proof.
  intros Hrun.
  pose proof (respects_table st (componentBlock_inner raw opening closing o)) as Hsame.
  now rewrite Hrun in Hsame.
Qed.

(** What [generateTypesV3] returns in non-raw mode: the declarations,
    over the texts of the paths and of the entries of the operations
    table, which is the table of the sites of the document. *)
Lemma assemble_text (options : option (SwaggerToTSOptions Mapper)) (input : Input)
  (st st' : State) (text : string) :
  assemble false options input st = (Ok text, st') ->
  exists pathTexts operationTexts,
    declarations input (importText (externalFileKeys st')) pathTexts operationTexts text
    /\ Forall2 (pathText false (componentsOf false input)) (pathsOf input) pathTexts
    /\ Forall2 (operationText false (componentsOf false input))
               (Obj.entries (registerAll (sites (pathsOf input)) (operations st)))
               operationTexts
    /\ operations st' = registerAll (sites (pathsOf input)) (operations st).
Proof.
  unfold assemble. intros Hrun.
  apply bind_Ok_inv in Hrun as (pathsBlock & st1 & Hpaths & Hrun).
  apply bind_Ok_inv in Hrun as (table & st2 & Htable & Hrun).
  inversion Htable; subst table st2; clear Htable.
  apply bind_Ok_inv in Hrun as (ops & st3 & Hops & Hrun).
  apply bind_Ok_inv in Hrun as (params & st4 & Hparams & Hrun).
  apply bind_Ok_inv in Hrun as (schemasBlock & st5 & Hschemas & Hrun).
  apply bind_Ok_inv in Hrun as (resps & st6 & Hresps & Hrun).
  apply bind_Ok_inv in Hrun as (imports & st7 & Himports & Hrun).
  unfold createExternalFileMapping in Himports.
  inversion Himports; subst st7; clear Himports.
  apply ret_Ok_inv in Hrun as [-> ->].
  assert (Hst1 : operations st1 = registerAll (sites (pathsOf input)) (operations st)
                 /\ exists pathTexts,
                      Forall2 (pathText false (componentsOf false input))
                              (pathsOf input) pathTexts
                      /\ pathsBlock
                         = match pathsOf input with
                           | [] => EmptyString
                           | _ :: _ =>
                               "export interface paths {" ++ Js.nl ++ "  "
                               ++ Js.concat pathTexts ++ Js.nl ++ "}" ++ Js.nl ++ Js.nl
                           end).
  { destruct (pathsOf input) as [| e rest] eqn:Hps.
    - apply ret_Ok_inv in Hpaths as [-> ->].
      split; [reflexivity | ]. exists []. split; [constructor | reflexivity].
    - apply bind_Ok_inv in Hpaths as (t & st0 & Ht & Hret).
      apply ret_Ok_inv in Hret as [-> ->].
      split; [exact (transformPaths_table false _ _ st Ht) | ].
      destruct (transformPaths_text _ _ _ _ Ht) as (pathTexts & Hall & ->).
      now exists pathTexts. }
  destruct Hst1 as (Hst1 & pathTexts & Hpathtexts & ->).
  assert (Hst3 : operations st3 = operations st1).
  { assert (Hentry : respects sameDocumentAndTable
                       (concatM (operationEntry false (componentsOf false input))
                                (Obj.entries (operations st1)))).
    { apply inner_concatM. intros [id operation]. simpl.
      apply inner_bind; [apply transformOperation_respects | intro; apply inner_ret]. }
    pose proof (respects_table st1 Hentry) as Hsame.
    now rewrite Hops in Hsame. }
  apply concatM_Ok_inv in Hops as (operationTexts & -> & Hparts).
  exists pathTexts, operationTexts. split; [ | split; [assumption | split]].
  - exists (params ++ schemasBlock ++ resps).
    subst imports. rewrite !append_assoc. reflexivity.
  - rewrite <- Hst1. revert Hparts. apply Forall2_ranTo.
    intros x y s s'. apply operationEntry_text.
  - rewrite <- Hst1, <- Hst3.
    rewrite (componentBlock_table _ _ _ _ _ Hresps).
    rewrite (componentBlock_table _ _ _ _ _ Hschemas).
    exact (componentBlock_table _ _ _ _ _ Hparams).
Qed.

Lemma generate_text (input : Input) (options : option (SwaggerToTSOptions Mapper))
  (text : string) :
  rawSchemaOf options = false ->
  generateTypesV3 input options = Ok text ->
  exists pathTexts operationTexts,
    declarations input (importText (externalFileKeys (finalState input options)))
                 pathTexts operationTexts text
    /\ Forall2 (pathText false (componentsOf false input)) (pathsOf input) pathTexts
    /\ Forall2 (operationText false (componentsOf false input))
               (Obj.entries (operations (finalState input options)))
               operationTexts
    /\ operations (finalState input options)
       = registerAll (sites (pathsOf input)) [].
Proof.
  intros Hraw Hok.
  unfold generateTypesV3, finalState in *. unfold generate in *.
  rewrite Hraw in *. cbn [negb andb] in *.
  destruct (lacksBoth input); [discriminate | ].
  destruct (assemble false options input (initialState input)) as [r st'] eqn:Hrun.
  simpl in Hok. subst r. cbn [snd].
  destruct (assemble_text _ _ _ Hrun)
    as (pathTexts & operationTexts & Htext & Hpaths & Hops & Htable).
  exists pathTexts, operationTexts. rewrite Htable. now repeat split.
Qed.

(** C1, as the code has it: when [generateTypesV3] returns in non-raw
    mode, the text is made of the declarations, and for an identifier
    (other than [__proto__]) that method members of the path items carry,
    the operations block has exactly one entry: the entries of the block
    are the texts, in order, of a list of identifiers and operations in
    which the identifier occurs once, with the operation of the last
    member that carries it in the traversal. In the paths block, every
    method member whose operation has an identifier shows the reference
    [operations["<identifier>"]] and not the expansion of the
    operation. *)
Theorem shared_operationId_registered_once
  (input : Input) (options : option (SwaggerToTSOptions Mapper))
  (text id : string) (op : OpenAPI3Operation)
  (Hraw : rawSchemaOf options = false)
  (Hrun : generateTypesV3 input options = Ok text)
  (Hid : id <> "__proto__")
  (Hlast : lastOperation id (sites (pathsOf input)) None = Some op) :
  exists imports pathTexts entries operationTexts,
    declarations input imports pathTexts operationTexts text
    /\ Forall2 (pathText false (componentsOf false input)) (pathsOf input) pathTexts
    /\ Forall2 (operationText false (componentsOf false input)) entries operationTexts
    /\ In (id, op) entries
    /\ count_occ string_dec (keys entries) id = 1.
Proof.
  destruct (generate_text _ _ Hraw Hrun)
    as (pathTexts & operationTexts & Htext & Hpaths & Hops & Htable).
  exists (importText (externalFileKeys (finalState input options))),
         pathTexts, (Obj.entries (operations (finalState input options))),
         operationTexts.
  repeat (split; [assumption | ]).
  assert (Hget : Obj.get id (operations (finalState input options)) = Some op).
  { rewrite Htable, (registerAll_get Hid (sites_are_methods (pathsOf input))).
    exact Hlast. }
  assert (Hnd : NoDup (keys (operations (finalState input options)))).
  { rewrite Htable. apply registerAll_NoDup. constructor. }
  exact (@Obj_entries_once _ id op _ Hnd Hget).
Qed.

(** ** Further properties *)

(** *** Splitting and joining *)

Lemma append_char (cur : string) (c : ascii) (rest : string) :
  (cur ++ String c EmptyString) ++ rest = cur ++ String c rest.
Proof. now rewrite append_assoc. Qed.

Lemma splitGo_slash_free (s : string) :
  slashFree s = true ->
  forall cur, Js.splitGo "/" 0 cur s = [cur ++ s].
Proof.
  unfold slashFree. induction s as [| c s IH]; intros Hfree cur.
  - simpl. now rewrite append_nil_r.
  - cbn [occurs] in Hfree. apply negb_true_iff, orb_false_iff in Hfree as [Hc Hs].
    cbn [Js.splitGo Js.startsWith]. rewrite Hc. cbn [andb].
    rewrite IH by now rewrite Hs. now rewrite append_char.
Qed.

Lemma splitGo_slash_piece (s rest : string) :
  slashFree s = true ->
  forall cur,
    Js.splitGo "/" 0 cur (s ++ String "/" rest)
    = (cur ++ s) :: Js.splitGo "/" 0 EmptyString rest.
Proof.
  unfold slashFree. induction s as [| c s IH]; intros Hfree cur.
  - cbn [String.append Js.splitGo Js.startsWith]. rewrite Ascii.eqb_refl.
    cbn [andb String.length Nat.sub]. now rewrite append_nil_r.
  - cbn [occurs] in Hfree. apply negb_true_iff, orb_false_iff in Hfree as [Hc Hs].
    cbn [String.append Js.splitGo Js.startsWith]. rewrite Hc. cbn [andb].
    rewrite IH by now rewrite Hs. now rewrite append_char.
Qed.

(** [parts.join("/").split("/")] gives the parts back when none of them
    has a [/] in it. *)
Lemma split_join_slash (segments : list string) :
  segments <> [] ->
  Forall (fun s => slashFree s = true) segments ->
  Js.split "/" (Js.join "/" segments) = segments.
Proof.
  intros Hne Hall. unfold Js.split.
  induction Hall as [| s rest Hs Hrest IH]; [now elim Hne | ].
  destruct rest as [| s' rest'].
  - simpl. now rewrite splitGo_slash_free.
  - change (Js.join "/" (s :: s' :: rest'))
      with (s ++ String "/" (Js.join "/" (s' :: rest'))).
    rewrite splitGo_slash_piece by assumption. simpl (EmptyString ++ s).
    f_equal. apply IH. discriminate.
Qed.

Lemma startsWith_sep_grows (c : ascii) (d q : string) :
  Js.startsWith "#/" (String c d) = false ->
  Js.startsWith "#/" (String c (d ++ String "#" q)) = false.
Proof.
  destruct d as [| b d]; cbn [Js.startsWith String.append]; intros H.
  - change (Ascii.eqb "/" "#") with false. now rewrite andb_false_r.
  - exact H.
Qed.

Lemma splitGo_sep_free (p : string) :
  sepFree p = true ->
  forall cur, Js.splitGo "#/" 0 cur p = [cur ++ p].
Proof.
  induction p as [| c p IH]; intros Hfree cur.
  - simpl. now rewrite append_nil_r.
  - cbn [sepFree] in Hfree. apply andb_true_iff in Hfree as [Hc Hp].
    apply negb_true_iff in Hc. cbn [Js.splitGo]. rewrite Hc.
    rewrite IH by assumption. now rewrite append_char.
Qed.

Lemma splitGo_sep_piece (d p : string) :
  sepFree d = true ->
  forall cur,
    Js.splitGo "#/" 0 cur (d ++ String "#" (String "/" p))
    = (cur ++ d) :: Js.splitGo "#/" 0 EmptyString p.
Proof.
  induction d as [| c d IH]; intros Hfree cur.
  - cbn [String.append Js.splitGo].
    change (Js.startsWith "#/" (String "#" (String "/" p))) with true.
    cbn [String.length Nat.sub Js.splitGo]. now rewrite append_nil_r.
  - cbn [sepFree] in Hfree. apply andb_true_iff in Hfree as [Hc Hd].
    apply negb_true_iff in Hc. cbn [String.append Js.splitGo].
    rewrite (startsWith_sep_grows c d (String "/" p) Hc).
    rewrite IH by assumption. now rewrite append_char.
Qed.

Lemma split_sep_reference (d p : string) :
  sepFree d = true -> sepFree p = true ->
  Js.split "#/" (d ++ String "#" (String "/" p)) = [d; p].
Proof.
  intros Hd Hp. unfold Js.split.
  rewrite splitGo_sep_piece by assumption.
  now rewrite splitGo_sep_free by assumption.
Qed.

Lemma split_sep_bare (d : string) :
  sepFree d = true -> Js.split "#/" d = [d].
Proof. intros Hd. unfold Js.split. now rewrite splitGo_sep_free. Qed.

Lemma isExternalRef_prefix (d rest : string) :
  d <> EmptyString ->
  isExternalRef (d ++ rest) = isExternalRef d.
Proof. destruct d as [| c d]; [now intros H; elim H | reflexivity]. Qed.

(** *** External references *)

(** X1: a reference made of a document name that does not begin with [#],
    of [#/] and of path segments joined by [/] resolves to the lookup
    under [external] by the document key, the name without a final
    [.json], and then by the segments in order, and the document key is
    added to the set of external document keys; nothing else of the state
    changes. *)
Theorem external_reference_with_path (d root : string) (segments : list string)
  (st : State)
  (Hname : d <> EmptyString)
  (Hext : isExternalRef d = true)
  (Hd : sepFree d = true)
  (Hsegments : Forall (fun s => slashFree s = true) segments)
  (Hpath : sepFree (Js.join "/" segments) = true)
  (Hnonempty : Js.join "/" segments <> EmptyString) :
  transformRefType (d ++ "#/" ++ Js.join "/" segments) root st
  = (Ok ("external[" ++ Js.quoted (Js.stripJson d) ++ "]["
         ++ Js.quoted (Js.join (Js.dq ++ "][" ++ Js.dq) segments) ++ "]"),
     withFileKey (Js.stripJson d) st).
Proof.
  change ("#/" ++ Js.join "/" segments)
    with (String "#" (String "/" (Js.join "/" segments))).
  rewrite transformRefType_run. unfold refPath, keysAfter, externalPath, fileKeyOf.
  rewrite isExternalRef_prefix, Hext by assumption.
  rewrite split_sep_reference by assumption. cbn [nth nth_error].
  apply String.eqb_neq in Hnonempty. rewrite Hnonempty. cbn [negb].
  rewrite split_join_slash; [reflexivity | | assumption].
  intros ->. apply String.eqb_neq in Hnonempty. now apply Hnonempty.
Qed.

(** X2: a reference with no [#/] in it, or with nothing after the [#/],
    resolves to the bare lookup under [external] by the document key,
    which is added to the set of external document keys. *)
Theorem external_reference_without_path (d root : string) (st : State)
  (Hext : isExternalRef d = true)
  (Hd : sepFree d = true) :
  transformRefType d root st
  = (Ok ("external[" ++ Js.quoted (Js.stripJson d) ++ "]"), withFileKey (Js.stripJson d) st)
  /\ (d <> EmptyString ->
      transformRefType (d ++ "#/") root st
      = (Ok ("external[" ++ Js.quoted (Js.stripJson d) ++ "]"),
         withFileKey (Js.stripJson d) st)).
Proof.
  split.
  - rewrite transformRefType_run. unfold refPath, keysAfter, externalPath, fileKeyOf.
    rewrite Hext. now rewrite split_sep_bare by assumption.
  - intros Hname. rewrite transformRefType_run.
    unfold refPath, keysAfter, externalPath, fileKeyOf.
    rewrite isExternalRef_prefix, Hext by assumption.
    now rewrite (split_sep_reference d EmptyString Hd eq_refl).
Qed.

Lemma stripJson_suffix (d : string) : Js.stripJson (d ++ ".json") = d.
Proof.
  induction d as [| c d IH]; [reflexivity | ].
  cbn [String.append Js.stripJson].
  destruct (String.eqb_spec (String c (d ++ ".json")) ".json") as [Heq | _].
  - apply (f_equal String.length) in Heq. simpl in Heq.
    assert (Hlen : forall a b, String.length (a ++ b) = String.length a + String.length b).
    { intros a b. induction a as [| x a IHa]; simpl; [reflexivity | now rewrite IHa]. }
    rewrite Hlen in Heq. simpl in Heq. lia.
  - now rewrite IH.
Qed.

(** X3: references to the document [d.json] and to the document [d]
    share one document key, [d]: resolving one of each adds that one key to
    the set of external document keys. *)
Theorem json_suffix_shares_the_key (d p p' root : string) (st : State)
  (Hname : d <> EmptyString)
  (Hext : isExternalRef d = true)
  (Hd : sepFree d = true)
  (Hjson : sepFree (d ++ ".json") = true)
  (Hplain : Js.stripJson d = d)
  (Hp : sepFree p = true)
  (Hp' : sepFree p' = true) :
  fileKeyOf ((d ++ ".json") ++ "#/" ++ p) = d
  /\ fileKeyOf (d ++ "#/" ++ p') = d
  /\ externalFileKeys
       (resolveAll [(d ++ ".json") ++ "#/" ++ p; d ++ "#/" ++ p'] root st)
     = StrSet.add d (externalFileKeys st).
Proof.
  change ("#/" ++ p) with (String "#" (String "/" p)).
  change ("#/" ++ p') with (String "#" (String "/" p')).
  assert (Hkey : fileKeyOf ((d ++ ".json") ++ String "#" (String "/" p)) = d).
  { unfold fileKeyOf. rewrite split_sep_reference by assumption.
    apply stripJson_suffix. }
  assert (Hkey' : fileKeyOf (d ++ String "#" (String "/" p')) = d).
  { unfold fileKeyOf. now rewrite split_sep_reference by assumption. }
  split; [exact Hkey | split; [exact Hkey' | ]].
  cbn [resolveAll]. rewrite !transformRefType_run. cbn [snd externalFileKeys].
  unfold keysAfter.
  rewrite append_assoc, !isExternalRef_prefix, Hext by assumption.
  rewrite <- append_assoc, Hkey, Hkey'.
  unfold StrSet.add at 1.
  now rewrite (proj2 (StrSet_has_In d _) (StrSet_add_In d (externalFileKeys st))).
Qed.

(** *** The cases of [transform] *)

(** X4: for a node that [nodeType] tags [oneOf], [transform] returns the
    union [tsUnionOf] of the texts of the alternatives, in their order; for
    a node tagged [anyOf], the intersection [tsIntersectionOf] of the texts
    of the alternatives, each wrapped by [tsPartial], in their order. *)
Theorem transform_combinators (raw : bool) (node : SchemaObject)
  (nodes : list SchemaObject) (ts : list string)
  (Hts : Forall2 (fun n t => yields (transform raw n) t) nodes ts) :
  (nodeType node = Some TOneOf -> oneOf node = Some nodes ->
   yields (transform raw node) (tsUnionOf (map ItemStr ts)))
  /\ (nodeType node = Some TAnyOf -> anyOf node = Some nodes ->
      yields (transform raw node) (tsIntersectionOf (map tsPartial ts))).
Proof.
  split; intros Htag Hmember; rewrite transform_eq; unfold transformF;
    rewrite Htag, Hmember.
  - apply yields_bind with (a := ts); [now apply yields_mapM | apply yields_ret].
  - apply yields_bind with (a := map tsPartial ts); [ | apply yields_ret].
    apply yields_mapM. clear Htag Hmember.
    induction Hts as [| n t nodes ts Hn _ IH]; simpl; constructor; [ | exact IH].
    apply yields_bind with (a := t); [exact Hn | apply yields_ret].
Qed.

(** X5: for a node tagged [object] that is not an empty object,
    [transform] returns the intersection of, in this order, the texts of
    the [allOf] members, the record of the declared properties when it
    has a field, and the open map for [additionalProperties]; the open map
    is of [any] when the member is [true] or when its schema has the empty
    type. *)
Theorem transform_object (raw : bool) (node : SchemaObject)
  (ts alls adds : list string)
  (Htag : nodeType node = Some TObject)
  (Hfull : isEmptyObject node = false)
  (Hts : typesOf raw (orEmpty (properties node)) ts)
  (Halls : Forall2 (fun n t => yields (transform raw n) t) (orEmpty (allOf node)) alls)
  (Hadds : additionalTexts raw (additionalProperties node) adds) :
  yields (transform raw node)
    (tsIntersectionOf
       (alls
        ++ fieldsRecord
             (Js.concat (fieldsWith (optionalMark (required node))
                                    (orEmpty (properties node)) ts))
        ++ adds)%list).
Proof.
  rewrite transform_eq. unfold transformF. rewrite Htag, Hfull.
  apply yields_bind
    with (a := Js.concat (fieldsWith (optionalMark (required node))
                                     (orEmpty (properties node)) ts)).
  { pose proof (createKeys_yields (required node) Hts) as Hkeys.
    unfold createKeys in Hkeys. now destruct (properties node). }
  apply yields_bind with (a := adds).
  { unfold additionalTexts in Hadds.
    destruct (additionalProperties node) as [[ | a] | ].
    - subst adds. apply yields_ret.
    - destruct Hadds as [t [Ht ->]].
      apply yields_bind with (a := t); [exact Ht | apply yields_ret].
    - subst adds. apply yields_ret. }
  apply yields_bind with (a := alls); [ | apply yields_ret].
  destruct (allOf node); [now apply yields_mapM | ].
  inversion Halls. apply yields_ret.
Qed.

(** X6: a node tagged [object] with no [allOf], no truthy
    [additionalProperties] and no declared property ([properties] absent
    or empty) is the open map of [any], whatever its other members are,
    and the state is left as it was. *)
Theorem transform_empty_object (raw : bool) (node : SchemaObject) (st : State)
  (Htag : nodeType node = Some TObject)
  (Hprops : properties node = None \/ properties node = Some [])
  (Hall : allOf node = None)
  (Hadd : additionalProperties node = None) :
  transform raw node st = (Ok "{ [key: string]: any }", st).
Proof.
  rewrite transform_eq. unfold transformF, isEmptyObject.
  rewrite Htag, Hall, Hadd. now destruct Hprops as [-> | ->].
Qed.

(** *** Invariants of the state

    A relation between states that is reflexive and transitive and that
    the two writes of the generator respect is respected by every closure
    and by the whole call. *)

Section Invariant.

Variable R : State -> State -> Prop.
Hypothesis R_refl : forall st, R st st.
Hypothesis R_trans : forall a b c, R a b -> R b c -> R a c.
Hypothesis R_key : forall k st, R st (snd (addExternalFileKey k st)).
Hypothesis R_operation : forall id op st, R st (snd (setOperation id op st)).

Lemma keeps_ret {A} (a : A) : respects R (ret a).
Proof. now apply respects_ret. Qed.

Lemma keeps_TypeError {A} : respects R (throw (A := A) TypeError).
Proof. now apply respects_TypeError. Qed.

Lemma keeps_bind {A B} (c : M A) (k : A -> M B) :
  respects R c -> (forall a, respects R (k a)) -> respects R (bind c k).
Proof. now apply respects_bind. Qed.

Lemma keeps_mapM {A B} (f : A -> M B) (l : list A) :
  Forall (fun x => respects R (f x)) l -> respects R (mapM f l).
Proof. now apply respects_mapM. Qed.

Lemma keeps_concatM {A} (f : A -> M string) (l : list A) :
  (forall x, respects R (f x)) -> respects R (concatM f l).
Proof. now apply respects_concatM_all. Qed.

Lemma keeps_read {A} (f : State -> A) : respects R (fun st => (Ok (f st), st)).
Proof. intros st. split; [apply R_refl | discriminate]. Qed.

Lemma keeps_transformRefType (ref root : string) :
  respects R (transformRefType ref root).
Proof.
  unfold transformRefType. destruct (isExternalRef ref); [ | apply keeps_ret].
  apply keeps_bind; [ | intro; apply keeps_ret].
  intros st. split; [apply R_key | discriminate].
Qed.

Ltac keep_step :=
  first
    [ apply keeps_ret
    | apply keeps_TypeError
    | apply keeps_transformRefType
    | apply keeps_bind; [ | intro ]
    | assumption ].

Lemma keeps_transform (raw : bool) (node : SchemaObject) :
  respects R (transform raw node)
  /\ respects R (transform raw (valueSchema node)).
Proof.
  induction node as [node Hone Hany Hall Hprops Hadd Hitems Hschema]
    using SchemaObject_nested_ind.
  assert (Hnode : respects R (transform raw node)).
  { rewrite transform_eq. unfold transformF.
    destruct (nodeType node) as [[] | ]; try keep_step.
    - destruct (ref node); keep_step.
    - destruct (enum node); keep_step.
    - destruct (oneOf node) as [nodes | ]; repeat keep_step.
      apply keeps_mapM. simpl in Hone.
      eapply Forall_impl; [ | exact Hone]. now intros n [Hn _].
    - destruct (anyOf node) as [nodes | ]; repeat keep_step.
      apply keeps_mapM. simpl in Hany.
      eapply Forall_impl; [ | exact Hany]. intros n [Hn _]. repeat keep_step.
    - destruct (isEmptyObject node); repeat keep_step.
      + destruct (properties node) as [o | ];
          apply (respects_createKeysF R_refl R_trans).
        * simpl in Hprops. eapply Forall_impl; [ | exact Hprops].
          now intros entry [_ Hv].
        * constructor.
      + destruct (additionalProperties node) as [[ | extra] | ]; repeat keep_step.
        simpl in Hadd. now destruct Hadd.
      + destruct (allOf node) as [nodes | ]; repeat keep_step.
        apply keeps_mapM. simpl in Hall.
        eapply Forall_impl; [ | exact Hall]. now intros n [Hn _].
    - destruct (items node) as [[item | nodes] | ]; repeat keep_step.
      + simpl in Hitems. now destruct Hitems.
      + apply keeps_mapM. simpl in Hitems.
        eapply Forall_impl; [ | exact Hitems]. now intros n [Hn _]. }
  split; [assumption | ].
  unfold valueSchema. destruct (schema node) as [s | ]; [ | assumption].
  simpl in Hschema. now destruct Hschema.
Qed.

Lemma keeps_createKeys (raw : bool) (obj : list (string * SchemaObject))
  (required : option (list string)) :
  respects R (createKeys raw obj required).
Proof.
  apply (respects_createKeysF R_refl R_trans). apply Forall_forall.
  intros entry _. apply keeps_transform.
Qed.

Lemma keeps_addParameter (all : AllParameters) (p : ParameterObject) :
  respects R (addParameter all p).
Proof.
  destruct p as [r | q]; simpl; [ | apply keeps_ret].
  intros st. unfold bind, getInput. simpl.
  pose proof (referencedValue_error (st_input st) r) as Herr.
  destruct (referencedValue (st_input st) r) as [[loc name] | e]; simpl.
  - split; [apply R_refl | discriminate].
  - split; [apply R_refl | congruence].
Qed.

Lemma keeps_transformParameters (raw : bool) (comps : Components)
  (parameters : list ParameterObject) :
  respects R (transformParameters raw comps parameters).
Proof.
  unfold transformParameters. apply keeps_bind.
  { generalize (@nil (string * Obj.t ParamProps)).
    induction parameters as [| p rest IH]; intros all; simpl; [apply keeps_ret | ].
    apply keeps_bind; [apply keeps_addParameter | intros all'; apply IH]. }
  intros all. unfold renderParameters. apply keeps_bind; [ | intro; apply keeps_ret].
  apply keeps_concatM. intros [loc locParams]. simpl.
  apply keeps_bind; [ | intro; apply keeps_ret].
  apply keeps_concatM. intros [paramName [text | q]]; simpl.
  - apply keeps_bind; [ | intro; apply keeps_ret].
    unfold unrefRequired. destruct (unrefComponent comps text) as [[r | q] | ]; keep_step.
  - apply keeps_bind; [apply keeps_transform | intro; apply keeps_ret].
Qed.

Lemma keeps_contentFields (raw : bool) (content : list (string * MediaType)) :
  respects R (contentFields raw content).
Proof.
  unfold contentFields. apply keeps_concatM. intros [contentType media].
  apply keeps_bind; [apply keeps_transform | intro; apply keeps_ret].
Qed.

Lemma keeps_transformOperation (raw : bool) (comps : Components)
  (operation : OpenAPI3Operation) :
  respects R (transformOperation raw comps operation).
Proof.
  unfold transformOperation. apply keeps_bind.
  { destruct (op_parameters operation);
      [apply keeps_transformParameters | apply keeps_ret]. }
  intros params. apply keeps_bind.
  { destruct (requestBody operation) as [rb | ]; [ | apply keeps_ret].
    apply keeps_bind; [apply keeps_contentFields | intro; apply keeps_ret]. }
  intros body. apply keeps_bind; [ | intro; apply keeps_ret].
  unfold responsesBlock. apply keeps_bind; [ | intro; apply keeps_ret].
  apply keeps_concatM. intros [statusCodeString [r | ]]; simpl; [ | apply keeps_ret].
  destruct (r_content r) as [[| c cs] | ]; try apply keeps_ret.
  apply keeps_bind; [apply keeps_contentFields | intro; apply keeps_ret].
Qed.

Lemma keeps_transformPaths (raw : bool) (comps : Components) (ps : OpenAPI3Paths) :
  respects R (transformPaths raw comps ps).
Proof.
  unfold transformPaths. apply keeps_concatM. intros [path pathItem]. simpl.
  apply keeps_bind.
  { apply keeps_concatM. intros [field operation]. simpl.
    destruct (isMethod field); [ | apply keeps_ret].
    destruct (Js.truthy (operationId operation)) as [id | ].
    - apply keeps_bind; [ | intro; apply keeps_ret].
      intros st. split; [apply R_operation | discriminate].
    - apply keeps_bind; [apply keeps_transformOperation | intro; apply keeps_ret]. }
  intros fields. apply keeps_bind; [ | intro; apply keeps_ret].
  destruct (pi_parameters pathItem);
    [apply keeps_transformParameters | apply keeps_ret].
Qed.

Lemma keeps_componentBlock (raw : bool) (opening closing : string)
  (o : list (string * SchemaObject)) :
  respects R (componentBlock raw opening closing o).
Proof.
  destruct o as [| e rest]; simpl; [apply keeps_ret | ].
  apply keeps_bind; [apply keeps_createKeys | intro; apply keeps_ret].
Qed.

Lemma keeps_generate (input : Input) (options : option (SwaggerToTSOptions Mapper)) :
  forall st, R st (snd (generate input options st)).
Proof.
  intros st. unfold generate.
  destruct (negb (rawSchemaOf options) && lacksBoth input); [apply R_refl | ].
  enough (Hall : respects R (assemble (rawSchemaOf options) options input))
    by exact (proj1 (Hall st)).
  clear st. unfold assemble. destruct (rawSchemaOf options).
  - apply keeps_bind; [apply keeps_createKeys | intro; apply keeps_ret].
  - apply keeps_bind.
    { destruct (pathsOf input) as [| e rest]; [apply keeps_ret | ].
      apply keeps_bind; [apply keeps_transformPaths | intro; apply keeps_ret]. }
    intros pathsBlock. apply keeps_bind; [apply (keeps_read (fun st => Obj.entries (operations st))) | ].
    intros table. apply keeps_bind.
    { apply keeps_concatM. intros [id operation]. simpl.
      apply keeps_bind; [apply keeps_transformOperation | intro; apply keeps_ret]. }
    intros ops. apply keeps_bind; [apply keeps_componentBlock | ].
    intros params. apply keeps_bind; [apply keeps_componentBlock | ].
    intros schemasBlock. apply keeps_bind; [apply keeps_componentBlock | ].
    intros resps. apply keeps_bind; [ | intro; apply keeps_ret].
    apply (keeps_read (fun st => externalFileMapping (externalFileKeys st))).
Qed.

End Invariant.

(** When a call of [generateTypesV3] ends, by a return or by a throw,
    no document key is twice in the set of external document keys, so
    that the import text has one binding for each document. *)
Theorem external_keys_never_repeat
  (input : Input) (options : option (SwaggerToTSOptions Mapper)) :
  NoDup (externalFileKeys (finalState input options)).
Proof.
  unfold finalState.
  assert (Hkeeps : forall st,
             NoDup (externalFileKeys st) ->
             NoDup (externalFileKeys (snd (generate input options st)))).
  { apply (@keeps_generate
             (fun st st' => NoDup (externalFileKeys st) -> NoDup (externalFileKeys st'))).
    - auto.
    - auto.
    - intros k st. simpl. apply StrSet_add_NoDup.
    - intros id op st. simpl. auto. }
  apply Hkeeps. constructor.
Qed.

(** When a call of [generateTypesV3] ends, by a return or by a throw,
    no identifier is twice among the entries of the operations table: the
    operations block never declares an identifier twice. *)
Theorem operation_identifiers_never_repeat
  (input : Input) (options : option (SwaggerToTSOptions Mapper)) :
  NoDup (keys (Obj.entries (operations (finalState input options)))).
Proof.
  eapply Permutation_NoDup; [apply Permutation_sym, Obj_entries_keys_perm | ].
  unfold finalState.
  assert (Hkeeps : forall st,
             NoDup (keys (operations st)) ->
             NoDup (keys (operations (snd (generate input options st))))).
  { apply (@keeps_generate
             (fun st st' => NoDup (keys (operations st)) -> NoDup (keys (operations st')))).
    - auto.
    - auto.
    - intros k st. simpl. auto.
    - intros id op st. simpl. apply Obj_set_NoDup. }
  apply Hkeeps. constructor.
Qed.

(** *** The operations table of a document *)

Lemma registerAll_keys (id : string) (l : list (string * OpenAPI3Operation)) :
  Forall (fun site => isMethod (fst site) = true) l ->
  forall table,
    In id (keys (registerAll l table))
    <-> In id (keys table)
        \/ (id <> "__proto__"
            /\ exists site, In site l /\ Js.truthy (operationId (snd site)) = Some id).
Proof.
  unfold registerAll.
  induction 1 as [| site rest Hm _ IH]; intros table; simpl.
  - split; [now left | intros [H | [_ [site [[] _]]]]; exact H].
  - rewrite IH. unfold register. rewrite Hm.
    destruct (Js.truthy (operationId (snd site))) as [id' | ] eqn:Hid.
    + rewrite Obj_set_keys. split.
      * intros [[[-> Hproto] | Hin] | [Hproto [s [Hs Hsid]]]].
        -- right. split; [assumption | ]. exists site. split; [now left | assumption].
        -- now left.
        -- right. split; [assumption | ]. exists s. split; [now right | assumption].
      * intros [Hin | [Hproto [s [[<- | Hs] Hsid]]]].
        -- left. now right.
        -- left. left. split; congruence.
        -- right. split; [assumption | ]. now exists s.
    + split.
      * intros [Hin | [Hproto [s [Hs Hsid]]]]; [now left | ].
        right. split; [assumption | ]. exists s. split; [now right | assumption].
      * intros [Hin | [Hproto [s [[<- | Hs] Hsid]]]]; [now left | congruence | ].
        right. split; [assumption | ]. now exists s.
Qed.

(** X7: when [generateTypesV3] returns in non-raw mode, the text is made
    of the declarations, with an operations block over the texts of a
    list of entries, and an identifier is the key of one of these entries
    exactly when it is not [__proto__] and a member of a path item that is
    named by an HTTP method carries it, not empty, as its
    [operationId]. *)
Theorem operations_table_lists_the_identified_sites
  (input : Input) (options : option (SwaggerToTSOptions Mapper)) (text : string)
  (Hraw : rawSchemaOf options = false)
  (Hok : generateTypesV3 input options = Ok text) :
  exists imports pathTexts entries operationTexts,
    declarations input imports pathTexts operationTexts text
    /\ Forall2 (operationText false (componentsOf false input)) entries operationTexts
    /\ forall id,
         In id (keys entries)
         <-> id <> "__proto__"
             /\ exists site,
                  In site (sites (pathsOf input))
                  /\ Js.truthy (operationId (snd site)) = Some id.
Proof.
  destruct (generate_text _ _ Hraw Hok)
    as (pathTexts & operationTexts & Htext & _ & Hops & Htable).
  exists (importText (externalFileKeys (finalState input options))),
         pathTexts, (Obj.entries (operations (finalState input options))),
         operationTexts.
  split; [assumption | split; [assumption | ]].
  intros id. rewrite Htable. split.
  - intros Hin.
    apply (Permutation_in _ (Obj_entries_keys_perm _)) in Hin.
    apply (registerAll_keys id (sites_are_methods (pathsOf input))) in Hin
      as [[] | Hsite].
    exact Hsite.
  - intros Hsite.
    apply (Permutation_in _ (Permutation_sym (Obj_entries_keys_perm _))).
    apply (registerAll_keys id (sites_are_methods (pathsOf input))). now right.
Qed.

(** *** Members of a path item *)

Lemma concatM_ext {A B} (f : A -> M string) (g : B -> M string) (h : A -> B)
  (l : list A) :
  (forall x st, f x st = g (h x) st) ->
  forall st, concatM f l st = concatM g (map h l) st.
Proof.
  intros Hfg. induction l as [| x rest IH]; intros st; [reflexivity | ].
  cbn [map]. rewrite !concatM_cons, Hfg.
  destruct (g (h x) st) as [[y | e] st1]; [ | reflexivity]. now rewrite IH.
Qed.

Lemma pathFields_methods_only (raw : bool) (comps : Components)
  (fields : list (string * OpenAPI3Operation)) :
  forall st,
    concatM (pathField raw comps) fields st
    = concatM (pathField raw comps)
        (filter (fun site => isMethod (fst site)) fields) st.
Proof.
  induction fields as [| [field operation] rest IH]; intros st; [reflexivity | ].
  cbn [filter fst]. destruct (isMethod field) eqn:Hm.
  - rewrite !concatM_cons.
    destruct (pathField raw comps (field, operation) st) as [[y | e] st1];
      [ | reflexivity].
    now rewrite IH.
  - rewrite concatM_cons. unfold pathField at 1. rewrite Hm.
    unfold ret. rewrite IH.
    now destruct (concatM (pathField raw comps) _ st) as [[s | e] st2].
Qed.

(** X8: a member of a path item that is not [parameters] and that no
    HTTP method names ([summary], [description], [servers], an extension,
    ...) adds nothing to the text and nothing to the operations table:
    [transformPaths] gives the same result and the same state as on the
    paths without such members. The shared [parameters] stay. *)
Theorem non_method_members_are_ignored (raw : bool) (comps : Components)
  (ps : OpenAPI3Paths) (st : State) :
  transformPaths raw comps ps st
  = transformPaths raw comps (map methodsOnly ps) st.
Proof.
  unfold transformPaths. apply concatM_ext. clear st.
  intros [path item] st. unfold pathEntry, methodsOnly. cbn [fst snd withFields].
  unfold bind. now rewrite pathFields_methods_only.
Qed.

(** X9: an operation whose [operationId] is the empty string is treated
    as one without identifier: it is expanded in place, exactly as the
    operation without the member is, and the operations table is left as
    it was. *)
Theorem empty_operationId_is_expanded (raw : bool) (comps : Components)
  (field : string) (operation : OpenAPI3Operation) (st : State)
  (Hid : operationId operation = Some EmptyString) :
  pathField raw comps (field, operation) st
  = pathField raw comps (field, withOperationId operation None) st
  /\ operations (snd (pathField raw comps (field, operation) st)) = operations st.
Proof.
  assert (Heq : pathField raw comps (field, operation) st
                = pathField raw comps (field, withOperationId operation None) st).
  { unfold pathField. rewrite Hid. reflexivity. }
  split; [exact Heq | ].
  unfold pathField. rewrite Hid. cbn [Js.truthy String.eqb].
  destruct (isMethod field); [ | reflexivity].
  apply (respects_table st).
  apply inner_bind; [apply transformOperation_respects | intro; apply inner_ret].
Qed.

(** *** Status keys *)

(** X10: a status key that is a decimal numeral with a zero in front is
    emitted as the key without that zero is: the two keys give the same
    entry of the responses block. *)
Theorem leading_zero_status_key (raw : bool) (key : string)
  (r : option ResponseObject) (st : State)
  (Hkey : numericKey (String "0" key) = true)
  (Hpositive : Js.digitsValue 0 key <> 0%N) :
  responseEntry raw (String "0" key, r) st = responseEntry raw (key, r) st.
Proof.
  assert (Hcode : statusCodeOf (String "0" key) = statusCodeOf key).
  { pose proof Hkey as Hnumeric.
    unfold numericKey in Hkey. apply andb_true_iff in Hkey as [Hkey Hlength].
    apply andb_true_iff in Hkey as [Hdigits _].
    cbn [Js.allDigits] in Hdigits. apply andb_true_iff in Hdigits as [_ Hdigits].
    destruct (statusNumber_numeric _ Hnumeric) as [Hzero _].
    assert (Hshort : numericKey key = true).
    { unfold numericKey. rewrite Hdigits. cbn [andb].
      apply andb_true_iff; split.
      - destruct key; [now elim Hpositive | reflexivity].
      - apply Nat.leb_le. apply Nat.leb_le in Hlength. cbn [String.length] in Hlength.
        lia. }
    destruct (statusNumber_numeric _ Hshort) as [Hkey' _].
    unfold statusNumber in Hzero, Hkey'.
    change (Js.digitsValue 0 (String "0" key)) with (Js.digitsValue 0 key) in Hzero.
    unfold statusCodeOf. rewrite Hzero, Hkey'.
    assert (Htruthy : Js.truthyNumber (Js.ofInteger (Js.digitsValue 0 key)) = true).
    { unfold Js.ofInteger, Js.truthyNumber. apply negb_true_iff, Z.eqb_neq. lia. }
    now rewrite Htruthy. }
  unfold responseEntry. now rewrite Hcode.
Qed.

(** *** Parameter references *)

Lemma referencedValue_component (input : Input) (n : string) :
  slashFree n = true ->
  Js.isInherited n = false ->
  referencedValue input ("#/components/parameters/" ++ n)
  = match componentParameter input n with
    | Some (InlineParameter p) => Ok (Some (in_ p), Some (name p))
    | Some (RefParameter _) => Ok (None, None)
    | None => Throw TypeError
    end.
Proof.
  intros Hfree Hown. unfold referencedValue, componentParameter.
  change (Js.substr 2 ("#/components/parameters/" ++ n))
    with ("components" ++ String "/" ("parameters" ++ String "/" n)).
  unfold Js.split.
  rewrite (splitGo_slash_piece "components" _ eq_refl).
  rewrite (splitGo_slash_piece "parameters" _ eq_refl).
  rewrite (splitGo_slash_free n Hfree).
  cbn [String.append andb String.eqb Ascii.eqb Bool.eqb].
  destruct (components (asDocument input)) as [c | ]; [ | reflexivity].
  destruct (c_parameters c) as [ps | ]; [ | reflexivity].
  destruct (Obj.get n ps) as [[r | p] | ]; try reflexivity.
  now rewrite Hown.
Qed.

Lemma groupParameters_unresolved (parameters : list ParameterObject) (st : State) :
  (exists p, In p parameters /\ locationAndName (st_input st) p = None) ->
  forall all, groupParameters all parameters st = (Throw TypeError, st).
Proof.
  induction parameters as [| p rest IH]; intros [q [Hin Hq]] all; [destruct Hin | ].
  cbn [groupParameters]. unfold bind.
  destruct (locationAndName (st_input st) p) as [[loc name] | ] eqn:Hp.
  - rewrite (addParameter_run all p st Hp). apply IH.
    destruct Hin as [-> | Hin]; [congruence | now exists q].
  - now rewrite (addParameter_throws all p st Hp).
Qed.

(** X11: a parameter list that holds a reference
    [#/components/parameters/<name>] to a name that the document's
    [components.parameters] does not have (or when the document has no
    such map), and that is not the name of a member that every object
    inherits ([constructor], [toString], ...), makes
    [transformParameters] throw a [TypeError], wherever the reference
    stands in the list; the state is left as it was. *)
Theorem unresolved_parameter_reference (raw : bool) (comps : Components)
  (parameters : list ParameterObject) (n : string) (st : State)
  (Hin : In (RefParameter ("#/components/parameters/" ++ n)) parameters)
  (Hname : slashFree n = true)
  (Hown : Js.isInherited n = false)
  (Hmissing : componentParameter (st_input st) n = None) :
  transformParameters raw comps parameters st = (Throw TypeError, st).
Proof.
  unfold transformParameters, bind.
  rewrite groupParameters_unresolved; [reflexivity | ].
  exists (RefParameter ("#/components/parameters/" ++ n)). split; [exact Hin | ].
  cbn [locationAndName]. rewrite referencedValue_component by assumption.
  now rewrite Hmissing.
Qed.

(** *** References inside the document *)

(** X12: for a node tagged [ref] whose reference begins with [#],
    [transform] returns what [transformRef] makes of the reference, under
    the root [schemas/] in raw-schema mode and under the empty root
    otherwise; no document key is registered and the state is left as it
    was. *)
Theorem internal_reference (raw : bool) (node : SchemaObject) (r : string) (st : State)
  (Htag : nodeType node = Some TRef)
  (Href : ref node = Some r)
  (Hinternal : Js.startsWith "#" r = true) :
  transform raw node st
  = (Ok (transformRef r (if raw then "schemas/" else EmptyString)), st).
Proof.
  rewrite transform_eq. unfold transformF. rewrite Htag, Href.
  unfold transformRefType, isExternalRef. now rewrite Hinternal.
Qed.

(** *** The text of the imports *)

(** X13: when [generateTypesV3] returns in non-raw mode, the text opens
    with the import text of the external document keys collected during
    the call: nothing when there is none; otherwise one line
    [import { schemas as external$i } from "./<key>"] for each key, an
    empty line, the type [external] with one line ["<key>": external$i]
    for each key, and an empty line, where [i] is the position of the key
    in the set, from 0. No key is listed twice. The declarations
    follow. *)
Theorem import_text_by_position
  (input : Input) (options : option (SwaggerToTSOptions Mapper)) (text : string)
  (Hraw : rawSchemaOf options = false)
  (Hok : generateTypesV3 input options = Ok text) :
  exists pathTexts operationTexts,
    declarations input (importText (externalFileKeys (finalState input options)))
                 pathTexts operationTexts text
    /\ NoDup (externalFileKeys (finalState input options)).
Proof.
  destruct (generate_text _ _ Hraw Hok)
    as (pathTexts & operationTexts & Htext & _ & _ & _).
  exists pathTexts, operationTexts. split; [assumption | ].
  apply external_keys_never_repeat.
Qed.

(** *** The order of the operations block *)

Lemma registerAll_keys_in_order (l : list (string * OpenAPI3Operation)) :
  Forall (fun site => isMethod (fst site) = true) l ->
  forall table,
    keys (registerAll l table)
    = fold_left (fun seen site =>
                   match Js.truthy (operationId (snd site)) with
                   | Some id => if String.eqb id "__proto__" then seen
                                else StrSet.add id seen
                   | None => seen
                   end)
                l (keys table).
Proof.
  unfold registerAll.
  induction 1 as [| site rest Hm _ IH]; intros table; [reflexivity | ].
  cbn [fold_left]. rewrite IH. f_equal. unfold register. rewrite Hm.
  destruct (Js.truthy (operationId (snd site))); [apply keys_set | reflexivity].
Qed.

(** X14: when [generateTypesV3] returns in non-raw mode and no identifier
    of the document is an array index (a canonical decimal numeral below
    2^32 - 1), the operations block is made of the texts of one entry for
    each identifier, other than [__proto__], of the method members of the
    path items, each once, in the order in which the traversal first meets
    them. *)
Theorem operations_in_order_of_first_use
  (input : Input) (options : option (SwaggerToTSOptions Mapper)) (text : string)
  (Hraw : rawSchemaOf options = false)
  (Hok : generateTypesV3 input options = Ok text)
  (Hnamed : Forall (fun id => Obj.arrayIndex id = None)
                   (identifiersInOrder (sites (pathsOf input)))) :
  exists imports pathTexts entries operationTexts,
    declarations input imports pathTexts operationTexts text
    /\ Forall2 (operationText false (componentsOf false input)) entries operationTexts
    /\ keys entries = identifiersInOrder (sites (pathsOf input)).
Proof.
  destruct (generate_text _ _ Hraw Hok)
    as (pathTexts & operationTexts & Htext & _ & Hops & Htable).
  exists (importText (externalFileKeys (finalState input options))),
         pathTexts, (Obj.entries (operations (finalState input options))),
         operationTexts.
  split; [assumption | split; [assumption | ]].
  rewrite Htable.
  pose proof (registerAll_keys_in_order (sites_are_methods (pathsOf input)) [])
    as Hkeys.
  change (fold_left _ (sites (pathsOf input)) (keys []))
    with (identifiersInOrder (sites (pathsOf input))) in Hkeys.
  rewrite entries_of_named; [exact Hkeys | ]. now rewrite Hkeys.
Qed.

(** *** A document with nothing to declare *)

(** X15: in non-raw mode, for a document that has one of [paths] and
    [components] but no path, no schema after the property mapper, no
    component parameter and no component response, [generateTypesV3]
    returns the empty operations block followed by the empty components
    block, and the state is left as it was at the start. *)
Theorem nothing_to_declare
  (input : Input) (options : option (SwaggerToTSOptions Mapper))
  (Hraw : rawSchemaOf options = false)
  (Hsome : lacksBoth input = false)
  (Hpaths : pathsOf input = [])
  (Hschemas : propertyMappedOf options (componentsOf false input) = [])
  (Hparameters : noEntries (c_parameters (componentsOf false input)))
  (Hresponses : noEntries (c_responses (componentsOf false input))) :
  generateTypesV3 input options
  = Ok ("export interface operations {" ++ Js.nl ++ Js.nl ++ "}" ++ Js.nl ++ Js.nl
        ++ "export interface components {" ++ Js.nl ++ Js.nl ++ "}")
  /\ finalState input options = initialState input.
Proof.
  unfold generateTypesV3, finalState, generate.
  rewrite Hraw, Hsome. cbn [negb andb]. unfold assemble.
  rewrite Hpaths, Hschemas.
  destruct Hparameters as [-> | ->], Hresponses as [-> | ->]; split; reflexivity.
Qed.

(** *** The records of the parameters *)

Lemma locationsInOrder_keys (input : Input) (parameters : list ParameterObject) :
  forall seen,
    Forall (fun k => Obj.arrayIndex k = None) seen ->
    Forall (fun k => Obj.arrayIndex k = None)
           (fold_left (fun seen p =>
                         match locationAndName input p with
                         | Some (loc, _) => StrSet.add (locationKey loc) seen
                         | None => seen
                         end)
                      parameters seen).
Proof.
  induction parameters as [| p rest IH]; intros seen Hseen; [assumption | ].
  cbn [fold_left]. apply IH.
  destruct (locationAndName input p) as [[loc name] | ]; [ | assumption].
  unfold StrSet.add. destruct (StrSet.has (locationKey loc) seen); [assumption | ].
  apply Forall_app. split; [assumption | ].
  constructor; [apply locationKey_own | constructor].
Qed.

Lemma Forall2_map_left {A B C} (f : A -> B) (P : B -> C -> Prop) (l : list A)
  (l' : list C) :
  Forall2 (fun x y => P (f x) y) l l' -> Forall2 P (map f l) l'.
Proof. induction 1; simpl; constructor; assumption. Qed.

(** The table of a parameter list as [Object.entries] shows it: the
    records in the order of their first parameter, each with its fields. *)
Lemma transformParameters_table (raw : bool) (comps : Components)
  (parameters : list ParameterObject) (text : string) (st st' : State) :
  transformParameters raw comps parameters st = (Ok text, st') ->
  exists records,
    text = "parameters: {" ++ Js.nl ++ Js.concat records ++ "}" ++ Js.nl
    /\ Forall2 (fun (entry : string * list (string * ParamProps)) record =>
                  recordText raw (fst entry) (snd entry) record)
               (map (fun entry : string * Obj.t ParamProps =>
                       (fst entry, Obj.entries (snd entry)))
                    (grouped (st_input st) [] parameters))
               records
    /\ keys (grouped (st_input st) [] parameters)
       = locationsInOrder (st_input st) parameters
    /\ Forall (fun p => locationAndName (st_input st) p <> None) parameters.
Proof.
  intros Hrun.
  destruct (transformParameters_text _ _ _ _ Hrun) as (Hresolve & records & Hall & ->).
  pose proof (@grouped_keys (st_input st) parameters Hresolve []) as Hkeys.
  change (fold_left _ parameters (keys []))
    with (locationsInOrder (st_input st) parameters) in Hkeys.
  rewrite entries_of_named in Hall.
  - exists records. split; [reflexivity | split; [ | split; assumption]].
    now apply Forall2_map_left.
  - rewrite Hkeys. apply locationsInOrder_keys. constructor.
Qed.

(** X16: when [transformParameters] returns, the text is the line
    [parameters: {], one record for each location of the list (the
    quoted location, and between braces its fields), each location once
    and in the order in which the list first has it, and the closing
    brace. *)
Theorem parameter_locations_in_order (raw : bool) (comps : Components)
  (parameters : list ParameterObject) (text : string) (st st' : State)
  (Hrun : transformParameters raw comps parameters st = (Ok text, st')) :
  exists records,
    text = "parameters: {" ++ Js.nl ++ Js.concat records ++ "}" ++ Js.nl
    /\ Forall2 (fun loc record => exists entries, recordText raw loc entries record)
               (locationsInOrder (st_input st) parameters) records.
Proof.
  destruct (transformParameters_table _ _ _ _ Hrun)
    as (records & -> & Hall & Hkeys & _).
  exists records. split; [reflexivity | ].
  rewrite <- Hkeys. unfold keys.
  apply Forall2_map_left.
  remember (grouped (st_input st) [] parameters) as all eqn:Hall'.
  clear Hall' Hkeys Hrun. revert records Hall.
  induction all as [| [loc group] rest IH]; intros records Hall;
    inversion Hall; subst; constructor.
  - now exists (Obj.entries group).
  - now apply IH.
Qed.

(** X18: when [transformParameters] returns, for a location and a name,
    other than [__proto__], that parameters of the list have (a
    referenced parameter under the location and name of what it refers
    to), the record of the location is there once and has exactly one
    field for the name, made of the last of these parameters: the records
    are the texts, in order, of a table in which the location occurs
    once, with a list of fields in which the name occurs once, with the
    content of that parameter. *)
Theorem last_parameter_is_the_field (raw : bool) (comps : Components)
  (parameters : list ParameterObject) (text : string) (st st' : State)
  (loc : option ParameterLocation) (name : string) (content : ParamProps)
  (Hrun : transformParameters raw comps parameters st = (Ok text, st'))
  (Hname : name <> "__proto__")
  (Hlast : lastContent (st_input st) (loc, name) parameters None = Some content) :
  exists table records entries,
    text = "parameters: {" ++ Js.nl ++ Js.concat records ++ "}" ++ Js.nl
    /\ Forall2 (fun (entry : string * list (string * ParamProps)) record =>
                  recordText raw (fst entry) (snd entry) record)
               table records
    /\ In (locationKey loc, entries) table
    /\ count_occ string_dec (keys table) (locationKey loc) = 1
    /\ In (name, content) entries
    /\ count_occ string_dec (keys entries) name = 1.
Proof.
  destruct (transformParameters_table _ _ _ _ Hrun)
    as (records & -> & Hall & Hkeys & Hresolve).
  pose proof (grouped_wellGrouped (st_input st) parameters wellGrouped_empty)
    as [Hlocs Hnames].
  pose proof (@grouped_lookup (st_input st) (loc, name) parameters Hname Hresolve [])
    as Hlookup.
  change (lookupParameter (loc, name) []) with (@None ParamProps) in Hlookup.
  rewrite Hlast in Hlookup.
  unfold lookupParameter in Hlookup. cbn [fst snd] in Hlookup.
  set (all := grouped (st_input st) [] parameters) in Hall, Hlocs, Hnames, Hlookup |- *.
  destruct (Obj.get (locationKey loc) all) as [group | ] eqn:Hgroup; [ | discriminate].
  exists (map (fun entry : string * Obj.t ParamProps =>
                 (fst entry, Obj.entries (snd entry))) all),
         records, (Obj.entries group).
  destruct (@Obj_entries_once _ name content group
              (@Obj_get_Forall _ (fun g => NoDup (keys g)) _ group all Hnames Hgroup)
              Hlookup)
    as [Hin' Hcount'].
  split; [reflexivity | split; [assumption | split; [ | split; [ | split]]]];
    try assumption.
  - apply Obj_get_In in Hgroup.
    exact (in_map (fun entry : string * Obj.t ParamProps =>
                     (fst entry, Obj.entries (snd entry))) all _ Hgroup).
  - unfold keys. rewrite map_map. cbn [fst].
    apply NoDup_count_occ'; [exact Hlocs | ].
    apply Obj_get_In in Hgroup.
    exact (in_map fst all _ Hgroup).
Qed.

Lemma setParameter_no_proto (loc : option ParameterLocation) (name : string)
  (v : ParamProps) (all : AllParameters) :
  Forall (fun entry => ~ In "__proto__" (keys (snd entry))) all ->
  Forall (fun entry => ~ In "__proto__" (keys (snd entry))) (setParameter loc name v all).
Proof.
  intros Hall. unfold setParameter.
  apply (@Obj_set_Forall _ (fun group => ~ In "__proto__" (keys group)));
    [ | exact Hall].
  intros Hin.
  apply Obj_set_keys in Hin as [[Heq Hproto] | Hin]; [elim Hproto; now symmetry | ].
  destruct (Obj.get (locationKey loc) all) as [group | ] eqn:Hget; [ | exact Hin].
  exact (@Obj_get_Forall _ (fun group => ~ In "__proto__" (keys group)) _ group all
           Hall Hget Hin).
Qed.

Lemma grouped_no_proto (input : Input) (parameters : list ParameterObject) :
  forall all,
    Forall (fun entry => ~ In "__proto__" (keys (snd entry))) all ->
    Forall (fun entry => ~ In "__proto__" (keys (snd entry)))
           (grouped input all parameters).
Proof.
  induction parameters as [| p rest IH]; intros all Hall; simpl; [exact Hall | ].
  destruct (locationAndName input p) as [[loc name] | ]; [ | exact Hall].
  apply IH. apply setParameter_no_proto. exact Hall.
Qed.

(** X19: when [transformParameters] returns, no record of the text has a
    field for the name [__proto__], whatever parameters of that name the
    list has: the records are the texts, in order, of a table in which
    no list of fields has that name. *)
Theorem proto_parameter_is_never_emitted (raw : bool) (comps : Components)
  (parameters : list ParameterObject) (text : string) (st st' : State)
  (Hrun : transformParameters raw comps parameters st = (Ok text, st')) :
  exists table records,
    text = "parameters: {" ++ Js.nl ++ Js.concat records ++ "}" ++ Js.nl
    /\ Forall2 (fun (entry : string * list (string * ParamProps)) record =>
                  recordText raw (fst entry) (snd entry) record)
               table records
    /\ Forall (fun entry : string * list (string * ParamProps) =>
                 ~ In "__proto__" (keys (snd entry)))
              table.
Proof.
  destruct (transformParameters_table _ _ _ _ Hrun)
    as (records & -> & Hall & _ & _).
  exists (map (fun entry : string * Obj.t ParamProps =>
                 (fst entry, Obj.entries (snd entry)))
              (grouped (st_input st) [] parameters)),
         records.
  split; [reflexivity | split; [exact Hall | ]].
  apply Forall_map.
  pose proof (grouped_no_proto (st_input st) parameters (Forall_nil _)) as Hnone.
  revert Hnone. apply Forall_impl. intros [loc group] Hgroup Hin. cbn [snd] in *.
  apply Hgroup. revert Hin. apply Permutation_in. apply Obj_entries_keys_perm.
Qed.

(** *** Responses with content *)

(** X17: a response with a content map that has a key is emitted, for
    every status key, as the comment of its description, its status (the
    number that the key is, as [String] writes it, when there is such a
    number and it is not zero, and the key itself otherwise) and the
    record of its content types, in the order of the map, each with the
    type of its schema; this is so for every status, 204 and 3xx
    included. *)
Theorem response_with_content (raw : bool) (key : string) (r : ResponseObject)
  (content : list (string * MediaType)) (ts : list string)
  (Hcontent : r_content r = Some content)
  (Hkeys : content <> [])
  (Hts : contentTypes raw content ts) :
  yields (responseEntry raw (key, Some r))
    (described (r_description r)
     ++ emittedStatus key ++ ": {" ++ Js.nl
     ++ Js.concat (contentTexts content ts) ++ "}" ++ Js.nl).
Proof.
  apply responseText_yields. unfold responseText.
  exists ("{" ++ Js.nl ++ Js.concat (contentTexts content ts) ++ "}" ++ Js.nl).
  split; [reflexivity | ]. rewrite Hcontent.
  destruct content as [| c cs]; [now elim Hkeys | ]. now exists ts.
Qed.
End Generator.

(** ** The generator on the sample documents

    The closures, with the helpers of [Utils]. *)

Abbreviation transform_ :=
  (@transform Utils.comment Utils.nodeType Utils.transformRef Utils.tsArrayOf
     Utils.tsIntersectionOf Utils.tsPartial Utils.tsUnionOf Utils.tsTupleOf).

Abbreviation responseEntry_ :=
  (@responseEntry Utils.comment Utils.nodeType Utils.transformRef Utils.tsArrayOf
     Utils.tsIntersectionOf Utils.tsPartial Utils.tsUnionOf Utils.tsTupleOf
     Utils.engineNumber Utils.engineString).

Abbreviation transformParameters_ :=
  (@transformParameters Utils.comment Utils.nodeType Utils.transformRef Utils.tsArrayOf
     Utils.tsIntersectionOf Utils.tsPartial Utils.tsUnionOf Utils.tsTupleOf
     Utils.unrefComponent Utils.memberAt).

Abbreviation transformOperation_ :=
  (@transformOperation Utils.comment Utils.nodeType Utils.transformRef Utils.tsArrayOf
     Utils.tsIntersectionOf Utils.tsPartial Utils.tsUnionOf Utils.tsTupleOf
     Utils.unrefComponent Utils.engineNumber Utils.engineString Utils.memberAt).

Abbreviation pathText_ :=
  (@pathText Utils.comment Utils.nodeType Utils.transformRef Utils.tsArrayOf
     Utils.tsIntersectionOf Utils.tsPartial Utils.tsUnionOf Utils.tsTupleOf
     Utils.unrefComponent Utils.engineNumber Utils.engineString Utils.memberAt).

Abbreviation operationText_ :=
  (@operationText Utils.comment Utils.nodeType Utils.transformRef Utils.tsArrayOf
     Utils.tsIntersectionOf Utils.tsPartial Utils.tsUnionOf Utils.tsTupleOf
     Utils.unrefComponent Utils.engineNumber Utils.engineString Utils.memberAt).

Abbreviation recordText_ :=
  (@recordText Utils.comment Utils.nodeType Utils.transformRef Utils.tsArrayOf
     Utils.tsIntersectionOf Utils.tsPartial Utils.tsUnionOf Utils.tsTupleOf).

Abbreviation generateTypesV3_ :=
  (@generateTypesV3 Utils.comment Utils.nodeType Utils.transformRef Utils.tsArrayOf
     Utils.tsIntersectionOf Utils.tsPartial Utils.tsUnionOf Utils.tsTupleOf
     Utils.unrefComponent Utils.Mapper Utils.propertyMapper
     Utils.engineNumber Utils.engineString Utils.memberAt).

Abbreviation finalState_ :=
  (@finalState Utils.comment Utils.nodeType Utils.transformRef Utils.tsArrayOf
     Utils.tsIntersectionOf Utils.tsPartial Utils.tsUnionOf Utils.tsTupleOf
     Utils.unrefComponent Utils.Mapper Utils.propertyMapper
     Utils.engineNumber Utils.engineString Utils.memberAt).

Abbreviation state0 := (initialState Examples.emptyDocument).

(** The [Pet] record of a components document: [id] required and
    numeric, [name] optional and a string. *)
Example pet_components_block :
  generateTypesV3_ Examples.petDocument None
  = Ok ("export interface operations {" ++ Js.nl ++ Js.nl ++ "}" ++ Js.nl ++ Js.nl
        ++ "export interface components {" ++ Js.nl
        ++ "schemas: {" ++ Js.nl ++ "  "
        ++ Js.quoted "Pet" ++ ": ({ "
        ++ Js.quoted "id" ++ ": number;" ++ Js.nl
        ++ Js.quoted "name" ++ "?: string;" ++ Js.nl
        ++ " });" ++ Js.nl
        ++ Js.nl ++ "}" ++ Js.nl ++ "}").
Proof. reflexivity. Qed.

(** C5: the enum member that is a backslash followed by a quote contains
    a quote character, and the text emitted for it, a quote, two
    backslashes and two quotes, is not one string literal: the second
    backslash is escaped by the first, the quote after them closes the
    literal, and the last quote is left over. [transform] returns the union
    of that text. *)
Theorem enum_backslash_quote_not_a_literal :
  occurs Js.quote "\'" = true
  /\ enumMember (EStr "\'") = ItemStr "'\\''"
  /\ isStringLiteral "'\\''" = false
  /\ transform_ false Examples.backslashQuoteEnum state0 = (Ok "('\\'')", state0).
Proof. repeat split. Qed.

(** The reference of the specification, ["other.json#/Widget"], and a
    second reference to the same document. *)
Lemma transformRefType_pure_and_registers_once_witness :
  NoDup (externalFileKeys state0)
  /\ fst (transformRefType Utils.transformRef "other.json#/Widget" "" state0)
     = Ok ("external[" ++ Js.quoted "other" ++ "][" ++ Js.quoted "Widget" ++ "]")
  /\ count_occ string_dec
       (externalFileKeys
          (resolveAll Utils.transformRef
             ["other.json#/Widget"; "other.json#/Gadget"; "other.json#/Widget"] ""
             state0))
       "other" = 1.
Proof.
  assert (Hset : NoDup (externalFileKeys state0)) by constructor.
  pose proof (@transformRefType_pure_and_registers_once Utils.transformRef
                "other.json#/Widget" ""
                ["other.json#/Widget"; "other.json#/Gadget"; "other.json#/Widget"]
                state0 state0 Hset) as [Hpath [_ [_ Honce]]].
  split; [exact Hset | split].
  - exact Hpath.
  - apply Honce; [now left | reflexivity].
Defined.

Lemma transform_array_witness :
  Utils.nodeType Examples.tupleNode = Some TArray
  /\ yields (transform_ false Examples.tupleNode) (Utils.tsTupleOf ["string"; "number"]).
Proof.
  split; [reflexivity | ].
  refine (proj1 (@transform_array Utils.comment Utils.nodeType Utils.transformRef
                   Utils.tsArrayOf Utils.tsIntersectionOf Utils.tsPartial
                   Utils.tsUnionOf Utils.tsTupleOf false Examples.tupleNode eq_refl
                   ["string"; "number"] _)).
  repeat constructor.
Defined.

Lemma InvalidDocumentShape_iff_neither_member_witness :
  rawSchemaOf (@None (SwaggerToTSOptions Utils.Mapper)) = false
  /\ generateTypesV3_ Examples.emptyDocument None = Throw InvalidDocumentShape
  /\ generateTypesV3_ Examples.petsDocument None <> Throw InvalidDocumentShape.
Proof.
  split; [reflexivity | split].
  - refine (proj1 (proj1 (@InvalidDocumentShape_iff_neither_member Utils.comment
                            Utils.nodeType Utils.transformRef Utils.tsArrayOf
                            Utils.tsIntersectionOf Utils.tsPartial Utils.tsUnionOf
                            Utils.tsTupleOf Utils.unrefComponent Utils.Mapper
                            Utils.propertyMapper Utils.engineNumber Utils.engineString
                            Utils.memberAt Examples.emptyDocument None eq_refl)
                     _)).
    split; reflexivity.
  - refine (proj2 (@InvalidDocumentShape_iff_neither_member Utils.comment
                     Utils.nodeType Utils.transformRef Utils.tsArrayOf
                     Utils.tsIntersectionOf Utils.tsPartial Utils.tsUnionOf
                     Utils.tsTupleOf Utils.unrefComponent Utils.Mapper
                     Utils.propertyMapper Utils.engineNumber Utils.engineString
                     Utils.memberAt Examples.petsDocument None eq_refl)
              _).
    left. discriminate.
Defined.


(** C7: for the two parameters named [__proto__] in the query, the last
    parameter with that location and name is there, and the text that
    [transformParameters] returns has the record of the query with no
    field in it: neither parameter is emitted. (The assignment
    [allParameters["query"]["__proto__"] = p] sets the prototype of the
    record and adds no key to it.) *)
Theorem parameter_named_proto_has_no_field :
  lastContent Utils.transformRef Utils.memberAt (st_input state0)
    (Some InQuery, "__proto__") twoProtos None
  = Some (Props (protoParameter Examples.numberNode))
  /\ transformParameters_ false Examples.noComponents twoProtos state0
     = (Ok ("parameters: {" ++ Js.nl
            ++ Js.quoted "query" ++ ": {" ++ Js.nl ++ "}" ++ Js.nl
            ++ "}" ++ Js.nl),
        state0).
Proof. split; reflexivity. Qed.

Lemma raw_schema_output_witness :
  rawSchemaOf Examples.rawOptions = true
  /\ typesOf Utils.comment Utils.nodeType Utils.transformRef Utils.tsArrayOf
       Utils.tsIntersectionOf Utils.tsPartial Utils.tsUnionOf Utils.tsTupleOf true
       (propertyMappedOf Utils.propertyMapper Examples.rawOptions
          (componentsOf true Examples.rawPet))
       ["string"]
  /\ generateTypesV3_ Examples.rawPet Examples.rawOptions
     = Ok ("export interface schemas {" ++ Js.nl ++ "  "
           ++ Js.quoted "Pet" ++ ": string;" ++ Js.nl
           ++ Js.nl ++ "}").
Proof.
  assert (Hts : typesOf Utils.comment Utils.nodeType Utils.transformRef Utils.tsArrayOf
                  Utils.tsIntersectionOf Utils.tsPartial Utils.tsUnionOf
                  Utils.tsTupleOf true
                  (propertyMappedOf Utils.propertyMapper Examples.rawOptions
                     (componentsOf true Examples.rawPet))
                  ["string"])
    by (repeat constructor).
  split; [reflexivity | split; [exact Hts | ]].
  exact (proj1 (@raw_schema_output Utils.comment Utils.nodeType Utils.transformRef
                  Utils.tsArrayOf Utils.tsIntersectionOf Utils.tsPartial
                  Utils.tsUnionOf Utils.tsTupleOf Utils.unrefComponent Utils.Mapper
                  Utils.propertyMapper Utils.engineNumber Utils.engineString
                  Utils.memberAt Examples.rawPet Examples.rawOptions ["string"]
                  eq_refl Hts)).
Defined.


(** C1 as it is stated fails on [petPaths]: the first site with the
    identifier [listPets] carries [firstListPets], and the one entry of the
    operations table when the call ends holds [secondListPets], the
    operation of the second site; the operations block of the text is made
    of that operation, under the comment of its description. *)
Lemma first_occurrence_is_overwritten :
  firstOperation "listPets" (sites Examples.petPaths) = Some Examples.firstListPets
  /\ Obj.entries (operations (finalState_ Examples.petsDocument None))
     = [("listPets", Examples.secondListPets)]
  /\ Examples.firstListPets <> Examples.secondListPets
  /\ generateTypesV3_ Examples.petsDocument None
     = Ok ("export interface paths {" ++ Js.nl ++ "  "
           ++ Js.quoted "/pets" ++ ": {" ++ Js.nl
           ++ Js.quoted "get" ++ ": operations[" ++ Js.quoted "listPets" ++ "];" ++ Js.nl
           ++ "}" ++ Js.nl
           ++ Js.quoted "/animals" ++ ": {" ++ Js.nl
           ++ Js.quoted "get" ++ ": operations[" ++ Js.quoted "listPets" ++ "];" ++ Js.nl
           ++ "}" ++ Js.nl
           ++ Js.nl ++ "}" ++ Js.nl ++ Js.nl
           ++ "export interface operations {" ++ Js.nl
           ++ Utils.comment "second"
           ++ Js.quoted "listPets" ++ ": {" ++ Js.nl
           ++ "responses: {" ++ Js.nl ++ "}" ++ Js.nl ++ "}" ++ Js.nl
           ++ Js.nl ++ "}" ++ Js.nl ++ Js.nl
           ++ "export interface components {" ++ Js.nl ++ Js.nl ++ "}").
Proof. repeat split. discriminate. Qed.

Lemma shared_operationId_registered_once_witness :
  rawSchemaOf (@None (SwaggerToTSOptions Utils.Mapper)) = false
  /\ generateTypesV3_ Examples.petsDocument None = Ok petsText
  /\ "listPets" <> "__proto__"
  /\ lastOperation "listPets" (sites (pathsOf Examples.petsDocument)) None
     = Some Examples.secondListPets
  /\ exists imports pathTexts entries operationTexts,
       declarations Examples.petsDocument imports pathTexts operationTexts petsText
       /\ Forall2 (pathText_ false (componentsOf false Examples.petsDocument))
                  (pathsOf Examples.petsDocument) pathTexts
       /\ Forall2 (operationText_ false (componentsOf false Examples.petsDocument))
                  entries operationTexts
       /\ In ("listPets", Examples.secondListPets) entries
       /\ count_occ string_dec (keys entries) "listPets" = 1.
Proof.
  assert (Hid : "listPets" <> "__proto__") by discriminate.
  split; [reflexivity | split; [reflexivity | split; [exact Hid | ]]].
  split; [reflexivity | ].
  exact (@shared_operationId_registered_once Utils.comment Utils.nodeType
           Utils.transformRef Utils.tsArrayOf Utils.tsIntersectionOf Utils.tsPartial
           Utils.tsUnionOf Utils.tsTupleOf Utils.unrefComponent Utils.Mapper
           Utils.propertyMapper Utils.engineNumber Utils.engineString Utils.memberAt
           Examples.petsDocument None petsText "listPets" Examples.secondListPets
           eq_refl eq_refl Hid eq_refl).
Defined.

(** ** The further properties on sample documents *)

Lemma external_reference_with_path_witness :
  "other.json" <> EmptyString
  /\ isExternalRef "other.json" = true
  /\ sepFree "other.json" = true
  /\ Forall (fun s => slashFree s = true) ["components"; "Widget"]
  /\ sepFree (Js.join "/" ["components"; "Widget"]) = true
  /\ Js.join "/" ["components"; "Widget"] <> EmptyString
  /\ transformRefType Utils.transformRef "other.json#/components/Widget" "" state0
     = (Ok ("external[" ++ Js.quoted "other" ++ "]["
            ++ Js.quoted "components" ++ "][" ++ Js.quoted "Widget" ++ "]"),
        withFileKey "other" state0).
Proof.
  assert (Hname : "other.json" <> EmptyString) by discriminate.
  assert (Hsegments : Forall (fun s => slashFree s = true) ["components"; "Widget"])
    by (repeat constructor).
  assert (Hnonempty : Js.join "/" ["components"; "Widget"] <> EmptyString)
    by discriminate.
  repeat (split; [first [assumption | reflexivity] | ]).
  exact (@external_reference_with_path Utils.transformRef "other.json" ""
           ["components"; "Widget"] state0 Hname eq_refl eq_refl Hsegments eq_refl
           Hnonempty).
Defined.

Lemma external_reference_without_path_witness :
  isExternalRef "other.json" = true
  /\ sepFree "other.json" = true
  /\ transformRefType Utils.transformRef "other.json" "" state0
     = (Ok ("external[" ++ Js.quoted "other" ++ "]"), withFileKey "other" state0).
Proof.
  split; [reflexivity | split; [reflexivity | ]].
  exact (proj1 (@external_reference_without_path Utils.transformRef "other.json" ""
                  state0 eq_refl eq_refl)).
Defined.

Lemma json_suffix_shares_the_key_witness :
  "other" <> EmptyString
  /\ isExternalRef "other" = true
  /\ sepFree "other" = true
  /\ sepFree ("other" ++ ".json") = true
  /\ Js.stripJson "other" = "other"
  /\ sepFree "Widget" = true
  /\ sepFree "Gadget" = true
  /\ externalFileKeys
       (resolveAll Utils.transformRef ["other.json#/Widget"; "other#/Gadget"] "" state0)
     = ["other"].
Proof.
  assert (Hname : "other" <> EmptyString) by discriminate.
  repeat (split; [first [assumption | reflexivity] | ]).
  exact (proj2 (proj2 (@json_suffix_shares_the_key Utils.transformRef "other"
                         "Widget" "Gadget" "" state0 Hname eq_refl eq_refl eq_refl
                         eq_refl eq_refl eq_refl))).
Defined.

Lemma transform_combinators_witness :
  Forall2 (fun n t => yields (transform_ false n) t)
          [Examples.stringNode; Examples.numberNode] ["string"; "number"]
  /\ Utils.nodeType stringOrNumber = Some TOneOf
  /\ oneOf stringOrNumber = Some [Examples.stringNode; Examples.numberNode]
  /\ yields (transform_ false stringOrNumber)
            (Utils.tsUnionOf [ItemStr "string"; ItemStr "number"]).
Proof.
  assert (Hts : Forall2 (fun n t => yields (transform_ false n) t)
                        [Examples.stringNode; Examples.numberNode]
                        ["string"; "number"])
    by (repeat constructor).
  split; [exact Hts | split; [reflexivity | split; [reflexivity | ]]].
  exact (proj1 (@transform_combinators Utils.comment Utils.nodeType Utils.transformRef
                  Utils.tsArrayOf Utils.tsIntersectionOf Utils.tsPartial
                  Utils.tsUnionOf Utils.tsTupleOf false stringOrNumber
                  [Examples.stringNode; Examples.numberNode] ["string"; "number"] Hts)
           eq_refl eq_refl).
Defined.

Lemma transform_object_witness :
  Utils.nodeType openPet = Some TObject
  /\ isEmptyObject openPet = false
  /\ yields (transform_ false openPet)
       (Utils.tsIntersectionOf
          ["{ " ++ Js.quoted "id" ++ ": number;" ++ Js.nl
                ++ Js.quoted "name" ++ "?: string;" ++ Js.nl ++ " }";
           "{ [key: string]: any;}" ++ Js.nl]).
Proof.
  split; [reflexivity | split; [reflexivity | ]].
  refine (@transform_object Utils.comment Utils.nodeType Utils.transformRef
            Utils.tsArrayOf Utils.tsIntersectionOf Utils.tsPartial Utils.tsUnionOf
            Utils.tsTupleOf false openPet ["number"; "string"] []
            ["{ [key: string]: any;}" ++ Js.nl] eq_refl eq_refl _ _ _).
  - repeat constructor.
  - constructor.
  - exists EmptyString. split; [intros st; reflexivity | reflexivity].
Defined.

Lemma transform_empty_object_witness :
  Utils.nodeType bareObject = Some TObject
  /\ (properties bareObject = None \/ properties bareObject = Some [])
  /\ allOf bareObject = None
  /\ additionalProperties bareObject = None
  /\ transform_ true bareObject state0 = (Ok "{ [key: string]: any }", state0).
Proof.
  split; [reflexivity | split; [now left | split; [reflexivity | split]]];
    [reflexivity | ].
  exact (@transform_empty_object Utils.comment Utils.nodeType Utils.transformRef
           Utils.tsArrayOf Utils.tsIntersectionOf Utils.tsPartial Utils.tsUnionOf
           Utils.tsTupleOf true bareObject state0 eq_refl (or_introl eq_refl)
           eq_refl eq_refl).
Defined.

Lemma operations_table_lists_the_identified_sites_witness :
  rawSchemaOf (@None (SwaggerToTSOptions Utils.Mapper)) = false
  /\ generateTypesV3_ zooDocument None = Ok zooText
  /\ exists imports pathTexts entries operationTexts,
       declarations zooDocument imports pathTexts operationTexts zooText
       /\ Forall2 (operationText_ false (componentsOf false zooDocument))
                  entries operationTexts
       /\ forall id,
            In id (keys entries)
            <-> id <> "__proto__"
                /\ exists site,
                     In site (sites (pathsOf zooDocument))
                     /\ Js.truthy (operationId (snd site)) = Some id.
Proof.
  split; [reflexivity | split; [reflexivity | ]].
  exact (@operations_table_lists_the_identified_sites Utils.comment Utils.nodeType
           Utils.transformRef Utils.tsArrayOf Utils.tsIntersectionOf Utils.tsPartial
           Utils.tsUnionOf Utils.tsTupleOf Utils.unrefComponent Utils.Mapper
           Utils.propertyMapper Utils.engineNumber Utils.engineString Utils.memberAt
           zooDocument None zooText eq_refl eq_refl).
Defined.

Lemma empty_operationId_is_expanded_witness :
  operationId unnamedOperation = Some EmptyString
  /\ operations (snd (@pathField Utils.comment Utils.nodeType Utils.transformRef
                        Utils.tsArrayOf Utils.tsIntersectionOf Utils.tsPartial
                        Utils.tsUnionOf Utils.tsTupleOf Utils.unrefComponent
                        Utils.engineNumber Utils.engineString Utils.memberAt false
                        Examples.noComponents ("get", unnamedOperation) state0))
     = operations state0.
Proof.
  split; [reflexivity | ].
  exact (proj2 (@empty_operationId_is_expanded Utils.comment Utils.nodeType
                  Utils.transformRef Utils.tsArrayOf Utils.tsIntersectionOf
                  Utils.tsPartial Utils.tsUnionOf Utils.tsTupleOf Utils.unrefComponent
                  Utils.engineNumber Utils.engineString Utils.memberAt
                  false Examples.noComponents "get" unnamedOperation state0 eq_refl)).
Defined.

Lemma leading_zero_status_key_witness :
  numericKey "0204" = true
  /\ Js.digitsValue 0 "204" <> 0%N
  /\ responseEntry_ false ("0204", Some Examples.noContent) state0
     = responseEntry_ false ("204", Some Examples.noContent) state0.
Proof.
  assert (Hpositive : Js.digitsValue 0 "204" <> 0%N) by discriminate.
  split; [reflexivity | split; [exact Hpositive | ]].
  exact (@leading_zero_status_key Utils.comment Utils.nodeType Utils.transformRef
           Utils.tsArrayOf Utils.tsIntersectionOf Utils.tsPartial Utils.tsUnionOf
           Utils.tsTupleOf Utils.engineNumber Utils.engineString false "204"
           (Some Examples.noContent) state0 eq_refl Hpositive).
Defined.

Lemma unresolved_parameter_reference_witness :
  In (RefParameter ("#/components/parameters/" ++ "limit")) withLimit
  /\ slashFree "limit" = true
  /\ Js.isInherited "limit" = false
  /\ componentParameter (st_input state0) "limit" = None
  /\ transformParameters_ false Examples.noComponents withLimit state0
     = (Throw TypeError, state0).
Proof.
  assert (Hin : In (RefParameter ("#/components/parameters/" ++ "limit")) withLimit)
    by (right; left; reflexivity).
  split; [exact Hin | split; [reflexivity | split; [reflexivity | ]]].
  split; [reflexivity | ].
  exact (@unresolved_parameter_reference Utils.comment Utils.nodeType
           Utils.transformRef Utils.tsArrayOf Utils.tsIntersectionOf Utils.tsPartial
           Utils.tsUnionOf Utils.tsTupleOf Utils.unrefComponent Utils.memberAt false
           Examples.noComponents withLimit "limit" state0 Hin eq_refl eq_refl eq_refl).
Defined.

Lemma internal_reference_witness :
  Utils.nodeType petReference = Some TRef
  /\ ref petReference = Some "#/components/schemas/Pet"
  /\ Js.startsWith "#" "#/components/schemas/Pet" = true
  /\ transform_ true petReference state0
     = (Ok ("schemas[" ++ Js.quoted "components" ++ "][" ++ Js.quoted "schemas" ++ "]["
            ++ Js.quoted "Pet" ++ "]"), state0).
Proof.
  repeat (split; [reflexivity | ]).
  exact (@internal_reference Utils.comment Utils.nodeType Utils.transformRef
           Utils.tsArrayOf Utils.tsIntersectionOf Utils.tsPartial Utils.tsUnionOf
           Utils.tsTupleOf true petReference "#/components/schemas/Pet" state0
           eq_refl eq_refl eq_refl).
Defined.

Lemma import_text_by_position_witness :
  rawSchemaOf (@None (SwaggerToTSOptions Utils.Mapper)) = false
  /\ generateTypesV3_ widgetDocument None = Ok widgetText
  /\ externalFileKeys (finalState_ widgetDocument None) = ["other"; "more"]
  /\ exists pathTexts operationTexts,
       declarations widgetDocument
         ("import { schemas as external$0 } from " ++ Js.quoted "./other" ++ Js.nl
          ++ "import { schemas as external$1 } from " ++ Js.quoted "./more" ++ Js.nl
          ++ Js.nl
          ++ "export type external = {" ++ Js.nl
          ++ Js.quoted "other" ++ ": external$0" ++ Js.nl
          ++ Js.quoted "more" ++ ": external$1" ++ Js.nl
          ++ "}" ++ Js.nl ++ Js.nl)
         pathTexts operationTexts widgetText
       /\ NoDup ["other"; "more"].
Proof.
  split; [reflexivity | split; [reflexivity | split; [reflexivity | ]]].
  exact (@import_text_by_position Utils.comment Utils.nodeType
           Utils.transformRef Utils.tsArrayOf Utils.tsIntersectionOf Utils.tsPartial
           Utils.tsUnionOf Utils.tsTupleOf Utils.unrefComponent Utils.Mapper
           Utils.propertyMapper Utils.engineNumber Utils.engineString Utils.memberAt
           widgetDocument None widgetText eq_refl eq_refl).
Defined.

Lemma operations_in_order_of_first_use_witness :
  rawSchemaOf (@None (SwaggerToTSOptions Utils.Mapper)) = false
  /\ generateTypesV3_ zooDocument None = Ok zooText
  /\ Forall (fun id => Obj.arrayIndex id = None)
            (identifiersInOrder (sites (pathsOf zooDocument)))
  /\ exists imports pathTexts entries operationTexts,
       declarations zooDocument imports pathTexts operationTexts zooText
       /\ Forall2 (operationText_ false (componentsOf false zooDocument))
                  entries operationTexts
       /\ keys entries = ["listPets"; "addPet"].
Proof.
  assert (Hnamed : Forall (fun id => Obj.arrayIndex id = None)
                          (identifiersInOrder (sites (pathsOf zooDocument))))
    by (repeat constructor).
  split; [reflexivity | split; [reflexivity | split; [exact Hnamed | ]]].
  exact (@operations_in_order_of_first_use Utils.comment Utils.nodeType
           Utils.transformRef Utils.tsArrayOf Utils.tsIntersectionOf Utils.tsPartial
           Utils.tsUnionOf Utils.tsTupleOf Utils.unrefComponent Utils.Mapper
           Utils.propertyMapper Utils.engineNumber Utils.engineString Utils.memberAt
           zooDocument None zooText eq_refl eq_refl Hnamed).
Defined.

Lemma nothing_to_declare_witness :
  rawSchemaOf (@None (SwaggerToTSOptions Utils.Mapper)) = false
  /\ lacksBoth emptyPaths = false
  /\ pathsOf emptyPaths = []
  /\ propertyMappedOf Utils.propertyMapper None (componentsOf false emptyPaths) = []
  /\ noEntries (c_parameters (componentsOf false emptyPaths))
  /\ noEntries (c_responses (componentsOf false emptyPaths))
  /\ generateTypesV3_ emptyPaths None
     = Ok ("export interface operations {" ++ Js.nl ++ Js.nl ++ "}" ++ Js.nl ++ Js.nl
           ++ "export interface components {" ++ Js.nl ++ Js.nl ++ "}").
Proof.
  assert (Hnone : forall A, noEntries (@None (list (string * A))))
    by (intros A; now left).
  repeat (split; [first [reflexivity | apply Hnone] | ]).
  exact (proj1 (@nothing_to_declare Utils.comment Utils.nodeType
           Utils.transformRef Utils.tsArrayOf Utils.tsIntersectionOf Utils.tsPartial
           Utils.tsUnionOf Utils.tsTupleOf Utils.unrefComponent Utils.Mapper
           Utils.propertyMapper Utils.engineNumber Utils.engineString Utils.memberAt
                  emptyPaths None eq_refl eq_refl eq_refl eq_refl
                  (Hnone _) (Hnone _))).
Defined.

Lemma parameter_locations_in_order_witness :
  transformParameters_ false Examples.noComponents mixedParameters state0
  = (Ok mixedText, state0)
  /\ exists records,
       mixedText = "parameters: {" ++ Js.nl ++ Js.concat records ++ "}" ++ Js.nl
       /\ Forall2 (fun loc record => exists entries, recordText_ false loc entries record)
                  ["query"; "header"] records.
Proof.
  split; [reflexivity | ].
  exact (@parameter_locations_in_order Utils.comment Utils.nodeType Utils.transformRef
           Utils.tsArrayOf Utils.tsIntersectionOf Utils.tsPartial Utils.tsUnionOf
           Utils.tsTupleOf Utils.unrefComponent Utils.memberAt false
           Examples.noComponents mixedParameters mixedText state0 state0 eq_refl).
Defined.

Lemma last_parameter_is_the_field_witness :
  transformParameters_ false Examples.noComponents mixedParameters state0
  = (Ok mixedText, state0)
  /\ "id" <> "__proto__"
  /\ lastContent Utils.transformRef Utils.memberAt (st_input state0)
       (Some InQuery, "id") mixedParameters None
     = Some (Props (Examples.queryId Examples.numberNode))
  /\ exists table records entries,
       mixedText = "parameters: {" ++ Js.nl ++ Js.concat records ++ "}" ++ Js.nl
       /\ Forall2 (fun (entry : string * list (string * ParamProps)) record =>
                     recordText_ false (fst entry) (snd entry) record)
                  table records
       /\ In ("query", entries) table
       /\ count_occ string_dec (keys table) "query" = 1
       /\ In ("id", Props (Examples.queryId Examples.numberNode)) entries
       /\ count_occ string_dec (keys entries) "id" = 1.
Proof.
  assert (Hname : "id" <> "__proto__") by discriminate.
  split; [reflexivity | split; [exact Hname | split; [reflexivity | ]]].
  exact (@last_parameter_is_the_field Utils.comment Utils.nodeType Utils.transformRef
           Utils.tsArrayOf Utils.tsIntersectionOf Utils.tsPartial Utils.tsUnionOf
           Utils.tsTupleOf Utils.unrefComponent Utils.memberAt false
           Examples.noComponents mixedParameters mixedText state0 state0
           (Some InQuery) "id" (Props (Examples.queryId Examples.numberNode))
           eq_refl Hname eq_refl).
Defined.

Lemma proto_parameter_is_never_emitted_witness :
  transformParameters_ false Examples.noComponents twoProtos state0
  = (Ok ("parameters: {" ++ Js.nl
         ++ Js.quoted "query" ++ ": {" ++ Js.nl ++ "}" ++ Js.nl
         ++ "}" ++ Js.nl),
     state0)
  /\ exists table records,
       "parameters: {" ++ Js.nl
       ++ Js.quoted "query" ++ ": {" ++ Js.nl ++ "}" ++ Js.nl
       ++ "}" ++ Js.nl
       = "parameters: {" ++ Js.nl ++ Js.concat records ++ "}" ++ Js.nl
       /\ Forall2 (fun (entry : string * list (string * ParamProps)) record =>
                     recordText_ false (fst entry) (snd entry) record)
                  table records
       /\ Forall (fun entry : string * list (string * ParamProps) =>
                    ~ In "__proto__" (keys (snd entry)))
                 table.
Proof.
  split; [reflexivity | ].
  exact (@proto_parameter_is_never_emitted Utils.comment Utils.nodeType
           Utils.transformRef Utils.tsArrayOf Utils.tsIntersectionOf Utils.tsPartial
           Utils.tsUnionOf Utils.tsTupleOf Utils.unrefComponent Utils.memberAt false
           Examples.noComponents twoProtos _ state0 state0 eq_refl).
Defined.

Lemma response_with_content_witness :
  r_content noContentWithBody = Some jsonContent
  /\ jsonContent <> []
  /\ contentTypes Utils.comment Utils.nodeType Utils.transformRef Utils.tsArrayOf
       Utils.tsIntersectionOf Utils.tsPartial Utils.tsUnionOf Utils.tsTupleOf false
       jsonContent ["string"]
  /\ yields (responseEntry_ false ("204", Some noContentWithBody))
       ("204: {" ++ Js.nl ++ Js.quoted "application/json" ++ ": string;" ++ Js.nl
        ++ "}" ++ Js.nl).
Proof.
  assert (Hkeys : jsonContent <> []) by discriminate.
  assert (Hts : contentTypes Utils.comment Utils.nodeType Utils.transformRef
                  Utils.tsArrayOf Utils.tsIntersectionOf Utils.tsPartial
                  Utils.tsUnionOf Utils.tsTupleOf false jsonContent ["string"])
    by (repeat constructor).
  split; [reflexivity | split; [exact Hkeys | split; [exact Hts | ]]].
  exact (@response_with_content Utils.comment Utils.nodeType Utils.transformRef
           Utils.tsArrayOf Utils.tsIntersectionOf Utils.tsPartial Utils.tsUnionOf
           Utils.tsTupleOf Utils.engineNumber Utils.engineString false "204"
           noContentWithBody jsonContent ["string"] eq_refl Hkeys Hts).
Defined.
